(** * Process manager (manager.c): a shallow embedding and its properties

    The manager keeps a table of [MAX_PROCESSES] process records, the
    index of the running record and the dispatch clock in global
    variables.  The embedding keeps these globals in a record, threads
    it through a small state monad, and takes the answers of the
    operating system ([kill], [time], [fork], [waitpid]) from an
    environment, recording every call and every printed line in a
    trace.  The commands are read twice: run to their end one after the
    other, with [sigchld_handler] between them, and statement by
    statement, with the handler delivered where a schedule says. *)

From Stdlib Require Import ZArith Lia Ascii String.
From stdpp Require Import base list strings.

Local Open Scope Z_scope.

(** ** Data model *)

(** [enum process_status], with the enumerators' values. *)
Inductive process_status :=
  | RUNNING
  | READY
  | STOPPED
  | TERMINATED
  | UNUSED.

Definition status_code (s : process_status) : Z :=
  match s with
  | RUNNING => 0
  | READY => 1
  | STOPPED => 2
  | TERMINATED => 3
  | UNUSED => 4
  end.

#[global] Instance process_status_eq_dec : EqDecision process_status.
Proof. solve_decision. Defined.

(** [struct process_record]. [pid_t] and [int] are 32-bit integers,
    carried as [Z]. *)
Record process_record := ProcessRecord {
  pid : Z;
  status : process_status;
  remaining_runtime : Z
}.

Definition MAX_PROCESSES : Z := 64.
Definition INT_MAX : Z := 2147483647.
Definition INT_MIN : Z := -2147483648.
Definition LONG_MAX : Z := 9223372036854775807.
Definition LONG_MIN : Z := -9223372036854775808.

(** Conversion of a 64-bit value to [int]: reduction modulo [2^32] into
    the signed range, as gcc defines it. *)
Definition int_of_long (x : Z) : Z :=
  (x + 2147483648) mod 4294967296 - 2147483648.

(** The globals of manager.c. [time_t] values are carried as [Z]. *)
Record manager := Manager {
  process_records : list process_record;
  running_process_index : Z;
  start_time : Z;
  elapsed_time : Z
}.

(** A static array is zero-filled before [main] runs. *)
Definition zero_record : process_record :=
  {| pid := 0; status := RUNNING; remaining_runtime := 0 |}.

(** [process_records[i]]; the source only indexes inside the array. *)
Definition record_at (tbl : list process_record) (i : Z) : process_record :=
  default zero_record (tbl !! Z.to_nat i).

Definition set_pid (v : Z) (p : process_record) : process_record :=
  {| pid := v; status := status p; remaining_runtime := remaining_runtime p |}.
Definition set_status (v : process_status) (p : process_record) : process_record :=
  {| pid := pid p; status := v; remaining_runtime := remaining_runtime p |}.
Definition set_remaining_runtime (v : Z) (p : process_record) : process_record :=
  {| pid := pid p; status := status p; remaining_runtime := v |}.

(** A write through [p = &process_records[i]]. *)
Definition update_record (i : Z) (f : process_record -> process_record)
    (g : manager) : manager :=
  {| process_records := alter f (Z.to_nat i) (process_records g);
     running_process_index := running_process_index g;
     start_time := start_time g;
     elapsed_time := elapsed_time g |}.

Definition set_running_process_index (v : Z) (g : manager) : manager :=
  {| process_records := process_records g;
     running_process_index := v;
     start_time := start_time g;
     elapsed_time := elapsed_time g |}.
Definition set_start_time (v : Z) (g : manager) : manager :=
  {| process_records := process_records g;
     running_process_index := running_process_index g;
     start_time := v;
     elapsed_time := elapsed_time g |}.
Definition set_elapsed_time (v : Z) (g : manager) : manager :=
  {| process_records := process_records g;
     running_process_index := running_process_index g;
     start_time := start_time g;
     elapsed_time := v |}.

(** ** Utility functions *)

(** [initialise_process_records]: every status becomes [UNUSED]; the
    other fields keep the zero of static storage. *)
Definition initialise_process_records (tbl : list process_record)
    : list process_record :=
  foldl (fun t i => alter (set_status UNUSED) (Z.to_nat i) t) tbl
        (seqZ 0 MAX_PROCESSES).

Definition initial_manager : manager :=
  {| process_records :=
       initialise_process_records
         (replicate (Z.to_nat MAX_PROCESSES) zero_record);
     running_process_index := -1;
     start_time := 0;
     elapsed_time := 0 |}.

(** The loop [for (i = from; i < from + n; i++) if (test(records[i])) return i;
    return -1;] shared by the two index searches and by the pid searches
    of the handlers. *)
Fixpoint first_index (n : nat) (from : Z) (test : process_record -> bool)
    (tbl : list process_record) : Z :=
  match n with
  | O => -1
  | S n' =>
      if test (record_at tbl from) then from
      else first_index n' (from + 1) test tbl
  end.

Definition has_status (s : process_status) (p : process_record) : bool :=
  bool_decide (status p = s).

Definition get_unused_process_index (tbl : list process_record) : Z :=
  first_index (Z.to_nat MAX_PROCESSES) 0 (has_status UNUSED) tbl.

Definition get_terminated_process_index (tbl : list process_record) : Z :=
  first_index (Z.to_nat MAX_PROCESSES) 0 (has_status TERMINATED) tbl.

(** The loop of [find_min_runtime_process], carrying [min_index] and
    [min_runtime]. *)
Fixpoint min_runtime_loop (n : nat) (i : Z) (min_index min_runtime : Z)
    (tbl : list process_record) : Z :=
  match n with
  | O => min_index
  | S n' =>
      let p := record_at tbl i in
      if has_status READY p then
        if remaining_runtime p <? min_runtime
        then min_runtime_loop n' (i + 1) i (remaining_runtime p) tbl
        else min_runtime_loop n' (i + 1) min_index min_runtime tbl
      else min_runtime_loop n' (i + 1) min_index min_runtime tbl
  end.

Definition find_min_runtime_process (tbl : list process_record) : Z :=
  min_runtime_loop (Z.to_nat MAX_PROCESSES) 0 (-1) INT_MAX tbl.

(** The search [for (i ...) if (p->pid == pid) { ...; return; }] of the
    handlers and of [sigchld_handler]: index of the first record that
    holds [v], or [-1]. *)
Definition has_pid (v : Z) (p : process_record) : bool := pid p =? v.

Definition find_pid (v : Z) (tbl : list process_record) : Z :=
  first_index (Z.to_nat MAX_PROCESSES) 0 (has_pid v) tbl.

(** ** [get_input] *)

(** Where the first loop of [get_input] stops: at the end of the C
    string, or at the first ['\r'] or ['\n'], which it overwrites with
    the end of the string. *)
Definition ends_line (c : ascii) : bool :=
  let n := Z.of_nat (nat_of_ascii c) in
  (n =? 0) || (n =? 13) || (n =? 10).

Fixpoint cut_line (buffer : string) : string :=
  match buffer with
  | String c rest => if ends_line c then EmptyString else String c (cut_line rest)
  | EmptyString => EmptyString
  end.

(** [strtok] with the delimiter [" "]: the delimiters in front are
    skipped; with nothing left there is no token; otherwise the token
    runs to the next delimiter, and the next call starts behind it. *)
Definition is_delimiter (c : ascii) : bool := Z.of_nat (nat_of_ascii c) =? 32.

Fixpoint skip_delimiters (s : string) : string :=
  match s with
  | String c rest => if is_delimiter c then skip_delimiters rest else s
  | EmptyString => s
  end.

Fixpoint scan_token (s : string) : string * string :=
  match s with
  | String c rest =>
      if is_delimiter c then (EmptyString, rest)
      else let (token, behind) := scan_token rest in (String c token, behind)
  | EmptyString => (EmptyString, EmptyString)
  end.

Definition strtok (s : string) : option (string * string) :=
  match skip_delimiters s with
  | EmptyString => None
  | s' => Some (scan_token s')
  end.

(** The [while] loop of [get_input]: [p] is the result of the last
    [strtok], [arg_cnt] the number of tokens stored so far.  Every call
    of [strtok] that returns a token consumes a character, so [fuel]
    bounds the number of rounds. *)
Fixpoint get_input_loop (fuel : nat) (arg_cnt args_count_max : Z)
    (p : option (string * string)) : list string :=
  match fuel, p with
  | S fuel', Some (token, behind) =>
      token ::
      (if arg_cnt + 1 =? args_count_max - 1 then []
       else get_input_loop fuel' (arg_cnt + 1) args_count_max (strtok behind))
  | _, _ => []
  end.

(** [get_input]: the tokens stored in [args], in order; [args[0]], the
    value returned, is the first of them, and the entry behind the last
    is null. *)
Definition get_input (buffer : string) (args_count_max : Z) : list string :=
  let line := (cut_line buffer ++ " ")%string in
  get_input_loop (S (String.length line)) 0 args_count_max (strtok line).

(** ** [atoi] *)

(** [atoi] is [(int) strtol(s, NULL, 10)]: white space is skipped, one
    sign is read, then the longest run of digits; the value saturates at
    the [long] bounds and is converted to [int]. *)
Definition isspace (c : ascii) : bool :=
  let n := Z.of_nat (nat_of_ascii c) in
  (n =? 32) || ((9 <=? n) && (n <=? 13)).

Definition digit_value (c : ascii) : option Z :=
  let n := Z.of_nat (nat_of_ascii c) in
  if (48 <=? n) && (n <=? 57) then Some (n - 48) else None.

Fixpoint skip_spaces (s : string) : string :=
  match s with
  | String c s' => if isspace c then skip_spaces s' else s
  | EmptyString => s
  end.

Fixpoint digits (acc : Z) (s : string) : Z :=
  match s with
  | String c s' =>
      match digit_value c with
      | Some d => digits (10 * acc + d) s'
      | None => acc
      end
  | EmptyString => acc
  end.

Definition clamp_long (x : Z) : Z := Z.max LONG_MIN (Z.min LONG_MAX x).

Definition strtol (s : string) : Z :=
  match skip_spaces s with
  | String "-"%char s' => clamp_long (- digits 0 s')
  | String "+"%char s' => clamp_long (digits 0 s')
  | s' => clamp_long (digits 0 s')
  end.

Definition atoi (s : string) : Z := int_of_long (strtol s).

(** ** The operating system and the trace *)

Inductive signal := SIGSTOP | SIGCONT | SIGTERM.

Inductive stream := Stdout | Stderr.

(** The lines the manager prints, one constructor per format string. *)
Inductive message :=
  | Run_invalid_arguments
  | Run_invalid_runtime
  | Run_max_processes
  | Run_fork_failed
  | Run_kill_failed
  | Scheduler_first_kill_failed
  | Scheduler_second_kill_failed
  | List_entry (pid code : Z)
  | List_no_processes
  | Pid_not_positive
  | Stop_kill_failed
  | Stop_not_running (pid : Z)
  | Resume_not_stopped (pid : Z)
  | Kill_kill_failed
  | Kill_already_terminated (pid : Z)
  | Exit_kill_failed
  | Exit_message
  | Process_not_found (pid : Z)
  | Unknown_command (name : string).

(** The error taxonomy the diagnostics fall into. *)
Inductive error_class :=
  | InvalidArgument
  | NotFound
  | InvalidState
  | TableFull
  | SpawnFailed
  | SignalFailed.

Definition classify (m : message) : option error_class :=
  match m with
  | Run_invalid_arguments | Run_invalid_runtime | Pid_not_positive
  | Unknown_command _ => Some InvalidArgument
  | Run_max_processes => Some TableFull
  | Run_fork_failed => Some SpawnFailed
  | Run_kill_failed | Scheduler_first_kill_failed
  | Scheduler_second_kill_failed | Stop_kill_failed | Kill_kill_failed
  | Exit_kill_failed => Some SignalFailed
  | Stop_not_running _ | Resume_not_stopped _
  | Kill_already_terminated _ => Some InvalidState
  | Process_not_found _ => Some NotFound
  | List_entry _ _ | List_no_processes | Exit_message => None
  end.

Inductive event :=
  | EvKill (target : Z) (sig : signal) (result : Z)
  | EvTime (now : Z)
  | EvFork (result : Z)
  | EvExec (argv : list string)
  | EvPrint (out : stream) (m : message).

(** The answers of the system calls.  A call made when the trace holds
    [n] events gets the answer at [n], so every sequence of answers is
    an environment. *)
Record environment := Environment {
  kill_fails : nat -> Z -> signal -> bool;
  clock : nat -> Z;
  fork_result : nat -> Z
}.

Record world := World {
  globals : manager;
  trace : list event
}.

(** ** State monad *)

Definition M (A : Type) : Type := world -> A * world.

Definition ret {A} (x : A) : M A := fun w => (x, w).
Definition bind {A B} (c : M A) (k : A -> M B) : M B :=
  fun w => let (x, w') := c w in k x w'.

Declare Scope manager_scope.
Delimit Scope manager_scope with mgr.
Notation "x <- c ;; k" := (bind c (fun x => k))
  (at level 100, c at next level, right associativity) : manager_scope.
Notation "c ;; k" := (bind c (fun _ => k))
  (at level 100, right associativity) : manager_scope.
Local Open Scope manager_scope.

Definition get : M manager := fun w => (globals w, w).
Definition modify (f : manager -> manager) : M unit :=
  fun w => (tt, {| globals := f (globals w); trace := trace w |}).
Definition emit (e : event) : M unit :=
  fun w => (tt, {| globals := globals w; trace := trace w ++ [e] |}).

Definition exec {A} (c : M A) (w : world) : world := snd (c w).

Section Manager.

Variable E : environment.

Definition sys_kill (target : Z) (sig : signal) : M Z :=
  fun w =>
    let r := if kill_fails E (length (trace w)) target sig then -1 else 0 in
    (r, {| globals := globals w; trace := trace w ++ [EvKill target sig r] |}).

Definition sys_time : M Z :=
  fun w =>
    let t := clock E (length (trace w)) in
    (t, {| globals := globals w; trace := trace w ++ [EvTime t] |}).

Definition sys_fork : M Z :=
  fun w =>
    let r := fork_result E (length (trace w)) in
    (r, {| globals := globals w; trace := trace w ++ [EvFork r] |}).

Definition print (out : stream) (m : message) : M unit :=
  emit (EvPrint out m).

(** The accounting block the source repeats in [sigchld_handler],
    [scheduler], [perform_stop], [perform_kill] and [main]:
    [current_time = time(NULL);
     elapsed_time = difftime(current_time, start_time);
     if (elapsed_time > 0) {
       p->remaining_runtime -= elapsed_time; start_time = current_time; }]
    with [p = &process_records[i]].  [difftime] is taken as the exact
    difference of the two times; the subtraction is done in [long] and
    its result converted to [int]. *)
Definition fold_elapsed (i : Z) (current_time : Z) (g : manager) : manager :=
  let g := set_elapsed_time (current_time - start_time g) g in
  if 0 <? elapsed_time g then
    let g :=
      update_record i
        (fun p => set_remaining_runtime
                    (int_of_long (remaining_runtime p - elapsed_time g)) p) g in
    set_start_time current_time g
  else g.

Definition account (i : Z) : M unit :=
  current_time <- sys_time ;;
  modify (fold_elapsed i current_time).

(** ** Signal handler *)

(** The body of the [while] loop of [sigchld_handler] for one pid
    returned by [waitpid]. *)
Definition reap (v : Z) : M unit :=
  g <- get ;;
  let i := find_pid v (process_records g) in
  if i <? 0 then ret tt
  else
    modify (update_record i (set_status TERMINATED)) ;;
    if i =? running_process_index g then
      account i ;;
      modify (set_running_process_index (-1))
    else ret tt.

(** [sigchld_handler]: [results] are the values [waitpid] returns, in
    order; the loop runs while they are positive, and the end of the
    list stands for the return value that ends the loop. *)
Fixpoint sigchld_handler (results : list Z) : M unit :=
  match results with
  | [] => ret tt
  | v :: rest =>
      if 0 <? v then reap v ;; sigchld_handler rest
      else ret tt
  end.

(** ** Scheduler *)

(** Second part of [scheduler]: pick the [READY] record with the least
    remaining runtime and start it. *)
Definition dispatch : M unit :=
  g <- get ;;
  let min_index := find_min_runtime_process (process_records g) in
  if min_index <? 0 then ret tt
  else
    let p := record_at (process_records g) min_index in
    modify (update_record min_index (set_status RUNNING)) ;;
    modify (set_running_process_index min_index) ;;
    kill_check <- sys_kill (pid p) SIGCONT ;;
    if kill_check =? -1 then print Stderr Scheduler_second_kill_failed
    else
      now <- sys_time ;;
      modify (set_start_time now).

Definition scheduler : M unit :=
  g <- get ;;
  if 0 <=? running_process_index g then
    let i := running_process_index g in
    let p := record_at (process_records g) i in
    kill_check <- sys_kill (pid p) SIGSTOP ;;
    if kill_check =? -1 then print Stderr Scheduler_first_kill_failed
    else
      account i ;;
      modify (update_record i (set_status READY)) ;;
      modify (set_running_process_index (-1)) ;;
      dispatch
  else dispatch.

(** ** Commands *)

(** [args[i]] of the null-terminated argument array. *)
Definition arg (args : list string) (i : nat) : option string := args !! i.

(** The choice of [index] in [perform_run]:
    [index = get_unused_process_index();
     if (index < 0) index = get_terminated_process_index();] *)
Definition allocate_index (tbl : list process_record) : Z :=
  let index := get_unused_process_index tbl in
  if index <? 0 then get_terminated_process_index tbl else index.

(** [perform_run]; [args] is the array [main] passes, which is never
    null.  Where [fork] returns [0] the process is the child, which
    runs the program in place of the manager and writes no global. *)
Definition perform_run (args : list string) : M unit :=
  match arg args 1, arg args 2, arg args 3 with
  | Some _, Some _, Some a3 =>
      if atoi a3 <=? 0 then print Stderr Run_invalid_runtime
      else
        g <- get ;;
        let index := allocate_index (process_records g) in
        if index <? 0 then print Stderr Run_max_processes
        else
          v <- sys_fork ;;
          if v <? 0 then print Stderr Run_fork_failed
          else if v =? 0 then emit (EvExec (drop 1 args))
          else
            modify (update_record index (set_pid v)) ;;
            modify (update_record index (set_status READY)) ;;
            modify (update_record index (set_remaining_runtime (atoi a3))) ;;
            g <- get ;;
            if running_process_index g <? 0 then
              now <- sys_time ;;
              modify (set_start_time now) ;;
              modify (update_record index (set_status RUNNING)) ;;
              modify (set_running_process_index index) ;;
              scheduler
            else
              kill_check <- sys_kill v SIGSTOP ;;
              if kill_check =? -1 then print Stderr Run_kill_failed
              else scheduler
  | _, _, _ => print Stderr Run_invalid_arguments
  end.

(** The loop of [perform_list] from index [i] on, carrying [found]. *)
Fixpoint list_loop (n : nat) (i : Z) (found : bool) : M bool :=
  match n with
  | O => ret found
  | S n' =>
      g <- get ;;
      let p := record_at (process_records g) i in
      if bool_decide (status p <> UNUSED) then
        print Stdout (List_entry (pid p) (status_code (status p))) ;;
        list_loop n' (i + 1) true
      else list_loop n' (i + 1) found
  end.

Definition perform_list : M unit :=
  found <- list_loop (Z.to_nat MAX_PROCESSES) 0 false ;;
  if found then ret tt else print Stdout List_no_processes.

(** [perform_stop], [perform_resume] and [perform_kill] act on the first
    record whose pid is the argument. *)
Definition perform_stop (v : Z) : M unit :=
  if v <=? 0 then print Stdout Pid_not_positive
  else
    g <- get ;;
    let i := find_pid v (process_records g) in
    if i <? 0 then print Stdout (Process_not_found v)
    else
      let p := record_at (process_records g) i in
      if bool_decide (status p = RUNNING) || bool_decide (status p = READY) then
        kill_check <- sys_kill (pid p) SIGSTOP ;;
        if kill_check =? -1 then print Stderr Stop_kill_failed
        else
          modify (update_record i (set_status STOPPED)) ;;
          if i =? running_process_index g then
            account i ;;
            modify (set_running_process_index (-1)) ;;
            scheduler
          else ret tt
      else print Stdout (Stop_not_running v).

Definition perform_resume (v : Z) : M unit :=
  if v <=? 0 then print Stdout Pid_not_positive
  else
    g <- get ;;
    let i := find_pid v (process_records g) in
    if i <? 0 then print Stdout (Process_not_found v)
    else
      let p := record_at (process_records g) i in
      if bool_decide (status p = STOPPED) then
        modify (update_record i (set_status READY)) ;;
        scheduler
      else print Stdout (Resume_not_stopped v).

Definition perform_kill (v : Z) : M unit :=
  if v <=? 0 then print Stdout Pid_not_positive
  else
    g <- get ;;
    let i := find_pid v (process_records g) in
    if i <? 0 then print Stdout (Process_not_found v)
    else
      let p := record_at (process_records g) i in
      if bool_decide (status p <> TERMINATED) then
        kill_check <- sys_kill (pid p) SIGTERM ;;
        if kill_check =? -1 then print Stderr Kill_kill_failed
        else
          modify (update_record i (set_status TERMINATED)) ;;
          account i ;;
          if i =? running_process_index g then
            modify (set_running_process_index (-1)) ;;
            scheduler
          else ret tt
      else print Stdout (Kill_already_terminated v).

(** The loop of [perform_exit] from index [i] on. *)
Fixpoint exit_loop (n : nat) (i : Z) : M unit :=
  match n with
  | O => ret tt
  | S n' =>
      g <- get ;;
      let p := record_at (process_records g) i in
      if bool_decide (status p <> UNUSED) && bool_decide (status p <> TERMINATED)
      then
        kill_check <- sys_kill (pid p) SIGTERM ;;
        (if kill_check =? -1 then print Stderr Exit_kill_failed else ret tt) ;;
        modify (update_record i (set_status TERMINATED)) ;;
        exit_loop n' (i + 1)
      else exit_loop n' (i + 1)
  end.

Definition perform_exit : M unit :=
  exit_loop (Z.to_nat MAX_PROCESSES) 0 ;;
  print Stdout Exit_message.

(** ** Main loop *)

(** What the command line of one iteration asks for, after
    [get_input]: the command word selects the handler, and [stop],
    [resume] and [kill] pass [atoi(args[1])]. *)
Inductive command :=
  | CmdRun (args : list string)
  | CmdStop (a1 : string)
  | CmdResume (a1 : string)
  | CmdKill (a1 : string)
  | CmdList
  | CmdExit
  | CmdUnknown (name : string).

(** The chain of [strcmp] of [main]; [None] where the source hands a
    null pointer to [strcmp] or [atoi]. *)
Definition parse_command (args : list string) : option command :=
  match arg args 0 with
  | None => None
  | Some c =>
      if String.eqb c "run" then Some (CmdRun args)
      else if String.eqb c "stop" then CmdStop <$> arg args 1
      else if String.eqb c "resume" then CmdResume <$> arg args 1
      else if String.eqb c "kill" then CmdKill <$> arg args 1
      else if String.eqb c "list" then Some CmdList
      else if String.eqb c "exit" then Some CmdExit
      else Some (CmdUnknown c)
  end.

(** The periodic block that ends an iteration of the loop of [main]. *)
Definition tick : M unit :=
  g <- get ;;
  if 0 <=? running_process_index g then account (running_process_index g)
  else scheduler.

(** One iteration of the loop of [main]: [input] is the command read
    from the pipe, if any. The result tells whether the loop is left. *)
Definition main_iteration (input : option command) : M bool :=
  match input with
  | Some CmdExit => perform_exit ;; ret true
  | Some (CmdRun args) => perform_run args ;; tick ;; ret false
  | Some (CmdStop a1) => perform_stop (atoi a1) ;; tick ;; ret false
  | Some (CmdResume a1) => perform_resume (atoi a1) ;; tick ;; ret false
  | Some (CmdKill a1) => perform_kill (atoi a1) ;; tick ;; ret false
  | Some CmdList => perform_list ;; tick ;; ret false
  | Some (CmdUnknown name) =>
      print Stdout (Unknown_command name) ;; tick ;; ret false
  | None => tick ;; ret false
  end.


End Manager.

Arguments record_at : simpl never.
Arguments update_record : simpl never.
Arguments fold_elapsed : simpl never.
Arguments find_pid : simpl never.
Arguments find_min_runtime_process : simpl never.
Arguments get_unused_process_index : simpl never.
Arguments get_terminated_process_index : simpl never.
Arguments allocate_index : simpl never.
Arguments atoi : simpl never.
Arguments int_of_long : simpl never.

(** ** Vocabulary of the properties *)

Definition status_at (g : manager) (i : Z) : process_status :=
  status (record_at (process_records g) i).

(** The table has its [MAX_PROCESSES] entries. *)
Definition full_size (g : manager) : Prop :=
  length (process_records g) = Z.to_nat MAX_PROCESSES.

Definition in_table (i : Z) : Prop := 0 <= i < MAX_PROCESSES.

Definition ready_at (tbl : list process_record) (j : Z) : Prop :=
  status (record_at tbl j) = READY.

(** The table has its size, [running_process_index] is [-1] or an index
    of the table, and a record is [RUNNING] exactly when it is the one
    [running_process_index] names. *)
Definition table_inv (g : manager) : Prop :=
  full_size g /\
  -1 <= running_process_index g < MAX_PROCESSES /\
  forall i, in_table i ->
    (status_at g i = RUNNING <-> i = running_process_index g).

(** The test of [perform_exit]: the record is neither [UNUSED] nor
    [TERMINATED]. *)
Definition is_active (p : process_record) : bool :=
  bool_decide (status p <> UNUSED) && bool_decide (status p <> TERMINATED).

Definition kill_of (e : event) : option (Z * signal) :=
  match e with
  | EvKill target sig _ => Some (target, sig)
  | _ => None
  end.

(** The signals a piece of trace sends, in order. *)
Definition kills (evs : list event) : list (Z * signal) := omap kill_of evs.

(** A trace of [SIGTERM] requests in which every failed request is
    followed by its diagnostic. *)
Inductive exit_log : list event -> Prop :=
  | exit_log_nil : exit_log []
  | exit_log_sent target evs :
      exit_log evs -> exit_log (EvKill target SIGTERM 0 :: evs)
  | exit_log_failed target evs :
      exit_log evs ->
      exit_log (EvKill target SIGTERM (-1)
                :: EvPrint Stderr Exit_kill_failed :: evs).

(** The operations that change or read the state: the six commands, a
    pass of [scheduler], a run of [sigchld_handler] over the pids
    [waitpid] returns, and the periodic block of [main].  [step] and
    [run_operations] run every operation to its end before the next
    starts, so that the handler runs between operations only; the
    deliveries inside an operation, which the source allows, are the
    subject of the section on the asynchronous delivery of [SIGCHLD]
    below. *)
Inductive operation :=
  | OpRun (args : list string)
  | OpStop (v : Z)
  | OpResume (v : Z)
  | OpKill (v : Z)
  | OpList
  | OpExit
  | OpScheduler
  | OpReaper (results : list Z)
  | OpTick.

#[global] Instance operation_eq_dec : EqDecision operation.
Proof. solve_decision. Defined.

Definition step (E : environment) (o : operation) : M unit :=
  match o with
  | OpRun args => perform_run E args
  | OpStop v => perform_stop E v
  | OpResume v => perform_resume E v
  | OpKill v => perform_kill E v
  | OpList => perform_list
  | OpExit => perform_exit E
  | OpScheduler => scheduler E
  | OpReaper results => sigchld_handler E results
  | OpTick => tick E
  end.

Definition run_operations (E : environment) (ops : list operation)
    (w : world) : world :=
  foldl (fun w o => exec (step E o) w) w ops.

(** The state when [main] enters its loop. *)
Definition initial_world : world :=
  {| globals := initial_manager; trace := [] |}.

Definition at_most_one_running (g : manager) : Prop :=
  forall i j, in_table i -> in_table j ->
    status_at g i = RUNNING -> status_at g j = RUNNING -> i = j.

(** [running_process_index] is set exactly when some record is
    [RUNNING], and then it names that record. *)
Definition running_index_matches (g : manager) : Prop :=
  (0 <= running_process_index g <->
   exists i, in_table i /\ status_at g i = RUNNING) /\
  (forall i, in_table i -> status_at g i = RUNNING ->
     running_process_index g = i).

Definition one_running (g : manager) : Prop :=
  at_most_one_running g /\ running_index_matches g.

(** [run] has put the worker [v] into record [i]: the record holds the
    pid and is [READY] or [RUNNING], and no other record changed its
    pid. *)
Definition run_stores (w w' : world) (i v : Z) : Prop :=
  let tbl := process_records (globals w) in
  let tbl' := process_records (globals w') in
  pid (record_at tbl' i) = v /\
  (status (record_at tbl' i) = READY \/ status (record_at tbl' i) = RUNNING) /\
  forall j, in_table j -> j <> i -> pid (record_at tbl' j) = pid (record_at tbl j).

Definition live (s : process_status) : Prop := s = READY \/ s = RUNNING.

(** *** Scenarios *)

(** An environment in which no call fails, the clock stands still and
    [fork] returns pid [100]. *)
Definition quiet : environment :=
  {| kill_fails := fun _ _ _ => false;
     clock := fun _ => 0;
     fork_result := fun _ => 100 |}.

(** The selection on the runtimes [5, 2, 2, 8]: index [1]. *)
Definition sjf_example_table : list process_record :=
  [ {| pid := 11; status := READY; remaining_runtime := 5 |};
    {| pid := 12; status := READY; remaining_runtime := 2 |};
    {| pid := 13; status := READY; remaining_runtime := 2 |};
    {| pid := 14; status := READY; remaining_runtime := 8 |} ]
  ++ replicate 60 {| pid := 0; status := UNUSED; remaining_runtime := 0 |}.

(** A table whose records are all [TERMINATED]. *)
Definition all_terminated_world : world :=
  {| globals :=
       {| process_records :=
            replicate (Z.to_nat MAX_PROCESSES)
              {| pid := 7; status := TERMINATED; remaining_runtime := 0 |};
          running_process_index := -1;
          start_time := 0;
          elapsed_time := 0 |};
     trace := [] |}.

(** An environment in which the pid of a reaped worker comes back: the
    fork made when the trace holds [385] events returns [1030], the
    pid that the fork at [30] events returned. *)
Definition recycling : environment :=
  {| kill_fails := fun _ _ _ => false;
     clock := fun _ => 0;
     fork_result := fun n => if (n =? 385)%nat then 1030
                             else 1000 + Z.of_nat n |}.

(** Sixty-four workers fill the table, the workers of records [0] and
    [5] exit and are reaped, and one more [run] reuses record [0]. *)
Definition reuse_operations : list operation :=
  replicate 64 (OpRun ["run"; "./w"; "a"; "5"])
  ++ [OpReaper [1000; 1030]; OpRun ["run"; "./w"; "a"; "5"]].

(** [fork] fails. *)
Definition fork_fails : environment :=
  {| kill_fails := fun _ _ _ => false;
     clock := fun _ => 0;
     fork_result := fun _ => -1 |}.

(** Every signal sent once the trace holds six events fails. *)
Definition suspend_fails : environment :=
  {| kill_fails := fun n _ _ => bool_decide (6 <= n)%nat;
     clock := fun _ => 0;
     fork_result := fun _ => 100 |}.

(** The clock reads [0] for the first six events and [4] after. *)
Definition clock_jumps : environment :=
  {| kill_fails := fun _ _ _ => false;
     clock := fun n => if (n <? 6)%nat then 0 else 4;
     fork_result := fun _ => 100 |}.

(** Signals to pid [100] fail. *)
Definition term_fails : environment :=
  {| kill_fails := fun _ target _ => bool_decide (target = 100);
     clock := fun _ => 0;
     fork_result := fun _ => 100 |}.

(** Distinct pids; the clock reads [0] for the first twelve events and
    [4] after. *)
Definition late_clock : environment :=
  {| kill_fails := fun _ _ _ => false;
     clock := fun n => if (n <? 12)%nat then 0 else 4;
     fork_result := fun n => 100 + Z.of_nat n |}.

(** One worker with budget [5], running. *)
Definition one_worker : world :=
  exec (perform_run quiet ["run"; "./w"; "a"; "5"]) initial_world.

(** Worker [100] with budget [5] running, worker [106] with budget [9]
    ready. *)
Definition two_workers : world :=
  run_operations late_clock
    [OpRun ["run"; "./a"; "x"; "5"]; OpRun ["run"; "./b"; "x"; "9"]]
    initial_world.

Definition after_run_and_exit : world :=
  run_operations quiet [OpRun ["run"; "./w"; "a"; "5"]; OpExit] initial_world.

Definition after_run_INT_MAX : world :=
  exec (perform_run quiet ["run"; "./w"; "a"; "2147483647"]) initial_world.

Definition after_run_five_tokens : world :=
  exec (perform_run quiet ["run"; "./w"; "a"; "3"; "9"]) initial_world.

Definition reuse_world : world :=
  run_operations recycling reuse_operations initial_world.

Definition exit_free_operations : list operation :=
  [OpRun ["run"; "./w"; "a"; "5"]; OpStop 100; OpResume 100;
   OpReaper [100]; OpTick].

(** *** Words *)

Fixpoint all_chars (test : ascii -> bool) (s : string) : bool :=
  match s with
  | String c rest => test c && all_chars test rest
  | EmptyString => true
  end.

(** A character that neither separates tokens nor ends the line. *)
Definition word_char (c : ascii) : bool :=
  negb (is_delimiter c) && negb (ends_line c).

(** A non-empty string of such characters. *)
Definition is_word (t : string) : bool :=
  negb (String.eqb t "") && all_chars word_char t.

(** What may follow the words in the buffer: nothing, or a character
    that ends the line and anything behind it. *)
Definition line_end (tail : string) : bool :=
  match tail with
  | String c _ => ends_line c
  | EmptyString => true
  end.

(** The line [get_input] tokenizes when the buffer holds the words
    [ts] with one space between them: every word with a space behind
    it. *)
Fixpoint spaced (ts : list string) : string :=
  match ts with
  | [] => EmptyString
  | t :: rest => (t ++ " " ++ spaced rest)%string
  end.

(** The line [perform_list] prints for a record. *)
Definition list_line (p : process_record) : event :=
  EvPrint Stdout (List_entry (pid p) (status_code (status p))).

Definition is_listed (p : process_record) : bool :=
  bool_decide (status p <> UNUSED).

Definition is_time (e : event) : bool :=
  match e with
  | EvTime _ => true
  | _ => false
  end.

(** The first part of [scheduler] with a running record whose
    [SIGSTOP] succeeds: the world its second part starts from. *)
Definition demoted (E : environment) (w : world) : world :=
  let i := running_process_index (globals w) in
  let target := pid (record_at (process_records (globals w)) i) in
  {| globals :=
       set_running_process_index (-1)
         (update_record i (set_status READY)
            (fold_elapsed i (clock E (S (length (trace w)))) (globals w)));
     trace := trace w ++ [EvKill target SIGSTOP 0;
                          EvTime (clock E (S (length (trace w))))] |}.


(** The three stores of [perform_run] into record [i]. *)
Definition store_worker (i v budget : Z) (g : manager) : manager :=
  update_record i (set_remaining_runtime budget)
    (update_record i (set_status READY)
       (update_record i (set_pid v) g)).

(** The first character may begin a number for [atoi]: white space,
    a sign or a digit. *)
Definition starts_numeric (s : string) : bool :=
  match s with
  | String c _ =>
      isspace c
      || (Z.of_nat (nat_of_ascii c) =? 43) || (Z.of_nat (nat_of_ascii c) =? 45)
      || bool_decide (is_Some (digit_value c))
  | EmptyString => false
  end.

(** ** Asynchronous delivery of [SIGCHLD] *)

(** [setup_signal_handlers] installs [sigchld_handler] with an empty
    mask, and the manager never blocks [SIGCHLD]: the handler can run
    between any two statements of a command, of the scheduler and of
    the periodic block of [main].  The functions below are the same
    source functions written statement by statement, each global read
    where its statement reads it, with a point of delivery in front of
    every statement that reads or writes a global or calls the system.

    A [schedule] gives, for the statement at a source line (inside a
    loop: at a source line and a value of [i]), the runs of the handler
    delivered just before it, each run by the pids its calls of
    [waitpid] return.  [SIGCHLD] is blocked while its own handler runs,
    so a run of the handler is one step.  Where a test and the address
    computation behind it read [running_process_index] (lines 175-176
    and 517-518) the two lines are one statement. *)
Definition schedule : Type := Z -> Z -> list (list Z).

Section Preemption.

Variable E : environment.
Variable D : schedule.

Definition interrupt (line i : Z) : M unit :=
  fun w => (tt, foldl (fun w results => exec (sigchld_handler E results) w) w (D line i)).

(** The accounting block whose first statement is at [line], with
    [p = &process_records[i]]. *)
Definition account_async (line i : Z) : M unit :=
  interrupt line 0 ;;
  current_time <- sys_time E ;;
  interrupt (line + 1) 0 ;;
  modify (fun g => set_elapsed_time (current_time - start_time g) g) ;;
  interrupt (line + 2) 0 ;;
  g <- get ;;
  if 0 <? elapsed_time g then
    interrupt (line + 3) 0 ;;
    modify (fun g =>
              update_record i
                (fun p => set_remaining_runtime
                            (int_of_long (remaining_runtime p - elapsed_time g)) p)
                g) ;;
    interrupt (line + 4) 0 ;;
    modify (set_start_time current_time)
  else ret tt.

(** The search loops, the test of [process_records[i]] being the
    statement at [line]. *)
Fixpoint first_index_async (line : Z) (n : nat) (i : Z)
    (test : process_record -> bool) : M Z :=
  match n with
  | O => ret (-1)
  | S n' =>
      interrupt line i ;;
      g <- get ;;
      if test (record_at (process_records g) i) then ret i
      else first_index_async line n' (i + 1) test
  end.

Definition find_pid_async (line v : Z) : M Z :=
  first_index_async line (Z.to_nat MAX_PROCESSES) 0 (has_pid v).

Definition allocate_index_async : M Z :=
  index <- first_index_async 62 (Z.to_nat MAX_PROCESSES) 0 (has_status UNUSED) ;;
  if index <? 0
  then first_index_async 72 (Z.to_nat MAX_PROCESSES) 0 (has_status TERMINATED)
  else ret index.

Fixpoint min_runtime_loop_async (n : nat) (i : Z) (min_index min_runtime : Z)
    : M Z :=
  match n with
  | O => ret min_index
  | S n' =>
      interrupt 85 i ;;
      g <- get ;;
      if has_status READY (record_at (process_records g) i) then
        interrupt 86 i ;;
        g <- get ;;
        if remaining_runtime (record_at (process_records g) i) <? min_runtime then
          interrupt 87 i ;;
          g <- get ;;
          min_runtime_loop_async n' (i + 1) i
            (remaining_runtime (record_at (process_records g) i))
        else min_runtime_loop_async n' (i + 1) min_index min_runtime
      else min_runtime_loop_async n' (i + 1) min_index min_runtime
  end.

Definition find_min_runtime_process_async : M Z :=
  min_runtime_loop_async (Z.to_nat MAX_PROCESSES) 0 (-1) INT_MAX.

Definition dispatch_async : M unit :=
  min_index <- find_min_runtime_process_async ;;
  if min_index <? 0 then ret tt
  else
    interrupt 202 0 ;;
    modify (update_record min_index (set_status RUNNING)) ;;
    interrupt 203 0 ;;
    modify (set_running_process_index min_index) ;;
    interrupt 204 0 ;;
    g <- get ;;
    kill_check <- sys_kill E (pid (record_at (process_records g) min_index)) SIGCONT ;;
    if kill_check =? -1 then print Stderr Scheduler_second_kill_failed
    else
      interrupt 211 0 ;;
      now <- sys_time E ;;
      modify (set_start_time now).

Definition scheduler_async : M unit :=
  interrupt 175 0 ;;
  g <- get ;;
  if 0 <=? running_process_index g then
    let i := running_process_index g in
    interrupt 177 0 ;;
    g <- get ;;
    kill_check <- sys_kill E (pid (record_at (process_records g) i)) SIGSTOP ;;
    if kill_check =? -1 then print Stderr Scheduler_first_kill_failed
    else
      account_async 183 i ;;
      interrupt 189 0 ;;
      modify (update_record i (set_status READY)) ;;
      interrupt 191 0 ;;
      modify (set_running_process_index (-1)) ;;
      dispatch_async
  else dispatch_async.

(** [p->pid] at line 273 is the [pid] stored at line 262; the handler
    writes no [pid]. *)
Definition perform_run_async (args : list string) : M unit :=
  match arg args 1, arg args 2, arg args 3 with
  | Some _, Some _, Some a3 =>
      if atoi a3 <=? 0 then print Stderr Run_invalid_runtime
      else
        index <- allocate_index_async ;;
        if index <? 0 then print Stderr Run_max_processes
        else
          interrupt 247 0 ;;
          v <- sys_fork E ;;
          if v <? 0 then print Stderr Run_fork_failed
          else if v =? 0 then emit (EvExec (drop 1 args))
          else
            interrupt 262 0 ;;
            modify (update_record index (set_pid v)) ;;
            interrupt 264 0 ;;
            modify (update_record index (set_status READY)) ;;
            interrupt 265 0 ;;
            modify (update_record index (set_remaining_runtime (atoi a3))) ;;
            interrupt 267 0 ;;
            g <- get ;;
            if running_process_index g <? 0 then
              interrupt 268 0 ;;
              now <- sys_time E ;;
              modify (set_start_time now) ;;
              interrupt 269 0 ;;
              modify (update_record index (set_status RUNNING)) ;;
              interrupt 270 0 ;;
              modify (set_running_process_index index) ;;
              scheduler_async
            else
              interrupt 273 0 ;;
              kill_check <- sys_kill E v SIGSTOP ;;
              if kill_check =? -1 then print Stderr Run_kill_failed
              else scheduler_async
  | _, _, _ => print Stderr Run_invalid_arguments
  end.

Fixpoint list_loop_async (n : nat) (i : Z) (found : bool) : M bool :=
  match n with
  | O => ret found
  | S n' =>
      interrupt 288 i ;;
      g <- get ;;
      if bool_decide (status (record_at (process_records g) i) <> UNUSED) then
        interrupt 290 i ;;
        g <- get ;;
        let p := record_at (process_records g) i in
        print Stdout (List_entry (pid p) (status_code (status p))) ;;
        list_loop_async n' (i + 1) true
      else list_loop_async n' (i + 1) found
  end.

Definition perform_list_async : M unit :=
  found <- list_loop_async (Z.to_nat MAX_PROCESSES) 0 false ;;
  if found then ret tt else print Stdout List_no_processes.

Definition perform_stop_async (v : Z) : M unit :=
  if v <=? 0 then print Stdout Pid_not_positive
  else
    i <- find_pid_async 307 v ;;
    if i <? 0 then print Stdout (Process_not_found v)
    else
      interrupt 308 0 ;;
      g <- get ;;
      let p := record_at (process_records g) i in
      if bool_decide (status p = RUNNING) || bool_decide (status p = READY) then
        interrupt 309 0 ;;
        g <- get ;;
        kill_check <- sys_kill E (pid (record_at (process_records g) i)) SIGSTOP ;;
        if kill_check =? -1 then print Stderr Stop_kill_failed
        else
          interrupt 315 0 ;;
          modify (update_record i (set_status STOPPED)) ;;
          interrupt 317 0 ;;
          g <- get ;;
          if i =? running_process_index g then
            account_async 319 i ;;
            interrupt 326 0 ;;
            modify (set_running_process_index (-1)) ;;
            scheduler_async
          else ret tt
      else print Stdout (Stop_not_running v).

Definition perform_resume_async (v : Z) : M unit :=
  if v <=? 0 then print Stdout Pid_not_positive
  else
    i <- find_pid_async 350 v ;;
    if i <? 0 then print Stdout (Process_not_found v)
    else
      interrupt 351 0 ;;
      g <- get ;;
      if bool_decide (status (record_at (process_records g) i) = STOPPED) then
        interrupt 353 0 ;;
        modify (update_record i (set_status READY)) ;;
        scheduler_async
      else print Stdout (Resume_not_stopped v).

Definition perform_kill_async (v : Z) : M unit :=
  if v <=? 0 then print Stdout Pid_not_positive
  else
    i <- find_pid_async 376 v ;;
    if i <? 0 then print Stdout (Process_not_found v)
    else
      interrupt 377 0 ;;
      g <- get ;;
      if bool_decide (status (record_at (process_records g) i) <> TERMINATED) then
        interrupt 378 0 ;;
        g <- get ;;
        kill_check <- sys_kill E (pid (record_at (process_records g) i)) SIGTERM ;;
        if kill_check =? -1 then print Stderr Kill_kill_failed
        else
          interrupt 384 0 ;;
          modify (update_record i (set_status TERMINATED)) ;;
          account_async 386 i ;;
          interrupt 392 0 ;;
          g <- get ;;
          if i =? running_process_index g then
            interrupt 394 0 ;;
            modify (set_running_process_index (-1)) ;;
            scheduler_async
          else ret tt
      else print Stdout (Kill_already_terminated v).

Fixpoint exit_loop_async (n : nat) (i : Z) : M unit :=
  match n with
  | O => ret tt
  | S n' =>
      interrupt 412 i ;;
      g <- get ;;
      let p := record_at (process_records g) i in
      if bool_decide (status p <> UNUSED) && bool_decide (status p <> TERMINATED)
      then
        interrupt 413 i ;;
        g <- get ;;
        kill_check <- sys_kill E (pid (record_at (process_records g) i)) SIGTERM ;;
        (if kill_check =? -1 then print Stderr Exit_kill_failed else ret tt) ;;
        interrupt 418 i ;;
        modify (update_record i (set_status TERMINATED)) ;;
        exit_loop_async n' (i + 1)
      else exit_loop_async n' (i + 1)
  end.

Definition perform_exit_async : M unit :=
  exit_loop_async (Z.to_nat MAX_PROCESSES) 0 ;;
  print Stdout Exit_message.

Definition tick_async : M unit :=
  interrupt 517 0 ;;
  g <- get ;;
  if 0 <=? running_process_index g
  then account_async 519 (running_process_index g)
  else scheduler_async.

(** An operation under the schedule [D]; a reaper pass is a run of the
    handler between two operations. *)
Definition step_async (o : operation) : M unit :=
  match o with
  | OpRun args => perform_run_async args
  | OpStop v => perform_stop_async v
  | OpResume v => perform_resume_async v
  | OpKill v => perform_kill_async v
  | OpList => perform_list_async
  | OpExit => perform_exit_async
  | OpScheduler => scheduler_async
  | OpReaper results => sigchld_handler E results
  | OpTick => tick_async
  end.

End Preemption.

Arguments interrupt : simpl never.
Arguments find_pid_async : simpl never.
Arguments allocate_index_async : simpl never.
Arguments find_min_runtime_process_async : simpl never.

(** No run of the handler is delivered inside the operation. *)
Definition undisturbed (D : schedule) : Prop := forall line i, D line i = [].

(** Operations, each with the schedule of the deliveries inside it. *)
Definition run_preemptible (E : environment)
    (ops : list (operation * schedule)) (w : world) : world :=
  foldl (fun w o => exec (step_async E o.2 o.1) w) w ops.

(** One run of the handler, reaping [results], before the statement at
    [line]. *)
Definition delivery_before (line : Z) (results : list Z) : schedule :=
  fun l i => if (l =? line) && (i =? 0) then [results] else [].

Definition nothing_delivered : schedule := fun _ _ => [].

(** [run ./w a 5] on the empty table; the worker exits at once and the
    handler reaps it between lines 269 and 270.  The worker being gone,
    signals to its pid fail. *)
Definition preempted_run : world :=
  exec (perform_run_async term_fails (delivery_before 270 [100])
          ["run"; "./w"; "a"; "5"])
    initial_world.

(** The operations of [exit_free_operations], none of them
    interrupted. *)
Definition undisturbed_operations : list (operation * schedule) :=
  (fun o => (o, nothing_delivered)) <$> exit_free_operations.

(** ** Reading and writing the table *)

Section TableLemmas.

Implicit Types (g : manager) (tbl : list process_record) (i j : Z).

Lemma record_at_alter_eq tbl f i :
  0 <= i < Z.of_nat (length tbl) ->
  record_at (alter f (Z.to_nat i) tbl) i = f (record_at tbl i).
Proof.
  intros Hi. unfold record_at. rewrite list_lookup_alter_eq.
  destruct (tbl !! Z.to_nat i) eqn:Hl; [reflexivity|].
  apply lookup_ge_None in Hl. lia.
Qed.

Lemma record_at_alter_ne tbl f i j :
  0 <= i -> 0 <= j -> i <> j ->
  record_at (alter f (Z.to_nat i) tbl) j = record_at tbl j.
Proof.
  intros Hi Hj Hne. unfold record_at.
  rewrite list_lookup_alter_ne by lia. reflexivity.
Qed.

Lemma record_at_update_eq g f i :
  full_size g -> in_table i ->
  record_at (process_records (update_record i f g)) i
  = f (record_at (process_records g) i).
Proof.
  unfold full_size, in_table, MAX_PROCESSES. intros Hl Hi.
  apply record_at_alter_eq. lia.
Qed.

Lemma record_at_update_ne g f i j :
  0 <= i -> 0 <= j -> i <> j ->
  record_at (process_records (update_record i f g)) j
  = record_at (process_records g) j.
Proof. apply record_at_alter_ne. Qed.

Lemma full_size_update g f i : full_size g -> full_size (update_record i f g).
Proof. unfold full_size, update_record. simpl. by rewrite length_alter. Qed.

Lemma full_size_fold_elapsed g i t : full_size g -> full_size (fold_elapsed i t g).
Proof.
  unfold fold_elapsed. intros H.
  destruct (0 <? _); [|exact H]. by apply full_size_update.
Qed.

Lemma status_at_update_eq g f i :
  full_size g -> in_table i ->
  status_at (update_record i f g) i = status (f (record_at (process_records g) i)).
Proof. intros. unfold status_at. by rewrite record_at_update_eq. Qed.

Lemma status_at_update_ne g f i j :
  0 <= i -> 0 <= j -> i <> j ->
  status_at (update_record i f g) j = status_at g j.
Proof. intros. unfold status_at. by rewrite record_at_update_ne. Qed.

(** A write that keeps the status field keeps every status. *)
Lemma status_at_update_same g f i j :
  (forall p, status (f p) = status p) -> 0 <= j ->
  status_at (update_record i f g) j = status_at g j.
Proof.
  intros Hf Hj. unfold status_at, update_record, record_at. simpl.
  destruct (decide (Z.to_nat i = Z.to_nat j)) as [e|n].
  - rewrite e, list_lookup_alter_eq.
    destruct (process_records g !! Z.to_nat j); simpl; [apply Hf|reflexivity].
  - by rewrite list_lookup_alter_ne.
Qed.

Lemma status_at_fold_elapsed g i t j :
  0 <= j -> status_at (fold_elapsed i t g) j = status_at g j.
Proof.
  intros Hj. unfold fold_elapsed. destruct (0 <? _); [|reflexivity].
  change (status_at (set_start_time t ?x) j) with (status_at x j).
  rewrite status_at_update_same; [reflexivity| |exact Hj].
  intros p; reflexivity.
Qed.

Lemma running_index_fold_elapsed g i t :
  running_process_index (fold_elapsed i t g) = running_process_index g.
Proof. unfold fold_elapsed. by destruct (0 <? _). Qed.

(** *** The index searches *)

Lemma first_index_spec n from test tbl :
  0 <= from ->
  let r := first_index n from test tbl in
  (r = -1 /\
   forall j, from <= j < from + Z.of_nat n -> test (record_at tbl j) = false)
  \/
  (from <= r < from + Z.of_nat n /\ test (record_at tbl r) = true /\
   forall j, from <= j < r -> test (record_at tbl j) = false).
Proof.
  revert from. induction n as [|n IH]; intros from Hfrom; simpl.
  - left. split; [reflexivity|]. intros j Hj. lia.
  - destruct (test (record_at tbl from)) eqn:Ht.
    + right. split; [lia|]. split; [exact Ht|]. intros j Hj. lia.
    + destruct (IH (from + 1)) as [[Hr Hall]|[Hr [Hrt Hall]]]; [lia| |].
      * left. split; [exact Hr|]. intros j Hj.
        destruct (decide (j = from)) as [->|]; [exact Ht|]. apply Hall. lia.
      * right. split; [lia|]. split; [exact Hrt|]. intros j Hj.
        destruct (decide (j = from)) as [->|]; [exact Ht|]. apply Hall. lia.
Qed.

Lemma first_index_found test tbl r :
  first_index (Z.to_nat MAX_PROCESSES) 0 test tbl = r -> 0 <= r ->
  in_table r /\ test (record_at tbl r) = true /\
  forall j, 0 <= j < r -> test (record_at tbl j) = false.
Proof.
  intros Hr Hpos.
  destruct (first_index_spec (Z.to_nat MAX_PROCESSES) 0 test tbl) as [[H1 _]|H];
    [lia| |]; rewrite Hr in *.
  - lia.
  - unfold in_table. rewrite Z2Nat.id in H by (unfold MAX_PROCESSES; lia).
    destruct H as (?&?&?). repeat split; auto; lia.
Qed.

Lemma first_index_none test tbl :
  first_index (Z.to_nat MAX_PROCESSES) 0 test tbl < 0 ->
  forall j, in_table j -> test (record_at tbl j) = false.
Proof.
  intros Hr.
  destruct (first_index_spec (Z.to_nat MAX_PROCESSES) 0 test tbl) as [[_ H]|H];
    [lia| |].
  - intros j Hj. apply H. unfold in_table in Hj.
    rewrite Z2Nat.id by (unfold MAX_PROCESSES; lia). lia.
  - lia.
Qed.

(** *** The minimum search *)

Lemma min_runtime_loop_spec n i mi mr tbl :
  let r := min_runtime_loop n i mi mr tbl in
  (r = mi /\
   forall j, i <= j < i + Z.of_nat n -> ready_at tbl j ->
             mr <= remaining_runtime (record_at tbl j))
  \/
  (i <= r < i + Z.of_nat n /\ ready_at tbl r /\
   remaining_runtime (record_at tbl r) < mr /\
   (forall j, i <= j < i + Z.of_nat n -> ready_at tbl j ->
      remaining_runtime (record_at tbl r) <= remaining_runtime (record_at tbl j)) /\
   (forall j, i <= j < r -> ready_at tbl j ->
      remaining_runtime (record_at tbl r) < remaining_runtime (record_at tbl j))).
Proof.
  revert i mi mr. induction n as [|n IH]; intros i mi mr; simpl.
  - left. split; [reflexivity|]. intros j Hj. lia.
  - unfold has_status.
    destruct (bool_decide (status (record_at tbl i) = READY)) eqn:Hs.
    + apply bool_decide_eq_true in Hs.
      destruct (remaining_runtime (record_at tbl i) <? mr) eqn:Hlt.
      * apply Z.ltb_lt in Hlt.
        destruct (IH (i + 1) i (remaining_runtime (record_at tbl i)))
          as [[Hr Hall]|(Hr & Hrd & Hrlt & Hmin & Hfirst)].
        -- right. rewrite Hr. split; [lia|]. split; [exact Hs|].
           split; [exact Hlt|]. split.
           ++ intros j Hj Hjr. destruct (decide (j = i)) as [->|]; [lia|].
              apply Hall; [lia|exact Hjr].
           ++ intros j Hj. lia.
        -- right. split; [lia|]. split; [exact Hrd|]. split; [lia|]. split.
           ++ intros j Hj Hjr. destruct (decide (j = i)) as [->|]; [lia|].
              apply Hmin; [lia|exact Hjr].
           ++ intros j Hj Hjr. destruct (decide (j = i)) as [->|]; [lia|].
              apply Hfirst; [lia|exact Hjr].
      * apply Z.ltb_ge in Hlt.
        destruct (IH (i + 1) mi mr)
          as [[Hr Hall]|(Hr & Hrd & Hrlt & Hmin & Hfirst)].
        -- left. split; [exact Hr|]. intros j Hj Hjr.
           destruct (decide (j = i)) as [->|]; [lia|]. apply Hall; [lia|exact Hjr].
        -- right. split; [lia|]. split; [exact Hrd|]. split; [exact Hrlt|]. split.
           ++ intros j Hj Hjr. destruct (decide (j = i)) as [->|]; [lia|].
              apply Hmin; [lia|exact Hjr].
           ++ intros j Hj Hjr. destruct (decide (j = i)) as [->|]; [lia|].
              apply Hfirst; [lia|exact Hjr].
    + apply bool_decide_eq_false in Hs.
      destruct (IH (i + 1) mi mr)
        as [[Hr Hall]|(Hr & Hrd & Hrlt & Hmin & Hfirst)].
      * left. split; [exact Hr|]. intros j Hj Hjr.
        destruct (decide (j = i)) as [->|]; [done|]. apply Hall; [lia|exact Hjr].
      * right. split; [lia|]. split; [exact Hrd|]. split; [exact Hrlt|]. split.
        -- intros j Hj Hjr. destruct (decide (j = i)) as [->|]; [done|].
           apply Hmin; [lia|exact Hjr].
        -- intros j Hj Hjr. destruct (decide (j = i)) as [->|]; [done|].
           apply Hfirst; [lia|exact Hjr].
Qed.

(** What [find_min_runtime_process] returns: no index when every
    [READY] record has at least [INT_MAX] left; otherwise the first
    [READY] record of least remaining runtime. *)
Lemma find_min_runtime_process_spec tbl :
  let r := find_min_runtime_process tbl in
  (r = -1 /\
   forall j, in_table j -> ready_at tbl j ->
             INT_MAX <= remaining_runtime (record_at tbl j))
  \/
  (in_table r /\ ready_at tbl r /\
   remaining_runtime (record_at tbl r) < INT_MAX /\
   (forall j, in_table j -> ready_at tbl j ->
      remaining_runtime (record_at tbl r) <= remaining_runtime (record_at tbl j)) /\
   (forall j, 0 <= j < r -> ready_at tbl j ->
      remaining_runtime (record_at tbl r) < remaining_runtime (record_at tbl j))).
Proof.
  unfold find_min_runtime_process, in_table.
  pose proof (min_runtime_loop_spec (Z.to_nat MAX_PROCESSES) 0 (-1) INT_MAX tbl) as H.
  rewrite Z2Nat.id in H by (unfold MAX_PROCESSES; lia).
  change (0 + MAX_PROCESSES) with MAX_PROCESSES in H. exact H.
Qed.

End TableLemmas.

(** ** The invariant of the table *)

Section InvariantLemmas.

Implicit Types (g : manager) (i j : Z).

Lemma full_size_set_running g v :
  full_size g -> full_size (set_running_process_index v g).
Proof. exact id. Qed.

Lemma full_size_set_start g v : full_size g -> full_size (set_start_time v g).
Proof. exact id. Qed.

Lemma status_at_set_running g v j :
  status_at (set_running_process_index v g) j = status_at g j.
Proof. reflexivity. Qed.

Lemma status_at_set_start g v j :
  status_at (set_start_time v g) j = status_at g j.
Proof. reflexivity. Qed.

Lemma status_at_set_status g s i j :
  full_size g -> in_table i -> 0 <= j ->
  status_at (update_record i (set_status s) g) j
  = if decide (j = i) then s else status_at g j.
Proof.
  intros Hl Hi Hj. destruct (decide (j = i)) as [->|Hne].
  - by rewrite status_at_update_eq.
  - rewrite status_at_update_ne; [reflexivity| |exact Hj|congruence].
    unfold in_table in Hi. lia.
Qed.

Lemma running_index_update g f i :
  running_process_index (update_record i f g) = running_process_index g.
Proof. reflexivity. Qed.

Lemma running_index_set_start g v :
  running_process_index (set_start_time v g) = running_process_index g.
Proof. reflexivity. Qed.

Lemma running_index_set_running g v :
  running_process_index (set_running_process_index v g) = v.
Proof. reflexivity. Qed.

Lemma table_inv_full_size g : table_inv g -> full_size g.
Proof. by intros [? _]. Qed.

Lemma table_inv_running_in_table g :
  table_inv g -> 0 <= running_process_index g ->
  in_table (running_process_index g).
Proof. intros (_ & Hr & _) Hpos. unfold in_table. lia. Qed.

Lemma table_inv_idle g :
  table_inv g -> running_process_index g < 0 -> running_process_index g = -1.
Proof. intros (_ & Hr & _) Hneg. lia. Qed.

Lemma table_inv_not_running g i :
  table_inv g -> in_table i -> status_at g i <> RUNNING ->
  i <> running_process_index g.
Proof. intros (_ & _ & Hs) Hi Hn Heq. apply Hn. by apply Hs. Qed.

(** Writes that keep every status keep the invariant. *)
Lemma table_inv_update_same g f i :
  (forall p, status (f p) = status p) ->
  table_inv g -> table_inv (update_record i f g).
Proof.
  intros Hf (Hl & Hr & Hs). split; [by apply full_size_update|].
  split; [exact Hr|]. intros j Hj.
  rewrite status_at_update_same; [by apply Hs|exact Hf|]. unfold in_table in Hj. lia.
Qed.

Lemma table_inv_set_start g v : table_inv g -> table_inv (set_start_time v g).
Proof. exact id. Qed.

Lemma table_inv_fold_elapsed g i t :
  table_inv g -> table_inv (fold_elapsed i t g).
Proof.
  intros (Hl & Hr & Hs). split; [by apply full_size_fold_elapsed|].
  rewrite running_index_fold_elapsed. split; [exact Hr|]. intros j Hj.
  rewrite status_at_fold_elapsed; [by apply Hs|]. unfold in_table in Hj. lia.
Qed.

(** A record that is not the running one changes to a status other than
    [RUNNING]. *)
Lemma table_inv_set_status_other g s i :
  table_inv g -> in_table i -> i <> running_process_index g -> s <> RUNNING ->
  table_inv (update_record i (set_status s) g).
Proof.
  intros (Hl & Hr & Hs) Hi Hne Hsn. split; [by apply full_size_update|].
  split; [exact Hr|]. intros j Hj. rewrite running_index_update.
  rewrite status_at_set_status; [|exact Hl|exact Hi|unfold in_table in Hj; lia].
  destruct (decide (j = i)) as [->|]; [|by apply Hs].
  split; [done|]. intros; congruence.
Qed.

(** The running record leaves [RUNNING] and the index is cleared, with
    the accounting in between or not. *)
Lemma table_inv_clear_running g i s (h : manager -> manager) :
  (forall g', full_size g' -> full_size (h g')) ->
  (forall g' j, 0 <= j -> status_at (h g') j = status_at g' j) ->
  table_inv g -> i = running_process_index g -> 0 <= i -> s <> RUNNING ->
  table_inv (set_running_process_index (-1)
               (h (update_record i (set_status s) g))).
Proof.
  intros Hhl Hhs Hinv -> Hpos Hsn.
  pose proof (table_inv_running_in_table g Hinv Hpos) as Hi.
  destruct Hinv as (Hl & Hr & Hs).
  split; [by apply full_size_set_running, Hhl, full_size_update|].
  rewrite running_index_set_running. split; [unfold MAX_PROCESSES; lia|].
  intros j Hj. rewrite status_at_set_running, Hhs by (unfold in_table in Hj; lia).
  rewrite status_at_set_status; [|exact Hl|exact Hi|unfold in_table in Hj; lia].
  destruct (decide (j = running_process_index g)) as [->|Hne].
  - split; [done|]. unfold in_table in Hj. lia.
  - split; [|unfold in_table in Hj; lia]. intros Hrun. apply Hs in Hrun; done.
Qed.

(** With no running record, record [i] becomes the running one. *)
Lemma table_inv_start g i (h : manager -> manager) :
  (forall g', full_size g' -> full_size (h g')) ->
  (forall g' j, 0 <= j -> status_at (h g') j = status_at g' j) ->
  table_inv g -> running_process_index g < 0 -> in_table i ->
  table_inv (set_running_process_index i
               (h (update_record i (set_status RUNNING) g))).
Proof.
  intros Hhl Hhs (Hl & Hr & Hs) Hneg Hi.
  split; [by apply full_size_set_running, Hhl, full_size_update|].
  rewrite running_index_set_running.
  split; [unfold in_table in Hi; lia|].
  intros j Hj. rewrite status_at_set_running, Hhs by (unfold in_table in Hj; lia).
  rewrite status_at_set_status; [|exact Hl|exact Hi|unfold in_table in Hj; lia].
  destruct (decide (j = i)) as [->|Hne]; [done|].
  split; [|done]. intros Hrun. apply Hs in Hrun; [|exact Hj].
  unfold in_table in Hj. lia.
Qed.

End InvariantLemmas.

(** ** Preservation of the invariant *)

(** Unfolds the monad's primitives so that a handler runs on a world. *)
Ltac mrun :=
  unfold exec, bind, get, modify, emit, print, ret, sys_kill, sys_time,
    sys_fork, account; simpl.

Section Preservation.

Variable E : environment.
Implicit Types (w : world) (v : Z).

Lemma dispatch_inv w :
  table_inv (globals w) -> running_process_index (globals w) < 0 ->
  table_inv (globals (dispatch E w).2).
Proof.
  intros Hinv Hneg. unfold dispatch. mrun.
  pose proof (find_min_runtime_process_spec (process_records (globals w))) as Hm.
  cbv zeta in Hm.
  destruct (find_min_runtime_process (process_records (globals w)) <? 0) eqn:Hlt;
    simpl; [exact Hinv|].
  apply Z.ltb_ge in Hlt. destruct Hm as [[Hm _]|(Hi & _)]; [lia|].
  destruct (kill_fails E _ _ _); simpl.
  - by apply (table_inv_start _ _ id).
  - apply table_inv_set_start. by apply (table_inv_start _ _ id).
Qed.

Lemma scheduler_inv w :
  table_inv (globals w) -> table_inv (globals (scheduler E w).2).
Proof.
  intros Hinv. unfold scheduler. mrun.
  destruct (0 <=? running_process_index (globals w)) eqn:Hri.
  - apply Z.leb_le in Hri. destruct (kill_fails E _ _ _); simpl; [exact Hinv|].
    apply dispatch_inv; simpl; [|lia].
    apply (table_inv_clear_running _ _ _ id); try done.
    + by apply table_inv_fold_elapsed.
    + by rewrite running_index_fold_elapsed.
  - apply Z.leb_gt in Hri. by apply dispatch_inv.
Qed.

Lemma reap_inv v w :
  table_inv (globals w) -> table_inv (globals (reap E v w).2).
Proof.
  intros Hinv. unfold reap. mrun.
  destruct (find_pid v (process_records (globals w)) <? 0) eqn:Hlt; [exact Hinv|].
  apply Z.ltb_ge in Hlt.
  destruct (first_index_found _ _ _ eq_refl Hlt) as (Hi & _).
  fold (find_pid v (process_records (globals w))) in Hi.
  destruct (find_pid v (process_records (globals w)) =? running_process_index (globals w)) eqn:Heq; simpl.
  - apply Z.eqb_eq in Heq.
    apply (table_inv_clear_running _ _ _ (fold_elapsed _ _)); try done.
    + intros. by apply full_size_fold_elapsed.
    + intros. by apply status_at_fold_elapsed.
  - apply Z.eqb_neq in Heq. by apply table_inv_set_status_other.
Qed.

Lemma sigchld_handler_inv results w :
  table_inv (globals w) -> table_inv (globals (sigchld_handler E results w).2).
Proof.
  revert w. induction results as [|v rest IH]; intros w Hinv; simpl; [exact Hinv|].
  destruct (0 <? v); [|exact Hinv]. unfold bind.
  pose proof (reap_inv v w Hinv) as Hr. destruct (reap E v w) as [[] w'].
  by apply IH.
Qed.

Lemma perform_stop_inv v w :
  table_inv (globals w) -> table_inv (globals (perform_stop E v w).2).
Proof.
  intros Hinv. unfold perform_stop. mrun.
  destruct (v <=? 0); [exact Hinv|].
  destruct (find_pid v (process_records (globals w)) <? 0) eqn:Hlt; [exact Hinv|].
  apply Z.ltb_ge in Hlt.
  destruct (first_index_found _ _ _ eq_refl Hlt) as (Hi & _).
  fold (find_pid v (process_records (globals w))) in Hi.
  destruct (_ || _); [|exact Hinv].
  destruct (kill_fails E _ _ _); simpl; [exact Hinv|].
  destruct (find_pid v (process_records (globals w)) =? running_process_index (globals w)) eqn:Heq; simpl.
  - apply Z.eqb_eq in Heq. apply scheduler_inv. simpl.
    apply (table_inv_clear_running _ _ _ (fold_elapsed _ _)); try done.
    + intros. by apply full_size_fold_elapsed.
    + intros. by apply status_at_fold_elapsed.
  - apply Z.eqb_neq in Heq. by apply table_inv_set_status_other.
Qed.

Lemma perform_resume_inv v w :
  table_inv (globals w) -> table_inv (globals (perform_resume E v w).2).
Proof.
  intros Hinv. unfold perform_resume. mrun.
  destruct (v <=? 0); [exact Hinv|].
  destruct (find_pid v (process_records (globals w)) <? 0) eqn:Hlt; [exact Hinv|].
  apply Z.ltb_ge in Hlt.
  destruct (first_index_found _ _ _ eq_refl Hlt) as (Hi & _).
  fold (find_pid v (process_records (globals w))) in Hi.
  destruct (bool_decide _) eqn:Hst; [|exact Hinv].
  apply bool_decide_eq_true in Hst.
  apply scheduler_inv. simpl.
  apply table_inv_set_status_other; try done.
  apply table_inv_not_running; try done. unfold status_at. by rewrite Hst.
Qed.

Lemma perform_kill_inv v w :
  table_inv (globals w) -> table_inv (globals (perform_kill E v w).2).
Proof.
  intros Hinv. unfold perform_kill. mrun.
  destruct (v <=? 0); [exact Hinv|].
  destruct (find_pid v (process_records (globals w)) <? 0) eqn:Hlt; [exact Hinv|].
  apply Z.ltb_ge in Hlt.
  destruct (first_index_found _ _ _ eq_refl Hlt) as (Hi & _).
  fold (find_pid v (process_records (globals w))) in Hi.
  destruct (bool_decide _); [|exact Hinv].
  destruct (kill_fails E _ _ _); simpl; [exact Hinv|].
  destruct (find_pid v (process_records (globals w)) =? running_process_index (globals w)) eqn:Heq; simpl.
  - apply Z.eqb_eq in Heq. apply scheduler_inv. simpl.
    apply (table_inv_clear_running _ _ _ (fold_elapsed _ _)); try done.
    + intros. by apply full_size_fold_elapsed.
    + intros. by apply status_at_fold_elapsed.
  - apply Z.eqb_neq in Heq. apply table_inv_fold_elapsed.
    by apply table_inv_set_status_other.
Qed.

Lemma allocate_index_found tbl i :
  allocate_index tbl = i -> 0 <= i ->
  in_table i /\
  (status (record_at tbl i) = UNUSED \/ status (record_at tbl i) = TERMINATED).
Proof.
  unfold allocate_index. intros Hi Hpos.
  destruct (get_unused_process_index tbl <? 0) eqn:Hu.
  - destruct (first_index_found _ _ _ Hi Hpos) as (Hin & Ht & _).
    split; [exact Hin|]. right. by apply bool_decide_eq_true in Ht.
  - apply Z.ltb_ge in Hu. subst i.
    destruct (first_index_found _ _ _ eq_refl Hu) as (Hin & Ht & _).
    split; [exact Hin|]. left. by apply bool_decide_eq_true in Ht.
Qed.

Lemma perform_run_inv args w :
  table_inv (globals w) -> table_inv (globals (perform_run E args w).2).
Proof.
  intros Hinv. unfold perform_run.
  destruct (arg args 1); [|exact Hinv].
  destruct (arg args 2); [|exact Hinv].
  destruct (arg args 3) as [a3|]; [|exact Hinv].
  destruct (atoi a3 <=? 0); [exact Hinv|]. mrun.
  destruct (allocate_index (process_records (globals w)) <? 0) eqn:Hlt;
    [exact Hinv|].
  apply Z.ltb_ge in Hlt.
  destruct (allocate_index_found _ _ eq_refl Hlt) as (Hi & Hst).
  assert (allocate_index (process_records (globals w))
          <> running_process_index (globals w)) as Hne.
  { apply table_inv_not_running; [exact Hinv|exact Hi|].
    unfold status_at. destruct Hst as [-> | ->]; done. }
  destruct (fork_result E _ <? 0); [exact Hinv|].
  destruct (fork_result E _ =? 0); [exact Hinv|]. simpl.
  assert (table_inv
    (update_record (allocate_index (process_records (globals w)))
       (set_remaining_runtime (atoi a3))
       (update_record (allocate_index (process_records (globals w)))
          (set_status READY)
          (update_record (allocate_index (process_records (globals w)))
             (set_pid (fork_result E (length (trace w)))) (globals w))))) as Hw.
  { apply table_inv_update_same; [done|].
    apply table_inv_set_status_other; [|done|done|done].
    by apply table_inv_update_same. }
  destruct (running_process_index (globals w) <? 0) eqn:Hri; simpl.
  - apply Z.ltb_lt in Hri. apply scheduler_inv. simpl.
    by apply (table_inv_start _ _ id); [done|done|apply table_inv_set_start| |].
  - destruct (kill_fails E _ _ _); simpl; [exact Hw|]. by apply scheduler_inv.
Qed.

Lemma list_loop_globals n i found w :
  (list_loop n i found w).2.(globals) = globals w.
Proof.
  revert i found w. induction n as [|n IH]; intros i found w; simpl; [done|].
  mrun. destruct (bool_decide _); simpl; by rewrite IH.
Qed.

Lemma perform_list_globals w : (perform_list w).2.(globals) = globals w.
Proof.
  unfold perform_list, bind.
  pose proof (list_loop_globals (Z.to_nat MAX_PROCESSES) 0 false w) as H.
  destruct (list_loop _ _ _ w) as [found w']. simpl in H.
  by destruct found.
Qed.

Lemma tick_inv w :
  table_inv (globals w) -> table_inv (globals (tick E w).2).
Proof.
  intros Hinv. unfold tick. mrun.
  destruct (0 <=? _); simpl; [by apply table_inv_fold_elapsed|by apply scheduler_inv].
Qed.

End Preservation.

(** ** [perform_exit] *)

Section ExitLemmas.

Variable E : environment.

Lemma record_at_lookup tbl i :
  0 <= i < Z.of_nat (length tbl) ->
  tbl !! Z.to_nat i = Some (record_at tbl i).
Proof.
  intros Hi. unfold record_at.
  destruct (tbl !! Z.to_nat i) eqn:Hl; [reflexivity|].
  apply lookup_ge_None in Hl. lia.
Qed.

Lemma exit_loop_spec n i w :
  0 <= i -> i + Z.of_nat n <= Z.of_nat (length (process_records (globals w))) ->
  let w' := (exit_loop E n i w).2 in
  let tbl := process_records (globals w) in
  length (process_records (globals w')) = length tbl /\
  running_process_index (globals w') = running_process_index (globals w) /\
  start_time (globals w') = start_time (globals w) /\
  elapsed_time (globals w') = elapsed_time (globals w) /\
  (forall j, 0 <= j ->
     record_at (process_records (globals w')) j
     = if bool_decide (i <= j < i + Z.of_nat n) && is_active (record_at tbl j)
       then set_status TERMINATED (record_at tbl j)
       else record_at tbl j) /\
  exists evs,
    trace w' = trace w ++ evs /\ exit_log evs /\
    kills evs
    = (fun p => (pid p, SIGTERM))
      <$> filter (fun p => is_active p = true) (take n (drop (Z.to_nat i) tbl)).
Proof.
  revert i w. induction n as [|n IH]; intros i w Hi Hlen; simpl.
  - repeat split; try reflexivity.
    + intros j Hj. rewrite bool_decide_eq_false_2 by lia. reflexivity.
    + exists []. rewrite app_nil_r. repeat split. constructor.
  - mrun. fold (is_active (record_at (process_records (globals w)) i)).
    rewrite (drop_S _ (record_at (process_records (globals w)) i))
      by (apply record_at_lookup; lia).
    rewrite firstn_cons, filter_cons.
    destruct (is_active (record_at (process_records (globals w)) i)) eqn:Hact.
    + rewrite decide_True by done.
      assert (forall pre,
        (forall evs, exit_log evs -> exit_log (pre ++ evs)) ->
        kills pre = [(pid (record_at (process_records (globals w)) i), SIGTERM)] ->
        let w' := (exit_loop E n (i + 1)
                     {| globals := update_record i (set_status TERMINATED) (globals w);
                        trace := trace w ++ pre |}).2 in
        let tbl := process_records (globals w) in
        length (process_records (globals w')) = length tbl /\
        running_process_index (globals w') = running_process_index (globals w) /\
        start_time (globals w') = start_time (globals w) /\
        elapsed_time (globals w') = elapsed_time (globals w) /\
        (forall j, 0 <= j ->
           record_at (process_records (globals w')) j
           = if bool_decide (i <= j < i + Z.of_nat (S n))
                && is_active (record_at tbl j)
             then set_status TERMINATED (record_at tbl j)
             else record_at tbl j) /\
        exists evs,
          trace w' = trace w ++ evs /\ exit_log evs /\
          kills evs
          = (fun p => (pid p, SIGTERM))
            <$> (record_at tbl i
                 :: filter (fun p => is_active p = true)
                      (take n (drop (S (Z.to_nat i)) tbl)))) as Hstep.
      { intros pre Hpre Hkpre.
        set (w1 := {| globals := _; trace := _ |}).
        destruct (IH (i + 1) w1) as (Hl & Hr & Hs & He & Hrec & evs & Ht & Hlog & Hk).
        { lia. }
        { subst w1. simpl. rewrite length_alter. lia. }
        subst w1. simpl in *. rewrite length_alter in Hl.
        split; [exact Hl|]. split; [exact Hr|]. split; [exact Hs|].
        split; [exact He|]. split.
        - intros j Hj. rewrite Hrec by exact Hj.
          destruct (decide (j = i)) as [->|Hne].
          + rewrite (bool_decide_eq_false_2 (i + 1 <= i < _)) by lia.
            rewrite (bool_decide_eq_true_2 (i <= i < _)) by lia.
            rewrite Hact. simpl. apply record_at_alter_eq. lia.
          + rewrite record_at_alter_ne by lia.
            rewrite (bool_decide_ext (i + 1 <= j < i + 1 + Z.of_nat n)
                       (i <= j < i + Z.of_nat (S n))) by lia.
            reflexivity.
        - exists (pre ++ evs).
          split; [rewrite Ht; by rewrite <- app_assoc|].
          split; [by apply Hpre|].
          rewrite Z2Nat.inj_add, Nat.add_1_r in Hk by lia.
          rewrite drop_alter_lt in Hk by lia.
          unfold kills in *. rewrite omap_app, Hkpre, Hk. reflexivity. }
      destruct (kill_fails E _ _ _) eqn:Hk0; simpl.
      * rewrite <- app_assoc. apply Hstep; [|reflexivity].
        intros evs Hevs. by constructor.
      * apply Hstep; [|reflexivity]. intros evs Hevs. by constructor.
    + destruct (IH (i + 1) w) as (Hl & Hr & Hs & He & Hrec & evs & Ht & Hlog & Hk);
        [lia|lia|].
      split; [exact Hl|]. split; [exact Hr|]. split; [exact Hs|]. split; [exact He|].
      split.
      * intros j Hj. rewrite Hrec by exact Hj.
        destruct (decide (j = i)) as [->|Hne].
        -- rewrite (bool_decide_eq_false_2 (i + 1 <= i < _)) by lia.
           rewrite Hact. by rewrite !andb_false_r.
        -- rewrite (bool_decide_ext (i + 1 <= j < i + 1 + Z.of_nat n)
                      (i <= j < i + Z.of_nat (S n))) by lia.
           reflexivity.
      * exists evs. split; [exact Ht|]. split; [exact Hlog|].
        rewrite Z2Nat.inj_add, Nat.add_1_r in Hk by lia.
        rewrite decide_False by done. exact Hk.
Qed.

End ExitLemmas.

(** ** Fields the scheduler leaves alone *)

Section FieldLemmas.

Variable E : environment.
Implicit Types (g : manager) (w : world) (i j : Z) (tbl : list process_record).

Lemma field_alter_same {A} (proj : process_record -> A) tbl f n j :
  (forall p, proj (f p) = proj p) ->
  proj (record_at (alter f n tbl) j) = proj (record_at tbl j).
Proof.
  intros Hf. unfold record_at.
  destruct (decide (n = Z.to_nat j)) as [e|ne].
  - rewrite e, list_lookup_alter_eq.
    destruct (tbl !! Z.to_nat j); simpl; [apply Hf|reflexivity].
  - by rewrite list_lookup_alter_ne.
Qed.

Lemma field_update_same {A} (proj : process_record -> A) g f i j :
  (forall p, proj (f p) = proj p) ->
  proj (record_at (process_records (update_record i f g)) j)
  = proj (record_at (process_records g) j).
Proof. apply field_alter_same. Qed.

Lemma pid_fold_elapsed g i t j :
  0 <= j ->
  pid (record_at (process_records (fold_elapsed i t g)) j)
  = pid (record_at (process_records g) j).
Proof.
  intros Hj. unfold fold_elapsed. destruct (0 <? _); [|reflexivity].
  change (process_records (set_start_time t ?x)) with (process_records x).
  by rewrite (field_update_same pid).
Qed.

Lemma fold_elapsed_no_time g i t :
  t - start_time g <= 0 ->
  process_records (fold_elapsed i t g) = process_records g /\
  start_time (fold_elapsed i t g) = start_time g /\
  running_process_index (fold_elapsed i t g) = running_process_index g.
Proof.
  intros Ht. unfold fold_elapsed. simpl.
  destruct (0 <? t - start_time g) eqn:Hlt; [apply Z.ltb_lt in Hlt; lia|done].
Qed.

Lemma remaining_runtime_fold_elapsed g i t j :
  0 <= i -> 0 <= j -> j <> i \/ t - start_time g <= 0 ->
  remaining_runtime (record_at (process_records (fold_elapsed i t g)) j)
  = remaining_runtime (record_at (process_records g) j).
Proof.
  intros Hi Hj [Hne|Ht].
  - unfold fold_elapsed. destruct (0 <? _); [|reflexivity].
    change (process_records (set_start_time t ?x)) with (process_records x).
    by rewrite record_at_update_ne.
  - by destruct (fold_elapsed_no_time g i t Ht) as (-> & _).
Qed.

Lemma dispatch_fields w j :
  0 <= j ->
  let tbl' := process_records (globals (dispatch E w).2) in
  pid (record_at tbl' j) = pid (record_at (process_records (globals w)) j) /\
  remaining_runtime (record_at tbl' j)
  = remaining_runtime (record_at (process_records (globals w)) j).
Proof.
  intros Hj. unfold dispatch. mrun.
  destruct (find_min_runtime_process _ <? 0); simpl; [done|].
  destruct (kill_fails E _ _ _); simpl;
    by rewrite (field_alter_same pid), (field_alter_same remaining_runtime).
Qed.

Lemma scheduler_pid w j :
  0 <= j ->
  pid (record_at (process_records (globals (scheduler E w).2)) j)
  = pid (record_at (process_records (globals w)) j).
Proof.
  intros Hj. unfold scheduler. mrun.
  destruct (0 <=? _); [|by apply dispatch_fields].
  destruct (kill_fails E _ _ _); simpl; [done|].
  match goal with
  | |- context [dispatch E ?w'] =>
      destruct (dispatch_fields w' j Hj) as [-> _]
  end.
  simpl. by rewrite (field_alter_same pid), pid_fold_elapsed.
Qed.

(** The scheduler charges time to the record that was running, and to
    no other. *)
Lemma scheduler_remaining_runtime w j :
  0 <= j ->
  j <> running_process_index (globals w)
  \/ clock E (S (length (trace w))) <= start_time (globals w) ->
  remaining_runtime (record_at (process_records (globals (scheduler E w).2)) j)
  = remaining_runtime (record_at (process_records (globals w)) j).
Proof.
  intros Hj Hcase. unfold scheduler. mrun.
  destruct (0 <=? _) eqn:Hri; [|by apply dispatch_fields].
  apply Z.leb_le in Hri.
  destruct (kill_fails E _ _ _); simpl; [done|].
  match goal with
  | |- context [dispatch E ?w'] =>
      destruct (dispatch_fields w' j Hj) as [_ ->]
  end.
  simpl. rewrite (field_alter_same remaining_runtime) by done.
  apply remaining_runtime_fold_elapsed; [exact Hri|exact Hj|].
  destruct Hcase as [Hne|Hle]; [by left|right].
  rewrite length_app, Nat.add_1_r. simpl. lia.
Qed.

End FieldLemmas.

(** ** Reachable states *)

Section Reachable.

Lemma initial_records :
  process_records initial_manager
  = replicate (Z.to_nat MAX_PROCESSES)
      {| pid := 0; status := UNUSED; remaining_runtime := 0 |}.
Proof. vm_compute. reflexivity. Qed.

Lemma initial_status i : in_table i -> status_at initial_manager i = UNUSED.
Proof.
  unfold in_table, MAX_PROCESSES. intros Hi.
  unfold status_at, record_at. rewrite initial_records.
  rewrite lookup_replicate_2; [reflexivity|]. unfold MAX_PROCESSES. lia.
Qed.

Lemma initial_inv : table_inv initial_manager.
Proof.
  split; [reflexivity|]. split; [simpl; unfold MAX_PROCESSES; lia|].
  intros i Hi. rewrite initial_status by exact Hi. simpl.
  unfold in_table in Hi. split; [done|lia].
Qed.

Lemma table_inv_one_running g : table_inv g -> one_running g.
Proof.
  intros (Hl & Hr & Hs). split; [|split].
  - intros i j Hi Hj Hri Hrj. apply Hs in Hri, Hrj; [congruence|done|done].
  - split.
    + intros Hpos. exists (running_process_index g).
      assert (in_table (running_process_index g)) as Hin
        by (unfold in_table; lia).
      split; [exact Hin|]. by apply Hs.
    + intros (i & Hi & Hrun). apply Hs in Hrun; [|exact Hi].
      unfold in_table in Hi. lia.
  - intros i Hi Hrun. symmetry. by apply Hs.
Qed.

Lemma step_inv E o w :
  o <> OpExit -> table_inv (globals w) -> table_inv (globals (exec (step E o) w)).
Proof.
  intros Ho Hinv. unfold exec. destruct o; simpl.
  - by apply perform_run_inv.
  - by apply perform_stop_inv.
  - by apply perform_resume_inv.
  - by apply perform_kill_inv.
  - by rewrite perform_list_globals.
  - done.
  - by apply scheduler_inv.
  - by apply sigchld_handler_inv.
  - by apply tick_inv.
Qed.

Lemma run_operations_inv E ops w :
  OpExit ∉ ops -> table_inv (globals w) ->
  table_inv (globals (run_operations E ops w)).
Proof.
  revert w. induction ops as [|o ops IH]; intros w Hno Hinv; simpl; [exact Hinv|].
  apply not_elem_of_cons in Hno as [Ho Hno].
  apply IH; [exact Hno|]. apply step_inv; [congruence|exact Hinv].
Qed.

(** What [perform_exit] does to the globals. *)
Lemma perform_exit_globals E w :
  full_size (globals w) ->
  let g := globals w in
  let g' := globals (exec (perform_exit E) w) in
  running_process_index g' = running_process_index g /\
  start_time g' = start_time g /\
  forall j, in_table j ->
    record_at (process_records g') j
    = if is_active (record_at (process_records g) j)
      then set_status TERMINATED (record_at (process_records g) j)
      else record_at (process_records g) j.
Proof.
  intros Hl. unfold exec, perform_exit, bind.
  destruct (exit_loop_spec E (Z.to_nat MAX_PROCESSES) 0 w)
    as (_ & Hr & Hs & _ & Hrec & _); [lia|rewrite Hl; lia|].
  destruct (exit_loop E _ 0 w) as [[] w1]. simpl in *.
  split; [exact Hr|]. split; [exact Hs|]. intros j Hj.
  unfold in_table in Hj. rewrite Hrec by lia.
  rewrite bool_decide_eq_true_2; [reflexivity|].
  rewrite Z2Nat.id by (unfold MAX_PROCESSES; lia). lia.
Qed.

Lemma perform_exit_not_running E w j :
  full_size (globals w) -> in_table j ->
  status_at (globals (exec (perform_exit E) w)) j <> RUNNING.
Proof.
  intros Hl Hj. destruct (perform_exit_globals E w Hl) as (_ & _ & Hrec).
  unfold status_at. rewrite Hrec by exact Hj. unfold is_active.
  destruct (status (record_at (process_records (globals w)) j)) eqn:Hs;
    simpl; congruence.
Qed.

End Reachable.

(** ** Slot allocation *)

Section Allocation.

Variable E : environment.
Implicit Types (w : world) (i j v : Z) (tbl : list process_record).

Lemma first_index_unique test tbl i :
  in_table i -> test (record_at tbl i) = true ->
  (forall j, 0 <= j < i -> test (record_at tbl j) = false) ->
  first_index (Z.to_nat MAX_PROCESSES) 0 test tbl = i.
Proof.
  intros Hi Ht Hbefore.
  destruct (Z_lt_le_dec (first_index (Z.to_nat MAX_PROCESSES) 0 test tbl) 0)
    as [Hneg|Hpos].
  - pose proof (first_index_none _ _ Hneg i Hi). congruence.
  - destruct (first_index_found _ _ _ eq_refl Hpos) as (Hr & Hrt & Hrb).
    destruct (Z.lt_trichotomy
                (first_index (Z.to_nat MAX_PROCESSES) 0 test tbl) i)
      as [Hlt|[Heq|Hgt]]; [|exact Heq|].
    + rewrite Hbefore in Hrt by lia. discriminate.
    + rewrite Hrb in Ht; [discriminate|]. unfold in_table in Hi. lia.
Qed.

Lemma allocate_index_first_unused tbl i :
  in_table i -> status (record_at tbl i) = UNUSED ->
  (forall j, 0 <= j < i -> status (record_at tbl j) <> UNUSED) ->
  allocate_index tbl = i.
Proof.
  intros Hi Hs Hb. unfold allocate_index, get_unused_process_index.
  rewrite (first_index_unique _ tbl i Hi).
  - unfold in_table in Hi. destruct (i <? 0) eqn:Hlt; [|reflexivity].
    apply Z.ltb_lt in Hlt. lia.
  - by apply bool_decide_eq_true.
  - intros j Hj. apply bool_decide_eq_false. by apply Hb.
Qed.

Lemma allocate_index_first_terminated tbl i :
  in_table i ->
  (forall j, in_table j -> status (record_at tbl j) <> UNUSED) ->
  status (record_at tbl i) = TERMINATED ->
  (forall j, 0 <= j < i -> status (record_at tbl j) <> TERMINATED) ->
  allocate_index tbl = i.
Proof.
  intros Hi Hno Hs Hb. unfold allocate_index.
  destruct (get_unused_process_index tbl <? 0) eqn:Hu.
  - apply first_index_unique; [exact Hi|by apply bool_decide_eq_true|].
    intros j Hj. apply bool_decide_eq_false. by apply Hb.
  - apply Z.ltb_ge in Hu.
    destruct (first_index_found _ _ _ eq_refl Hu) as (Hr & Hrt & _).
    apply bool_decide_eq_true in Hrt. by apply Hno in Hrt.
Qed.

Lemma allocate_index_none tbl :
  (forall j, in_table j ->
     status (record_at tbl j) <> UNUSED /\ status (record_at tbl j) <> TERMINATED) ->
  allocate_index tbl < 0.
Proof.
  intros Hall.
  destruct (Z_lt_le_dec (allocate_index tbl) 0) as [Hneg|Hpos]; [exact Hneg|].
  destruct (allocate_index_found _ _ eq_refl Hpos) as (Hi & Hs).
  destruct (Hall _ Hi) as [Hu Ht]. by destruct Hs.
Qed.

Lemma status_alter_cases tbl s n j :
  status (record_at (alter (set_status s) n tbl) j) = s
  \/ status (record_at (alter (set_status s) n tbl) j) = status (record_at tbl j).
Proof.
  unfold record_at. destruct (decide (n = Z.to_nat j)) as [e|ne].
  - rewrite e, list_lookup_alter_eq.
    destruct (tbl !! Z.to_nat j); simpl; [by left|by right].
  - right. by rewrite list_lookup_alter_ne.
Qed.

Lemma live_alter tbl s n j :
  live s -> live (status (record_at tbl j)) ->
  live (status (record_at (alter (set_status s) n tbl) j)).
Proof. intros Hs Hj. by destruct (status_alter_cases tbl s n j) as [-> | ->]. Qed.

Lemma live_fold_elapsed g i t j :
  live (status (record_at (process_records g) j)) ->
  live (status (record_at (process_records (fold_elapsed i t g)) j)).
Proof.
  unfold fold_elapsed. destruct (0 <? _); [|done].
  change (process_records (set_start_time t ?x)) with (process_records x).
  by rewrite (field_update_same status).
Qed.

Lemma dispatch_live w j :
  live (status (record_at (process_records (globals w)) j)) ->
  live (status (record_at (process_records (globals (dispatch E w).2)) j)).
Proof.
  intros Hj. unfold dispatch. mrun.
  destruct (find_min_runtime_process _ <? 0); simpl; [done|].
  destruct (kill_fails E _ _ _); simpl; apply live_alter; (by right) || done.
Qed.

Lemma scheduler_live w j :
  live (status (record_at (process_records (globals w)) j)) ->
  live (status (record_at (process_records (globals (scheduler E w).2)) j)).
Proof.
  intros Hj. unfold scheduler. mrun.
  destruct (0 <=? _); [|by apply dispatch_live].
  destruct (kill_fails E _ _ _); simpl; [done|].
  apply dispatch_live. simpl. apply live_alter; [by left|].
  by apply live_fold_elapsed.
Qed.

(** Past its checks, [perform_run] stores the worker in the record
    [allocate_index] chose. *)
Lemma perform_run_stores args a1 a2 a3 w v :
  full_size (globals w) ->
  arg args 1 = Some a1 -> arg args 2 = Some a2 -> arg args 3 = Some a3 ->
  0 < atoi a3 ->
  0 <= allocate_index (process_records (globals w)) ->
  fork_result E (length (trace w)) = v -> 0 < v ->
  run_stores w (exec (perform_run E args) w)
    (allocate_index (process_records (globals w))) v.
Proof.
  intros Hl H1 H2 H3 Hb Hidx Hv Hpos.
  destruct (allocate_index_found _ _ eq_refl Hidx) as (Hi & _).
  assert (0 <= allocate_index (process_records (globals w))
          < Z.of_nat (length (process_records (globals w)))) as Hrange.
  { unfold in_table in Hi. rewrite Hl, Z2Nat.id by (unfold MAX_PROCESSES; lia). lia. }
  unfold exec, perform_run. rewrite H1, H2, H3.
  rewrite (proj2 (Z.leb_gt _ _) Hb). mrun.
  rewrite (proj2 (Z.ltb_ge _ _) Hidx), Hv.
  rewrite (proj2 (Z.ltb_ge _ _)) by lia.
  rewrite (proj2 (Z.eqb_neq _ _)) by lia. simpl.
  set (i := allocate_index (process_records (globals w))) in *.
  set (g1 := update_record i (set_remaining_runtime (atoi a3))
               (update_record i (set_status READY)
                  (update_record i (set_pid v) (globals w)))).
  set (tbl1 := process_records g1).
  assert (pid (record_at tbl1 i) = v) as Hpid1.
  { subst tbl1 g1. unfold update_record. simpl.
    rewrite (field_alter_same pid), (field_alter_same pid) by done.
    by rewrite record_at_alter_eq. }
  assert (status (record_at tbl1 i) = READY) as Hst1.
  { subst tbl1 g1. unfold update_record. simpl.
    rewrite (field_alter_same status) by done.
    rewrite record_at_alter_eq; [done|]. by rewrite length_alter. }
  assert (forall j, in_table j -> j <> i ->
            pid (record_at tbl1 j) = pid (record_at (process_records (globals w)) j))
    as Hother1.
  { intros j Hj Hne. subst tbl1 g1. unfold update_record. simpl.
    unfold in_table in Hj. by rewrite !record_at_alter_ne by lia. }
  clearbody g1. subst tbl1.
  destruct (running_process_index (globals w) <? 0); simpl.
  - split; [|split].
    + rewrite scheduler_pid by lia. simpl. by rewrite (field_alter_same pid).
    + apply scheduler_live. simpl. apply live_alter; [by right|].
      rewrite Hst1. by left.
    + intros j Hj Hne. unfold in_table in Hj. rewrite scheduler_pid by lia.
      simpl. rewrite (field_alter_same pid) by done. by apply Hother1.
  - destruct (kill_fails E _ _ _); simpl.
    + split; [exact Hpid1|]. split; [by left|exact Hother1].
    + split; [|split].
      * rewrite scheduler_pid by lia. exact Hpid1.
      * apply scheduler_live. simpl. rewrite Hst1. by left.
      * intros j Hj Hne. unfold in_table in Hj. rewrite scheduler_pid by lia.
        by apply Hother1.
Qed.

End Allocation.

Lemma all_terminated_status j :
  in_table j ->
  status (record_at (process_records (globals all_terminated_world)) j)
  = TERMINATED.
Proof.
  unfold in_table, MAX_PROCESSES. intros Hj.
  change (process_records (globals all_terminated_world))
    with (replicate 64 {| pid := 7; status := TERMINATED; remaining_runtime := 0 |}).
  unfold record_at. rewrite lookup_replicate_2 by lia. reflexivity.
Qed.

(** ** Runtime accounting *)

Lemma fold_elapsed_start_time g i t :
  0 < t - start_time g -> start_time (fold_elapsed i t g) = t.
Proof.
  intros Ht. unfold fold_elapsed. simpl.
  by rewrite (proj2 (Z.ltb_lt _ _) Ht).
Qed.

(** Folding again at the same reading of the clock changes no record
    and not the dispatch clock. *)
Lemma fold_elapsed_twice g i j t :
  process_records (fold_elapsed j t (fold_elapsed i t g))
  = process_records (fold_elapsed i t g) /\
  start_time (fold_elapsed j t (fold_elapsed i t g))
  = start_time (fold_elapsed i t g).
Proof.
  destruct (Z_lt_le_dec 0 (t - start_time g)) as [Hpos|Hle].
  - destruct (fold_elapsed_no_time (fold_elapsed i t g) j t) as (-> & -> & _);
      [|done]. rewrite fold_elapsed_start_time by exact Hpos. lia.
  - destruct (fold_elapsed_no_time g i t Hle) as (Hr & Hs & _).
    destruct (fold_elapsed_no_time (fold_elapsed i t g) j t) as (-> & -> & _);
      [|done]. rewrite Hs. exact Hle.
Qed.

Lemma record_fold_elapsed_eq g i t :
  full_size g -> in_table i -> 0 < t - start_time g ->
  record_at (process_records (fold_elapsed i t g)) i
  = set_remaining_runtime
      (int_of_long (remaining_runtime (record_at (process_records g) i)
                    - (t - start_time g)))
      (record_at (process_records g) i).
Proof.
  unfold full_size, in_table. intros Hl Hi Ht. unfold fold_elapsed. simpl.
  rewrite (proj2 (Z.ltb_lt _ _) Ht). unfold update_record. simpl.
  rewrite record_at_alter_eq; [reflexivity|].
  rewrite Hl, Z2Nat.id by (unfold MAX_PROCESSES; lia). lia.
Qed.

Lemma record_fold_elapsed_ne g i j t :
  0 <= i -> 0 <= j -> i <> j ->
  record_at (process_records (fold_elapsed i t g)) j
  = record_at (process_records g) j.
Proof.
  intros Hi Hj Hne. unfold fold_elapsed. destruct (0 <? _); [|reflexivity].
  unfold update_record. simpl. by rewrite record_at_alter_ne.
Qed.

(** ** The selection of the scheduler *)

Lemma find_min_runtime_process_example :
  find_min_runtime_process sjf_example_table = 1.
Proof. vm_compute. reflexivity. Qed.

Lemma find_min_runtime_process_negative :
  find_min_runtime_process
    ([ {| pid := 11; status := READY; remaining_runtime := 5 |};
       {| pid := 12; status := READY; remaining_runtime := -3 |};
       {| pid := 13; status := STOPPED; remaining_runtime := -9 |} ]
     ++ replicate 61 {| pid := 0; status := UNUSED; remaining_runtime := 0 |})
  = 1.
Proof. vm_compute. reflexivity. Qed.

(** With no [READY] record nothing is selected. *)
Lemma find_min_runtime_process_no_ready tbl :
  (forall j, in_table j -> ~ ready_at tbl j) ->
  find_min_runtime_process tbl = -1.
Proof.
  intros Hno.
  destruct (find_min_runtime_process_spec tbl) as [[Hr _]|(Hi & Hrd & _)];
    [exact Hr|]. by apply Hno in Hrd.
Qed.

(** Where some [READY] record has less than [INT_MAX] left, the
    selection is the first [READY] record of least remaining runtime. *)
Lemma find_min_runtime_process_below_INT_MAX tbl k :
  in_table k -> ready_at tbl k -> remaining_runtime (record_at tbl k) < INT_MAX ->
  let r := find_min_runtime_process tbl in
  in_table r /\ ready_at tbl r /\
  (forall j, in_table j -> ready_at tbl j ->
     remaining_runtime (record_at tbl r) <= remaining_runtime (record_at tbl j)) /\
  (forall j, 0 <= j < r -> ready_at tbl j ->
     remaining_runtime (record_at tbl r) < remaining_runtime (record_at tbl j)).
Proof.
  intros Hk Hrd Hlt.
  destruct (find_min_runtime_process_spec tbl) as [[_ Hall]|(Hi & Hr & _ & Hmin & Hfirst)].
  - specialize (Hall k Hk Hrd). lia.
  - done.
Qed.

(** ** Operations that no handler run interrupts *)

Section Undisturbed.

Variable E : environment.
Variable D : schedule.
Hypothesis Hquiet : undisturbed D.

Lemma interrupt_quiet line i w : interrupt E D line i w = (tt, w).
Proof. unfold interrupt. by rewrite Hquiet. Qed.

#[local] Opaque interrupt.

Ltac quiet := repeat (rewrite ?interrupt_quiet; mrun).

Lemma account_async_quiet line i w : account_async E D line i w = account E i w.
Proof.
  unfold account_async. quiet. unfold fold_elapsed. simpl.
  destruct (0 <? _); quiet; reflexivity.
Qed.

Lemma first_index_async_quiet line n i test w :
  first_index_async E D line n i test w
  = (first_index n i test (process_records (globals w)), w).
Proof.
  revert i. induction n as [|n IH]; intros i; simpl; [reflexivity|].
  quiet. destruct (test _); [reflexivity|apply IH].
Qed.

Lemma find_pid_async_quiet line v w :
  find_pid_async E D line v w = (find_pid v (process_records (globals w)), w).
Proof. apply first_index_async_quiet. Qed.

Lemma allocate_index_async_quiet w :
  allocate_index_async E D w = (allocate_index (process_records (globals w)), w).
Proof.
  unfold allocate_index_async, allocate_index, bind.
  rewrite first_index_async_quiet.
  fold (get_unused_process_index (process_records (globals w))).
  destruct (_ <? 0); [|reflexivity]. apply first_index_async_quiet.
Qed.

Lemma min_runtime_loop_async_quiet n i min_index min_runtime w :
  min_runtime_loop_async E D n i min_index min_runtime w
  = (min_runtime_loop n i min_index min_runtime (process_records (globals w)), w).
Proof.
  revert i min_index min_runtime.
  induction n as [|n IH]; intros i min_index min_runtime; simpl; [reflexivity|].
  quiet. destruct (has_status READY _); quiet; [|apply IH].
  destruct (_ <? min_runtime); quiet; apply IH.
Qed.

Lemma find_min_runtime_process_async_quiet w :
  find_min_runtime_process_async E D w
  = (find_min_runtime_process (process_records (globals w)), w).
Proof. apply min_runtime_loop_async_quiet. Qed.

#[local] Transparent interrupt.

End Undisturbed.

Section UndisturbedCommands.

Variable E : environment.
Variable D : schedule.
Hypothesis Hquiet : undisturbed D.

#[local] Opaque interrupt find_min_runtime_process_async find_pid_async
  allocate_index_async account_async.

Ltac quiet :=
  repeat (rewrite ?(interrupt_quiet E D Hquiet),
            ?(account_async_quiet E D Hquiet),
            ?(find_pid_async_quiet E D Hquiet),
            ?(allocate_index_async_quiet E D Hquiet),
            ?(find_min_runtime_process_async_quiet E D Hquiet); mrun).

Lemma dispatch_async_quiet w : dispatch_async E D w = dispatch E w.
Proof.
  unfold dispatch_async, dispatch. quiet.
  destruct (_ <? 0); [reflexivity|]. quiet.
  rewrite !(field_alter_same pid) by done.
  destruct (kill_fails E _ _ _); quiet; reflexivity.
Qed.

#[local] Opaque dispatch_async dispatch.

Lemma scheduler_async_quiet w : scheduler_async E D w = scheduler E w.
Proof.
  unfold scheduler_async, scheduler. quiet.
  destruct (0 <=? _); quiet; [|apply dispatch_async_quiet].
  destruct (kill_fails E _ _ _); quiet; [reflexivity|].
  apply dispatch_async_quiet.
Qed.

#[local] Opaque scheduler_async scheduler.

Lemma perform_run_async_quiet args w :
  perform_run_async E D args w = perform_run E args w.
Proof.
  unfold perform_run_async, perform_run.
  destruct (arg args 1); [|reflexivity]. destruct (arg args 2); [|reflexivity].
  destruct (arg args 3) as [a3|]; [|reflexivity].
  destruct (atoi a3 <=? 0); [reflexivity|]. quiet.
  destruct (_ <? 0); [reflexivity|]. quiet.
  destruct (fork_result E _ <? 0); [reflexivity|].
  destruct (fork_result E _ =? 0); [reflexivity|]. quiet.
  destruct (running_process_index (globals w) <? 0); quiet.
  - apply scheduler_async_quiet.
  - destruct (kill_fails E _ _ _); quiet; [reflexivity|].
    apply scheduler_async_quiet.
Qed.

Lemma list_loop_async_quiet n i found w :
  list_loop_async E D n i found w = list_loop n i found w.
Proof.
  revert i found w. induction n as [|n IH]; intros i found w; simpl; [reflexivity|].
  quiet. destruct (bool_decide _); quiet; apply IH.
Qed.

Lemma perform_list_async_quiet w : perform_list_async E D w = perform_list w.
Proof.
  unfold perform_list_async, perform_list, bind.
  by rewrite list_loop_async_quiet.
Qed.

Lemma perform_stop_async_quiet v w :
  perform_stop_async E D v w = perform_stop E v w.
Proof.
  unfold perform_stop_async, perform_stop.
  destruct (v <=? 0); [reflexivity|]. quiet.
  destruct (_ <? 0); [reflexivity|]. quiet.
  destruct (_ || _); [|reflexivity]. quiet.
  destruct (kill_fails E _ _ _); quiet; [reflexivity|].
  destruct (_ =? _); quiet; [|reflexivity].
  apply scheduler_async_quiet.
Qed.

Lemma perform_resume_async_quiet v w :
  perform_resume_async E D v w = perform_resume E v w.
Proof.
  unfold perform_resume_async, perform_resume.
  destruct (v <=? 0); [reflexivity|]. quiet.
  destruct (_ <? 0); [reflexivity|]. quiet.
  destruct (bool_decide _); [|reflexivity]. quiet.
  apply scheduler_async_quiet.
Qed.

Lemma perform_kill_async_quiet v w :
  perform_kill_async E D v w = perform_kill E v w.
Proof.
  unfold perform_kill_async, perform_kill.
  destruct (v <=? 0); [reflexivity|]. quiet.
  destruct (_ <? 0); [reflexivity|]. quiet.
  destruct (bool_decide _); [|reflexivity]. quiet.
  destruct (kill_fails E _ _ _); quiet; [reflexivity|].
  rewrite running_index_fold_elapsed. simpl.
  destruct (_ =? _); quiet; [|reflexivity].
  apply scheduler_async_quiet.
Qed.

Lemma exit_loop_async_quiet n i w :
  exit_loop_async E D n i w = exit_loop E n i w.
Proof.
  revert i w. induction n as [|n IH]; intros i w; simpl; [reflexivity|].
  quiet. destruct (_ && _); quiet; [|apply IH].
  destruct (kill_fails E _ _ _); quiet; apply IH.
Qed.

Lemma perform_exit_async_quiet w : perform_exit_async E D w = perform_exit E w.
Proof.
  unfold perform_exit_async, perform_exit, bind.
  by rewrite exit_loop_async_quiet.
Qed.

Lemma tick_async_quiet w : tick_async E D w = tick E w.
Proof.
  unfold tick_async, tick. quiet.
  destruct (0 <=? _); quiet; [reflexivity|apply scheduler_async_quiet].
Qed.

(** An operation that no run of the handler interrupts is the
    operation of the sequential reading. *)
Lemma step_async_quiet o w : step_async E D o w = step E o w.
Proof.
  destruct o; simpl.
  - apply perform_run_async_quiet.
  - apply perform_stop_async_quiet.
  - apply perform_resume_async_quiet.
  - apply perform_kill_async_quiet.
  - apply perform_list_async_quiet.
  - apply perform_exit_async_quiet.
  - apply scheduler_async_quiet.
  - reflexivity.
  - apply tick_async_quiet.
Qed.

#[local] Transparent interrupt find_min_runtime_process_async find_pid_async
  allocate_index_async account_async dispatch_async dispatch scheduler_async
  scheduler.

End UndisturbedCommands.

Lemma run_preemptible_undisturbed E ops w :
  (forall o, o ∈ ops -> undisturbed o.2) ->
  run_preemptible E ops w = run_operations E ops.*1 w.
Proof.
  revert w. induction ops as [|o ops IH]; intros w Hq; simpl; [reflexivity|].
  unfold exec. rewrite step_async_quiet by (apply Hq, elem_of_cons; by left).
  apply IH. intros o' Ho'. apply Hq, elem_of_cons. by right.
Qed.

(** ** Claims *)

(** C1, as stated, fails: after [run] and [exit] no record is [RUNNING]
    although [running_process_index] still names record [0], because
    [perform_exit] marks the records and leaves the index alone. *)
Lemma C1_exit_keeps_running_index :
  running_process_index (globals after_run_and_exit) = 0 /\
  status_at (globals after_run_and_exit) 0 = TERMINATED /\
  ~ one_running (globals after_run_and_exit).
Proof.
  split; [vm_compute; reflexivity|]. split; [vm_compute; reflexivity|].
  intros (_ & Hiff & Hname).
  destruct (proj1 Hiff) as (i & Hi & Hrun); [vm_compute; discriminate|].
  pose proof (Hname i Hi Hrun) as Heq. vm_compute in Heq. subst i.
  vm_compute in Hrun. discriminate.
Qed.

(** C1, amended: as long as no run of the handler is delivered inside
    an operation, every state reached by [run], [stop], [resume],
    [kill], [list], scheduler passes, reaper passes and ticks has at
    most one [RUNNING] record, and [running_process_index] is set
    exactly when that record exists and names it.  [exit] from such a
    state, itself not interrupted, leaves no record [RUNNING] (so at
    most one), and leaves [running_process_index] as it was. *)
Theorem C1_one_running_until_exit E (ops : list (operation * schedule))
    (D : schedule) :
  (forall o, o ∈ ops -> o.1 <> OpExit /\ undisturbed o.2) ->
  undisturbed D ->
  let w := run_preemptible E ops initial_world in
  let g' := globals (exec (perform_exit_async E D) w) in
  one_running (globals w) /\
  at_most_one_running g' /\
  (forall i, in_table i -> status_at g' i <> RUNNING) /\
  running_process_index g' = running_process_index (globals w).
Proof.
  intros Hops HD. cbv zeta.
  rewrite run_preemptible_undisturbed by (intros o Ho; by apply Hops).
  assert (forall w, exec (perform_exit_async E D) w = exec (perform_exit E) w)
    as Hexit by (intros w; unfold exec; by rewrite perform_exit_async_quiet).
  rewrite !Hexit.
  assert (table_inv (globals (run_operations E ops.*1 initial_world))) as Hinv.
  { apply run_operations_inv; [|apply initial_inv].
    intros Hin. apply list_elem_of_fmap in Hin as (o & Heq & Ho).
    by destruct (Hops o Ho) as [Hne _]. }
  revert Hinv. generalize (run_operations E ops.*1 initial_world).
  intros w Hinv.
  pose proof (table_inv_full_size _ Hinv) as Hl.
  split; [by apply table_inv_one_running|].
  assert (forall i, in_table i ->
            status_at (globals (exec (perform_exit E) w)) i <> RUNNING) as Hnone
    by (intros i Hi; by apply perform_exit_not_running).
  split; [|split; [exact Hnone|]].
  - intros i j Hi Hj Hri _. by apply Hnone in Hri.
  - destruct (perform_exit_globals E w Hl) as (Heq & _). exact Heq.
Qed.

Lemma C1_one_running_until_exit_witness :
  one_running (globals (run_preemptible quiet undisturbed_operations initial_world)).
Proof.
  refine (proj1 (C1_one_running_until_exit quiet undisturbed_operations
                   nothing_delivered _ _)).
  - intros o Ho. unfold undisturbed_operations, exit_free_operations in Ho.
    simpl in Ho.
    repeat (apply elem_of_cons in Ho as [->|Ho]; [split; [discriminate|done]|]).
    by apply elem_of_nil in Ho.
  - done.
Defined.

(** The condition on the deliveries is needed: when the handler reaps
    the new worker between lines 269 and 270 of [perform_run], the
    record is [TERMINATED] and [running_process_index] is then set to
    it; the scheduler pass that ends [run] cannot suspend the worker
    and returns, so [run] ends with the index naming a [TERMINATED]
    record and no record [RUNNING]. *)
Lemma preempted_run_breaks_invariant :
  running_process_index (globals preempted_run) = 0 /\
  status_at (globals preempted_run) 0 = TERMINATED /\
  trace preempted_run
  = [EvFork 100; EvTime 0; EvKill 100 SIGSTOP (-1);
     EvPrint Stderr Scheduler_first_kill_failed] /\
  ~ one_running (globals preempted_run).
Proof.
  split; [vm_compute; reflexivity|]. split; [vm_compute; reflexivity|].
  split; [vm_compute; reflexivity|].
  intros (_ & Hiff & Hname).
  destruct (proj1 Hiff) as (i & Hi & Hrun); [vm_compute; discriminate|].
  pose proof (Hname i Hi Hrun) as Heq. vm_compute in Heq. subst i.
  vm_compute in Hrun. discriminate.
Qed.

(** C2: the selection compares against the initial [min_runtime =
    INT_MAX] with [<], so a [READY] record whose remaining runtime is
    [INT_MAX] is never selected.  [run ./w a 2147483647] on the empty
    table leaves the new worker stopped and [READY]; the selection
    returns no index although a [READY] record exists, no [SIGCONT] is
    sent, and a further scheduler pass changes nothing. *)
Theorem C2_ready_INT_MAX_not_selected :
  record_at (process_records (globals after_run_INT_MAX)) 0
  = {| pid := 100; status := READY; remaining_runtime := INT_MAX |} /\
  find_min_runtime_process (process_records (globals after_run_INT_MAX)) = -1 /\
  running_process_index (globals after_run_INT_MAX) = -1 /\
  kills (trace after_run_INT_MAX) = [(100, SIGSTOP)] /\
  globals (exec (scheduler quiet) after_run_INT_MAX) = globals after_run_INT_MAX.
Proof. vm_compute. repeat split; reflexivity. Qed.

(** C3: [run] takes the first [UNUSED] record; with none, the first
    [TERMINATED] record, so on a table of [TERMINATED] records it
    takes record [0]; with neither it prints the table-full diagnostic
    and changes nothing. *)
Theorem C3_run_allocates_unused_then_terminated E args a1 a2 a3 w v :
  full_size (globals w) ->
  arg args 1 = Some a1 -> arg args 2 = Some a2 -> arg args 3 = Some a3 ->
  0 < atoi a3 ->
  fork_result E (length (trace w)) = v -> 0 < v ->
  let tbl := process_records (globals w) in
  let w' := exec (perform_run E args) w in
  (forall i, in_table i -> status (record_at tbl i) = UNUSED ->
     (forall j, 0 <= j < i -> status (record_at tbl j) <> UNUSED) ->
     run_stores w w' i v) /\
  (forall i, in_table i ->
     (forall j, in_table j -> status (record_at tbl j) <> UNUSED) ->
     status (record_at tbl i) = TERMINATED ->
     (forall j, 0 <= j < i -> status (record_at tbl j) <> TERMINATED) ->
     run_stores w w' i v) /\
  ((forall j, in_table j -> status (record_at tbl j) = TERMINATED) ->
   run_stores w w' 0 v) /\
  ((forall j, in_table j ->
      status (record_at tbl j) = RUNNING \/ status (record_at tbl j) = READY
      \/ status (record_at tbl j) = STOPPED) ->
   w' = {| globals := globals w;
           trace := trace w ++ [EvPrint Stderr Run_max_processes] |} /\
   classify Run_max_processes = Some TableFull).
Proof.
  intros Hl H1 H2 H3 Hb Hv Hpos tbl w'.
  assert (forall i, allocate_index tbl = i -> in_table i -> run_stores w w' i v)
    as Hstore.
  { intros i <- Hi. apply (perform_run_stores E args a1 a2 a3); try done.
    unfold in_table, tbl in Hi. lia. }
  split; [|split; [|split]].
  - intros i Hi Hs Hb'. apply Hstore; [|exact Hi].
    by apply allocate_index_first_unused.
  - intros i Hi Hno Hs Hb'. apply Hstore; [|exact Hi].
    by apply allocate_index_first_terminated.
  - intros Hall.
    assert (in_table 0) as H0 by (unfold in_table, MAX_PROCESSES; lia).
    apply Hstore; [|exact H0]. apply allocate_index_first_terminated.
    + exact H0.
    + intros j Hj. rewrite Hall by exact Hj. discriminate.
    + by apply Hall.
    + intros j Hj. lia.
  - intros Hall. split; [|reflexivity].
    assert (allocate_index tbl < 0) as Hneg.
    { apply allocate_index_none. intros j Hj.
      destruct (Hall j Hj) as [-> | [-> | ->]]; split; discriminate. }
    subst w'. unfold exec, perform_run. rewrite H1, H2, H3.
    rewrite (proj2 (Z.leb_gt _ _) Hb). mrun.
    fold tbl. by rewrite (proj2 (Z.ltb_lt _ _) Hneg).
Qed.

Lemma C3_run_allocates_unused_then_terminated_witness :
  run_stores all_terminated_world
    (exec (perform_run quiet ["run"; "./w"; "a"; "5"]) all_terminated_world)
    0 100.
Proof.
  refine (proj1 (proj2 (proj2
    (C3_run_allocates_unused_then_terminated quiet ["run"; "./w"; "a"; "5"]
       "./w" "a" "5" all_terminated_world 100 _ _ _ _ _ _ _))) _).
  - reflexivity.
  - reflexivity.
  - reflexivity.
  - reflexivity.
  - vm_compute. reflexivity.
  - reflexivity.
  - lia.
  - exact all_terminated_status.
Defined.

(** C4, as stated, fails: the budget is read from [args[3]], the
    fourth token, wherever the command ends.  [run ./w a 3 9] stores
    the budget [3] although its last token is [9], and [run ./w 9] is
    rejected although its last token is a positive integer. *)
Lemma C4_budget_is_not_the_last_token :
  last ["run"; "./w"; "a"; "3"; "9"] = Some "9" /\ atoi "9" = 9 /\
  record_at (process_records (globals after_run_five_tokens)) 0
  = {| pid := 100; status := RUNNING; remaining_runtime := 3 |} /\
  remaining_runtime (record_at (process_records (globals after_run_five_tokens)) 0)
  <> atoi "9" /\
  exec (perform_run quiet ["run"; "./w"; "9"]) initial_world
  = {| globals := initial_manager;
       trace := [EvPrint Stderr Run_invalid_arguments] |}.
Proof.
  repeat split; try (vm_compute; reflexivity). vm_compute. discriminate.
Qed.

(** C4, amended: the budget of [run] is [atoi(args[3])].  With fewer
    than four tokens, or with [atoi(args[3]) <= 0], the command is
    rejected with an invalid-argument diagnostic, nothing is spawned
    and the globals are as before; otherwise, once a record is chosen
    and the worker is spawned, the record holds [atoi(args[3])] as its
    remaining runtime (read while the clock stands at [now]). *)
Theorem C4_run_budget_is_fourth_token E args w :
  table_inv (globals w) ->
  let w' := exec (perform_run E args) w in
  (arg args 1 = None \/ arg args 2 = None \/ arg args 3 = None ->
   w' = {| globals := globals w;
           trace := trace w ++ [EvPrint Stderr Run_invalid_arguments] |}) /\
  (forall a1 a2 a3,
     arg args 1 = Some a1 -> arg args 2 = Some a2 -> arg args 3 = Some a3 ->
     atoi a3 <= 0 ->
     w' = {| globals := globals w;
             trace := trace w ++ [EvPrint Stderr Run_invalid_runtime] |}) /\
  classify Run_invalid_arguments = Some InvalidArgument /\
  classify Run_invalid_runtime = Some InvalidArgument /\
  (forall a1 a2 a3 v now,
     arg args 1 = Some a1 -> arg args 2 = Some a2 -> arg args 3 = Some a3 ->
     0 < atoi a3 ->
     0 <= allocate_index (process_records (globals w)) ->
     fork_result E (length (trace w)) = v -> 0 < v ->
     (forall n, clock E n = now) ->
     let p := record_at (process_records (globals w'))
                (allocate_index (process_records (globals w))) in
     pid p = v /\ remaining_runtime p = atoi a3).
Proof.
  intros Hinv w'. split; [|split; [|split; [reflexivity|split; [reflexivity|]]]].
  - intros Hmiss. subst w'. unfold exec, perform_run.
    destruct (arg args 1); [|reflexivity].
    destruct (arg args 2); [|reflexivity].
    destruct (arg args 3); [|reflexivity].
    by destruct Hmiss as [?|[?|?]].
  - intros a1 a2 a3 H1 H2 H3 Hb. subst w'. unfold exec, perform_run.
    rewrite H1, H2, H3. by rewrite (proj2 (Z.leb_le _ _) Hb).
  - intros a1 a2 a3 v now H1 H2 H3 Hb Hidx Hv Hpos Hclock p.
    pose proof (table_inv_full_size _ Hinv) as Hl.
    split.
    { by destruct (perform_run_stores E args a1 a2 a3 w v) as (Hp & _). }
    destruct (allocate_index_found _ _ eq_refl Hidx) as (Hi & Hst).
    assert (allocate_index (process_records (globals w))
            <> running_process_index (globals w)) as Hne.
    { apply table_inv_not_running; [exact Hinv|exact Hi|].
      unfold status_at. destruct Hst as [-> | ->]; done. }
    assert (0 <= allocate_index (process_records (globals w))
            < Z.of_nat (length (process_records (globals w)))) as Hrange.
    { unfold in_table in Hi. rewrite Hl, Z2Nat.id by (unfold MAX_PROCESSES; lia).
      lia. }
    subst p w'. unfold exec, perform_run. rewrite H1, H2, H3.
    rewrite (proj2 (Z.leb_gt _ _) Hb). mrun.
    rewrite (proj2 (Z.ltb_ge _ _) Hidx), Hv.
    rewrite (proj2 (Z.ltb_ge _ _)) by lia.
    rewrite (proj2 (Z.eqb_neq _ _)) by lia. simpl.
    set (i := allocate_index (process_records (globals w))) in *.
    set (g1 := update_record i (set_remaining_runtime (atoi a3))
                 (update_record i (set_status READY)
                    (update_record i (set_pid v) (globals w)))).
    assert (remaining_runtime (record_at (process_records g1) i) = atoi a3) as Hrr.
    { subst g1. unfold update_record. simpl.
      rewrite record_at_alter_eq; [done|]. by rewrite !length_alter. }
    assert (running_process_index g1 = running_process_index (globals w)) as Hri1
      by reflexivity.
    clearbody g1.
    destruct (running_process_index (globals w) <? 0); simpl.
    + rewrite scheduler_remaining_runtime.
      * simpl. by rewrite (field_alter_same remaining_runtime).
      * lia.
      * right. simpl. rewrite !Hclock. lia.
    + destruct (kill_fails E _ _ _); simpl; [exact Hrr|].
      rewrite scheduler_remaining_runtime; [exact Hrr|lia|].
      left. simpl. congruence.
Qed.

Lemma C4_run_budget_is_fourth_token_witness :
  pid (record_at (process_records (globals after_run_five_tokens)) 0) = 100 /\
  remaining_runtime (record_at (process_records (globals after_run_five_tokens)) 0)
  = 3.
Proof.
  refine (proj2 (proj2 (proj2 (proj2
    (C4_run_budget_is_fourth_token quiet ["run"; "./w"; "a"; "3"; "9"]
       initial_world initial_inv))))
    "./w" "a" "3" 100 0 _ _ _ _ _ _ _ _).
  - reflexivity.
  - reflexivity.
  - reflexivity.
  - vm_compute. reflexivity.
  - vm_compute. discriminate.
  - reflexivity.
  - lia.
  - reflexivity.
Defined.

(** C5: when a record is [RUNNING] and the [SIGSTOP] sent to it fails,
    the scheduler pass prints its diagnostic and returns: the globals
    are as before and nothing else is sent. *)
Theorem C5_scheduler_aborts_on_failed_suspend E w i :
  table_inv (globals w) -> in_table i -> status_at (globals w) i = RUNNING ->
  kill_fails E (length (trace w))
    (pid (record_at (process_records (globals w)) i)) SIGSTOP = true ->
  exec (scheduler E) w
  = {| globals := globals w;
       trace := trace w
                ++ [EvKill (pid (record_at (process_records (globals w)) i))
                      SIGSTOP (-1);
                    EvPrint Stderr Scheduler_first_kill_failed] |}
  /\ classify Scheduler_first_kill_failed = Some SignalFailed.
Proof.
  intros Hinv Hi Hrun Hfail. split; [|reflexivity].
  assert (i = running_process_index (globals w)) as Heq
    by (destruct Hinv as (_ & _ & Hs); by apply Hs).
  unfold exec, scheduler. mrun. rewrite <- Heq.
  unfold in_table in Hi. rewrite (proj2 (Z.leb_le _ _)) by lia.
  rewrite Hfail. simpl. by rewrite <- app_assoc.
Qed.

Lemma C5_scheduler_aborts_on_failed_suspend_witness :
  exec (scheduler suspend_fails) one_worker
  = {| globals := globals one_worker;
       trace := trace one_worker
                ++ [EvKill 100 SIGSTOP (-1);
                    EvPrint Stderr Scheduler_first_kill_failed] |}.
Proof.
  refine (proj1
    (C5_scheduler_aborts_on_failed_suspend suspend_fails one_worker 0 _ _ _ _)).
  - apply perform_run_inv. exact initial_inv.
  - unfold in_table, MAX_PROCESSES. lia.
  - vm_compute. reflexivity.
  - vm_compute. reflexivity.
Defined.

(** C6, as stated, fails where a pid of a [TERMINATED] record is in
    use again in an earlier record: record [5] is [TERMINATED] with
    pid [1030], and [kill 1030] signals the worker of record [0] and
    changes the table. *)
Lemma C6_kill_with_reused_pid :
  record_at (process_records (globals reuse_world)) 5
  = {| pid := 1030; status := TERMINATED; remaining_runtime := 5 |} /\
  record_at (process_records (globals reuse_world)) 0
  = {| pid := 1030; status := RUNNING; remaining_runtime := 5 |} /\
  kills (drop (length (trace reuse_world))
           (trace (exec (perform_kill recycling 1030) reuse_world)))
  = [(1030, SIGTERM); (1006, SIGCONT)] /\
  status (record_at (process_records
                       (globals (exec (perform_kill recycling 1030) reuse_world))) 0)
  = TERMINATED /\
  globals (exec (perform_kill recycling 1030) reuse_world) <> globals reuse_world.
Proof.
  repeat split; try (vm_compute; reflexivity).
  intros Heq. apply (f_equal running_process_index) in Heq.
  vm_compute in Heq. discriminate.
Qed.

(** C6, amended: when the first record that holds pid [v] is
    [TERMINATED], [kill v] prints that the process is already
    terminated, sends no signal and leaves the globals as they were. *)
Theorem C6_kill_terminated_is_rejected E w i v :
  in_table i -> 0 < v ->
  pid (record_at (process_records (globals w)) i) = v ->
  status (record_at (process_records (globals w)) i) = TERMINATED ->
  (forall j, 0 <= j < i -> pid (record_at (process_records (globals w)) j) <> v) ->
  exec (perform_kill E v) w
  = {| globals := globals w;
       trace := trace w ++ [EvPrint Stdout (Kill_already_terminated v)] |}
  /\ classify (Kill_already_terminated v) = Some InvalidState.
Proof.
  intros Hi Hpos Hpid Hst Hfirst. split; [|reflexivity].
  assert (find_pid v (process_records (globals w)) = i) as Hfind.
  { apply first_index_unique; [exact Hi|by apply Z.eqb_eq|].
    intros j Hj. apply Z.eqb_neq. by apply Hfirst. }
  unfold exec, perform_kill. rewrite (proj2 (Z.leb_gt _ _) Hpos). mrun.
  rewrite Hfind. unfold in_table in Hi. rewrite (proj2 (Z.ltb_ge _ _)) by lia.
  rewrite Hst. reflexivity.
Qed.

Lemma C6_kill_terminated_is_rejected_witness :
  exec (perform_kill quiet 7) all_terminated_world
  = {| globals := globals all_terminated_world;
       trace := [EvPrint Stdout (Kill_already_terminated 7)] |}.
Proof.
  refine (proj1
    (C6_kill_terminated_is_rejected quiet all_terminated_world 0 7 _ _ _ _ _)).
  - unfold in_table, MAX_PROCESSES. lia.
  - lia.
  - reflexivity.
  - reflexivity.
  - intros j Hj. lia.
Defined.

(** C7: the periodic accounting of [main] with a record running.  When
    no time has passed since the dispatch clock was set, it changes no
    remaining runtime and not the dispatch clock; and run twice at the
    same reading of the clock it leaves every remaining runtime, and the
    dispatch clock, as one run leaves them. *)
Theorem C7_accounting_idempotent E w :
  0 <= running_process_index (globals w) ->
  let once := exec (tick E) w in
  let twice := exec (tick E) once in
  (clock E (length (trace w)) - start_time (globals w) <= 0 ->
   process_records (globals once) = process_records (globals w) /\
   start_time (globals once) = start_time (globals w)) /\
  (clock E (length (trace once)) = clock E (length (trace w)) ->
   process_records (globals twice) = process_records (globals once) /\
   start_time (globals twice) = start_time (globals once) /\
   remaining_runtime
     (record_at (process_records (globals twice))
        (running_process_index (globals w)))
   = remaining_runtime
       (record_at (process_records (globals once))
          (running_process_index (globals w)))).
Proof.
  intros Hri once twice.
  assert (once = {| globals :=
                      fold_elapsed (running_process_index (globals w))
                        (clock E (length (trace w))) (globals w);
                    trace := trace w ++ [EvTime (clock E (length (trace w)))] |})
    as Honce.
  { subst once. unfold exec, tick. mrun.
    rewrite (proj2 (Z.leb_le _ _) Hri). by mrun. }
  split.
  - intros Hle. rewrite Honce. simpl.
    by destruct (fold_elapsed_no_time (globals w)
                   (running_process_index (globals w)) _ Hle) as (-> & -> & _).
  - intros Hsame.
    assert (twice = {| globals :=
                         fold_elapsed (running_process_index (globals once))
                           (clock E (length (trace w))) (globals once);
                       trace := trace once
                                ++ [EvTime (clock E (length (trace w)))] |})
      as Htwice.
    { assert ((0 <=? running_process_index (globals once)) = true) as Hri'.
      { apply Z.leb_le. rewrite Honce. simpl.
        by rewrite running_index_fold_elapsed. }
      subst twice. clearbody once. unfold exec, tick. mrun.
      rewrite Hri'. mrun. by rewrite Hsame. }
    rewrite Htwice. simpl. rewrite Honce. simpl.
    destruct (fold_elapsed_twice (globals w) (running_process_index (globals w))
                (running_process_index
                   (fold_elapsed (running_process_index (globals w))
                      (clock E (length (trace w))) (globals w)))
                (clock E (length (trace w)))) as (Hr & Hs).
    rewrite Hr, Hs. done.
Qed.

Lemma C7_accounting_idempotent_witness :
  remaining_runtime
    (record_at (process_records (globals (exec (tick clock_jumps) one_worker))) 0)
  = 1 /\
  process_records
    (globals (exec (tick clock_jumps) (exec (tick clock_jumps) one_worker)))
  = process_records (globals (exec (tick clock_jumps) one_worker)).
Proof.
  split; [vm_compute; reflexivity|].
  refine (proj1 (proj2 (C7_accounting_idempotent clock_jumps one_worker _) _)).
  - vm_compute. discriminate.
  - vm_compute. reflexivity.
Defined.

(** C8: [exit] sends [SIGTERM] to every record that is neither
    [UNUSED] nor [TERMINATED], in table order, and to no other; each of
    them ends [TERMINATED] whether its signal failed or not, a failed
    signal being followed by its diagnostic; then the exit message is
    printed and the loop of [main] is left. *)
Theorem C8_exit_terminates_every_active_record E w :
  full_size (globals w) ->
  let tbl := process_records (globals w) in
  let r := main_iteration E (Some CmdExit) w in
  let tbl' := process_records (globals r.2) in
  r.1 = true /\
  (forall j, in_table j ->
     record_at tbl' j
     = if is_active (record_at tbl j)
       then set_status TERMINATED (record_at tbl j)
       else record_at tbl j) /\
  exists evs,
    trace r.2 = trace w ++ evs ++ [EvPrint Stdout Exit_message] /\
    exit_log evs /\
    kills evs
    = (fun p => (pid p, SIGTERM)) <$> filter (fun p => is_active p = true) tbl.
Proof.
  intros Hl tbl r tbl'. subst r tbl'. unfold main_iteration, perform_exit, bind.
  unfold full_size in Hl.
  assert (take (Z.to_nat MAX_PROCESSES) (drop (Z.to_nat 0) tbl) = tbl) as Htake.
  { change (drop (Z.to_nat 0) tbl) with tbl. apply firstn_all2.
    unfold tbl. by rewrite Hl. }
  destruct (exit_loop_spec E (Z.to_nat MAX_PROCESSES) 0 w)
    as (_ & _ & _ & _ & Hrec & evs & Ht & Hlog & Hk); [lia|lia|].
  destruct (exit_loop E _ 0 w) as [[] w1]. simpl in Hrec, Ht. simpl.
  split; [reflexivity|]. split.
  - intros j Hj. unfold in_table in Hj. rewrite Hrec by lia.
    rewrite bool_decide_eq_true_2; [reflexivity|].
    rewrite Z2Nat.id by (unfold MAX_PROCESSES; lia). lia.
  - exists evs. split; [by rewrite Ht, <- app_assoc|]. split; [exact Hlog|].
    cbv zeta in Hk. fold tbl in Hk. by rewrite Hk, Htake.
Qed.

Lemma C8_exit_terminates_every_active_record_witness :
  (main_iteration term_fails (Some CmdExit) one_worker).1 = true /\
  status (record_at
            (process_records
               (globals (main_iteration term_fails (Some CmdExit) one_worker).2)) 0)
  = TERMINATED.
Proof.
  destruct (C8_exit_terminates_every_active_record term_fails one_worker)
    as (Hleft & Hrec & _).
  - reflexivity.
  - split; [exact Hleft|]. rewrite Hrec.
    + vm_compute. reflexivity.
    + unfold in_table, MAX_PROCESSES. lia.
Defined.

(** C10: when [fork] fails, [perform_run] has written nothing: the
    globals are as before, the record it had chosen is still [UNUSED]
    or [TERMINATED], and a later [run] chooses that record again. *)
Theorem C10_run_fork_failure_writes_nothing E args a1 a2 a3 w :
  full_size (globals w) ->
  arg args 1 = Some a1 -> arg args 2 = Some a2 -> arg args 3 = Some a3 ->
  0 < atoi a3 ->
  0 <= allocate_index (process_records (globals w)) ->
  fork_result E (length (trace w)) < 0 ->
  let i := allocate_index (process_records (globals w)) in
  let w' := exec (perform_run E args) w in
  w' = {| globals := globals w;
          trace := trace w ++ [EvFork (fork_result E (length (trace w)));
                               EvPrint Stderr Run_fork_failed] |} /\
  classify Run_fork_failed = Some SpawnFailed /\
  (status (record_at (process_records (globals w')) i) = UNUSED
   \/ status (record_at (process_records (globals w')) i) = TERMINATED) /\
  forall E' v, fork_result E' (length (trace w')) = v -> 0 < v ->
    run_stores w' (exec (perform_run E' args) w') i v.
Proof.
  intros Hl H1 H2 H3 Hb Hidx Hfork i w'.
  assert (w' = {| globals := globals w;
                  trace := trace w ++ [EvFork (fork_result E (length (trace w)));
                                       EvPrint Stderr Run_fork_failed] |}) as Hw'.
  { subst w'. unfold exec, perform_run. rewrite H1, H2, H3.
    rewrite (proj2 (Z.leb_gt _ _) Hb). mrun.
    rewrite (proj2 (Z.ltb_ge _ _) Hidx), (proj2 (Z.ltb_lt _ _) Hfork). simpl.
    by rewrite <- app_assoc. }
  split; [exact Hw'|]. split; [reflexivity|].
  rewrite Hw'. simpl. split.
  - by destruct (allocate_index_found _ _ eq_refl Hidx) as (_ & Hs).
  - intros E' v Hv Hpos.
    by apply (perform_run_stores E' args a1 a2 a3).
Qed.

Lemma C10_run_fork_failure_writes_nothing_witness :
  exec (perform_run fork_fails ["run"; "./w"; "a"; "5"]) initial_world
  = {| globals := initial_manager;
       trace := [EvFork (-1); EvPrint Stderr Run_fork_failed] |}.
Proof.
  refine (proj1
    (C10_run_fork_failure_writes_nothing fork_fails ["run"; "./w"; "a"; "5"]
       "./w" "a" "5" initial_world _ _ _ _ _ _ _)).
  - reflexivity.
  - reflexivity.
  - reflexivity.
  - reflexivity.
  - vm_compute. reflexivity.
  - vm_compute. discriminate.
  - simpl. lia.
Defined.

(** * Further properties *)

(** ** [get_input] *)

Section GetInput.

Local Open Scope string_scope.

Lemma string_app_cons c (s t : string) : String c s ++ t = String c (s ++ t).
Proof. reflexivity. Qed.

Lemma string_length_app (s t : string) :
  String.length (s ++ t) = (String.length s + String.length t)%nat.
Proof.
  induction s as [|c s IH]; [reflexivity|].
  rewrite string_app_cons. simpl. by rewrite IH.
Qed.

Lemma string_app_assoc (s t u : string) : (s ++ t) ++ u = s ++ (t ++ u).
Proof.
  induction s as [|c s IH]; [reflexivity|].
  rewrite !string_app_cons. by f_equal.
Qed.

Lemma all_chars_app test (s t : string) :
  all_chars test (s ++ t) = all_chars test s && all_chars test t.
Proof.
  induction s as [|c s IH]; [reflexivity|].
  rewrite string_app_cons. simpl. by rewrite IH, andb_assoc.
Qed.

Lemma skip_delimiters_length s :
  (String.length (skip_delimiters s) <= String.length s)%nat.
Proof.
  induction s as [|c s IH]; simpl; [lia|].
  destruct (is_delimiter c); simpl; lia.
Qed.

Lemma skip_delimiters_chars test s :
  all_chars test s = true -> all_chars test (skip_delimiters s) = true.
Proof.
  induction s as [|c s IH]; simpl; [done|].
  intros [Hc Hs]%andb_prop. destruct (is_delimiter c); [by apply IH|].
  simpl. by rewrite Hc, Hs.
Qed.

Lemma scan_token_length s :
  (String.length (scan_token s).2 <= String.length s)%nat.
Proof.
  induction s as [|c s IH]; simpl; [lia|].
  destruct (is_delimiter c); simpl; [lia|].
  destruct (scan_token s) as [token behind]. simpl in *. lia.
Qed.

Lemma scan_token_shorter c s :
  (String.length (scan_token (String c s)).2 < String.length (String c s))%nat.
Proof.
  simpl. destruct (is_delimiter c); simpl; [lia|].
  pose proof (scan_token_length s) as H.
  destruct (scan_token s) as [token behind]. simpl in *. lia.
Qed.

Lemma scan_token_chars test s :
  all_chars test s = true ->
  all_chars test (scan_token s).1 = true /\
  all_chars test (scan_token s).2 = true /\
  all_chars (fun c => negb (is_delimiter c)) (scan_token s).1 = true.
Proof.
  induction s as [|c s IH]; simpl; [done|].
  intros [Hc Hs]%andb_prop. destruct (is_delimiter c) eqn:Hd; simpl; [done|].
  destruct (IH Hs) as (H1 & H2 & H3).
  destruct (scan_token s) as [token behind]. simpl in *.
  by rewrite Hc, H1, H2, H3, Hd.
Qed.

Lemma skip_delimiters_head s c s' :
  skip_delimiters s = String c s' -> is_delimiter c = false.
Proof.
  induction s as [|c0 s0 IH]; simpl; [done|].
  destruct (is_delimiter c0) eqn:Hd; [exact IH|]. by intros [= <- _].
Qed.

(** What [strtok] returns: a non-empty token without delimiters, made
    of characters of the string, and a strictly shorter rest. *)
Lemma strtok_spec test s token behind :
  strtok s = Some (token, behind) ->
  all_chars test s = true ->
  token <> "" /\
  all_chars (fun c => negb (is_delimiter c)) token = true /\
  all_chars test token = true /\ all_chars test behind = true /\
  (String.length behind < String.length s)%nat.
Proof.
  unfold strtok. intros Htok Hall.
  pose proof (skip_delimiters_length s) as Hlen.
  pose proof (skip_delimiters_chars test s Hall) as Hc.
  destruct (skip_delimiters s) as [|c s'] eqn:Hskip; [done|].
  pose proof (skip_delimiters_head _ _ _ Hskip) as Hd.
  pose proof (scan_token_shorter c s') as Hshort.
  destruct (scan_token_chars test _ Hc) as (H1 & H2 & H3).
  assert ((scan_token (String c s')).1 <> "") as Hne.
  { simpl. rewrite Hd. by destruct (scan_token s'). }
  destruct (scan_token (String c s')) as [tk bh]. injection Htok as -> ->.
  simpl in *. repeat split; try done. lia.
Qed.

Lemma is_word_intro token :
  token <> "" ->
  all_chars (fun c => negb (is_delimiter c)) token = true ->
  all_chars (fun c => negb (ends_line c)) token = true ->
  is_word token = true.
Proof.
  intros Hne Hd He. unfold is_word.
  apply andb_true_intro. split.
  - apply negb_true_iff. by apply String.eqb_neq.
  - clear Hne. induction token as [|c t IH]; simpl in *; [done|].
    apply andb_prop in Hd as [Hd1 Hd2]. apply andb_prop in He as [He1 He2].
    unfold word_char at 1. rewrite Hd1, He1. simpl. by apply IH.
Qed.

Lemma cut_line_chars buffer :
  all_chars (fun c => negb (ends_line c)) (cut_line buffer) = true.
Proof.
  induction buffer as [|c s IH]; simpl; [done|].
  destruct (ends_line c) eqn:He; simpl; [done|]. by rewrite He, IH.
Qed.

Lemma get_input_loop_words fuel arg_cnt m p :
  (forall token behind, p = Some (token, behind) ->
     token <> "" /\
     all_chars (fun c => negb (is_delimiter c)) token = true /\
     all_chars (fun c => negb (ends_line c)) token = true /\
     all_chars (fun c => negb (ends_line c)) behind = true) ->
  forallb is_word (get_input_loop fuel arg_cnt m p) = true.
Proof.
  revert arg_cnt p. induction fuel as [|fuel IH]; intros arg_cnt p Hp; [done|].
  simpl. destruct p as [[token behind]|]; [|done].
  destruct (Hp token behind eq_refl) as (Hne & Hd & He & Hb).
  simpl. rewrite is_word_intro by done. simpl.
  destruct (arg_cnt + 1 =? m - 1)%Z; [done|]. apply IH.
  intros token' behind' Htok.
  destruct (strtok_spec _ _ _ _ Htok Hb) as (H1 & H2 & H3 & H4 & _). done.
Qed.

Lemma get_input_loop_length fuel arg_cnt m p :
  arg_cnt < m - 1 ->
  Z.of_nat (length (get_input_loop fuel arg_cnt m p)) <= m - 1 - arg_cnt.
Proof.
  revert arg_cnt p. induction fuel as [|fuel IH]; intros arg_cnt p Hlt;
    simpl; [lia|].
  destruct p as [[token behind]|]; simpl; [|lia].
  destruct (arg_cnt + 1 =? m - 1)%Z eqn:Heq; simpl; [lia|].
  apply Z.eqb_neq in Heq.
  specialize (IH (arg_cnt + 1) (strtok behind)). lia.
Qed.

End GetInput.

(** X1: whatever the buffer holds, every token [get_input] stores is a
    non-empty string with no space, no carriage return, no line feed
    and no null character in it. *)
Theorem X1_get_input_tokens_are_words buffer args_count_max :
  forallb is_word (get_input buffer args_count_max) = true.
Proof.
  unfold get_input. apply get_input_loop_words.
  intros token behind Htok.
  assert (all_chars (fun c => negb (ends_line c)) (cut_line buffer ++ " ")%string
          = true) as Hall.
  { rewrite all_chars_app, cut_line_chars. reflexivity. }
  destruct (strtok_spec _ _ _ _ Htok Hall) as (H1 & H2 & H3 & H4 & _). done.
Qed.

(** X2: with room for at least two entries, [get_input] stores at most
    [args_count_max - 1] tokens, so the null entry behind them is
    inside the array. *)
Theorem X2_get_input_count_bounded buffer args_count_max :
  2 <= args_count_max ->
  Z.of_nat (length (get_input buffer args_count_max)) <= args_count_max - 1.
Proof.
  intros Hmax. unfold get_input.
  pose proof (get_input_loop_length
    (S (String.length (cut_line buffer ++ " ")%string)) 0 args_count_max
    (strtok (cut_line buffer ++ " ")%string)) as H. lia.
Qed.

Lemma X2_get_input_count_bounded_witness :
  Z.of_nat (length (get_input "a b c d e f g h i j k l" 10)) <= 10 - 1.
Proof.
  apply (X2_get_input_count_bounded "a b c d e f g h i j k l" 10). lia.
Defined.

Section GetInputRoundTrip.

Local Open Scope string_scope.

Lemma is_word_elim t :
  is_word t = true ->
  t <> "" /\
  all_chars (fun c => negb (is_delimiter c)) t = true /\
  all_chars (fun c => negb (ends_line c)) t = true.
Proof.
  unfold is_word. intros [Hne Hall]%andb_prop.
  split; [apply String.eqb_neq; by apply negb_true_iff|].
  clear Hne. induction t as [|c t IH]; simpl in *; [done|].
  apply andb_prop in Hall as [Hc Ht]. unfold word_char in Hc.
  apply andb_prop in Hc as [Hd He]. destruct (IH Ht) as [IH1 IH2].
  by rewrite Hd, He, IH1, IH2.
Qed.

Lemma cut_line_app w tail :
  all_chars (fun c => negb (ends_line c)) w = true -> line_end tail = true ->
  cut_line (w ++ tail) = w.
Proof.
  intros Hw Htail. induction w as [|c w IH].
  - destruct tail as [|c t]; [reflexivity|]. simpl in *. by rewrite Htail.
  - rewrite string_app_cons. simpl in *. apply andb_prop in Hw as [Hc Hw].
    apply negb_true_iff in Hc. rewrite Hc. f_equal. by apply IH.
Qed.

Lemma concat_words_chars ts :
  forallb is_word ts = true ->
  all_chars (fun c => negb (ends_line c)) (String.concat " " ts) = true.
Proof.
  induction ts as [|t ts IH]; simpl; [done|].
  intros [Ht Hts]%andb_prop. destruct (is_word_elim t Ht) as (_ & _ & He).
  destruct ts as [|t' ts']; [exact He|].
  rewrite !all_chars_app, He, (IH Hts). reflexivity.
Qed.

Lemma concat_spaced ts : ts <> [] -> String.concat " " ts ++ " " = spaced ts.
Proof.
  induction ts as [|t ts IH]; [done|]. intros _. simpl.
  destruct ts as [|t' ts']; [reflexivity|].
  rewrite !string_app_assoc. do 2 f_equal. by apply IH.
Qed.

Lemma spaced_length_cons t ts :
  (String.length (spaced ts) < String.length (spaced (t :: ts)))%nat.
Proof. simpl. rewrite !string_length_app. simpl. lia. Qed.

Lemma scan_token_word t r :
  all_chars (fun c => negb (is_delimiter c)) t = true ->
  scan_token (t ++ " " ++ r) = (t, r).
Proof.
  intros Ht. induction t as [|c t IH]; [reflexivity|].
  rewrite string_app_cons. simpl in *. apply andb_prop in Ht as [Hc Ht].
  apply negb_true_iff in Hc. by rewrite Hc, (IH Ht).
Qed.

Lemma strtok_word t r :
  is_word t = true -> strtok (t ++ " " ++ r) = Some (t, r).
Proof.
  intros Hw. destruct (is_word_elim t Hw) as (Hne & Hd & _).
  unfold strtok. destruct t as [|c t]; [done|].
  assert (skip_delimiters (String c t ++ " " ++ r) = String c t ++ " " ++ r)
    as ->.
  { rewrite string_app_cons. simpl in *. apply andb_prop in Hd as [Hc _].
    apply negb_true_iff in Hc. by rewrite Hc. }
  change (Some (scan_token (String c t ++ " " ++ r)) = Some (String c t, r)).
  by rewrite scan_token_word.
Qed.

Lemma get_input_loop_spaced ts fuel arg_cnt m :
  forallb is_word ts = true -> arg_cnt < m - 1 ->
  (String.length (spaced ts) < fuel)%nat ->
  get_input_loop fuel arg_cnt m (strtok (spaced ts))
  = take (Z.to_nat (m - 1 - arg_cnt)) ts.
Proof.
  revert fuel arg_cnt. induction ts as [|t ts IH]; intros fuel arg_cnt Hw Hcnt Hfuel.
  - destruct fuel; simpl; by rewrite take_nil.
  - simpl in Hw. apply andb_prop in Hw as [Ht Hts].
    pose proof (spaced_length_cons t ts) as Hlen.
    destruct fuel as [|fuel]; [lia|].
    change (spaced (t :: ts)) with (t ++ " " ++ spaced ts).
    rewrite strtok_word by exact Ht. simpl.
    replace (Z.to_nat (m - 1 - arg_cnt)) with (S (Z.to_nat (m - 1 - (arg_cnt + 1))))
      by lia.
    simpl. f_equal.
    destruct (arg_cnt + 1 =? m - 1)%Z eqn:Heq.
    + apply Z.eqb_eq in Heq. replace (m - 1 - (arg_cnt + 1))%Z with 0%Z by lia.
      reflexivity.
    + apply Z.eqb_neq in Heq. apply IH; [exact Hts|lia|lia].
Qed.

End GetInputRoundTrip.

(** X3: a buffer that holds words separated by single spaces, followed
    by nothing or by a line end and anything, is split into exactly
    those words, up to the [args_count_max - 1] that fit; the words
    behind that and everything behind the line end are dropped. *)
Theorem X3_get_input_splits_words ts tail args_count_max :
  forallb is_word ts = true -> line_end tail = true -> 2 <= args_count_max ->
  get_input (String.concat " " ts ++ tail)%string args_count_max
  = take (Z.to_nat (args_count_max - 1)) ts.
Proof.
  intros Hw Htail Hmax. unfold get_input.
  rewrite cut_line_app by (by apply concat_words_chars || done).
  destruct ts as [|t ts'].
  - simpl. by rewrite take_nil.
  - rewrite concat_spaced by done.
    rewrite get_input_loop_spaced; [|exact Hw|lia|lia].
    by rewrite Z.sub_0_r.
Qed.

Lemma X3_get_input_splits_words_witness :
  get_input (String.concat " " ["run"; "./w"; "a"; "10"]
             ++ String (ascii_of_nat 10) "junk")%string 10
  = take (Z.to_nat (10 - 1)) ["run"; "./w"; "a"; "10"].
Proof.
  apply (X3_get_input_splits_words ["run"; "./w"; "a"; "10"]
           (String (ascii_of_nat 10) "junk") 10).
  - vm_compute. reflexivity.
  - vm_compute. reflexivity.
  - lia.
Defined.

(** ** [initialise_process_records] *)

Lemma foldl_alter_seqZ f k a (tbl : list process_record) j :
  0 <= a -> 0 <= j -> a + Z.of_nat k <= Z.of_nat (length tbl) ->
  record_at (foldl (fun t i => alter f (Z.to_nat i) t) tbl (seqZ a (Z.of_nat k))) j
  = if bool_decide (a <= j < a + Z.of_nat k) then f (record_at tbl j)
    else record_at tbl j.
Proof.
  revert a tbl. induction k as [|k IH]; intros a tbl Ha Hj Hlen.
  - simpl. rewrite bool_decide_eq_false_2 by lia. reflexivity.
  - rewrite seqZ_cons by lia. simpl.
    replace (Z.pred (Z.of_nat (S k))) with (Z.of_nat k) by lia.
    rewrite IH; [|lia|lia|rewrite length_alter; lia].
    destruct (decide (j = a)) as [->|Hne].
    + rewrite bool_decide_eq_false_2 by lia.
      rewrite bool_decide_eq_true_2 by lia.
      apply record_at_alter_eq. lia.
    + rewrite record_at_alter_ne by lia.
      by rewrite (bool_decide_ext (Z.succ a <= j < Z.succ a + Z.of_nat k)
                    (a <= j < a + Z.of_nat (S k))) by lia.
Qed.

Lemma foldl_alter_length f (tbl : list process_record) (l : list Z) :
  length (foldl (fun t i => alter f (Z.to_nat i) t) tbl l) = length tbl.
Proof.
  revert tbl. induction l as [|i l IH]; intros tbl; simpl; [reflexivity|].
  by rewrite IH, length_alter.
Qed.

(** X4: on a table of [MAX_PROCESSES] records, whatever they hold,
    [initialise_process_records] keeps the size, makes every status
    [UNUSED] and leaves every pid and remaining runtime as it was. *)
Theorem X4_initialise_marks_all_unused (tbl : list process_record) :
  length tbl = Z.to_nat MAX_PROCESSES ->
  length (initialise_process_records tbl) = Z.to_nat MAX_PROCESSES /\
  forall j, in_table j ->
    record_at (initialise_process_records tbl) j
    = set_status UNUSED (record_at tbl j).
Proof.
  intros Hl. unfold initialise_process_records.
  split; [by rewrite foldl_alter_length|].
  intros j Hj. unfold in_table in Hj.
  change MAX_PROCESSES with (Z.of_nat 64) at 1.
  rewrite foldl_alter_seqZ; [|lia|lia|rewrite Hl; unfold MAX_PROCESSES; lia].
  rewrite bool_decide_eq_true_2; [reflexivity|]. unfold MAX_PROCESSES in Hj. lia.
Qed.

Lemma X4_initialise_marks_all_unused_witness :
  record_at (initialise_process_records sjf_example_table) 1
  = set_status UNUSED (record_at sjf_example_table 1).
Proof.
  refine (proj2 (X4_initialise_marks_all_unused sjf_example_table _) 1 _).
  - reflexivity.
  - unfold in_table, MAX_PROCESSES. lia.
Defined.

(** ** [find_min_runtime_process] *)

(** X5: when some [READY] record has less than [INT_MAX] left,
    [find_min_runtime_process] returns a [READY] record of the table
    whose remaining runtime is at most that of every [READY] record
    and strictly less than that of every [READY] record before it. *)
Theorem X5_find_min_picks_first_least_ready tbl k :
  in_table k -> ready_at tbl k -> remaining_runtime (record_at tbl k) < INT_MAX ->
  let r := find_min_runtime_process tbl in
  in_table r /\ ready_at tbl r /\
  (forall j, in_table j -> ready_at tbl j ->
     remaining_runtime (record_at tbl r) <= remaining_runtime (record_at tbl j)) /\
  (forall j, 0 <= j < r -> ready_at tbl j ->
     remaining_runtime (record_at tbl r) < remaining_runtime (record_at tbl j)).
Proof. apply find_min_runtime_process_below_INT_MAX. Qed.

Lemma X5_find_min_picks_first_least_ready_witness :
  in_table (find_min_runtime_process sjf_example_table) /\
  ready_at sjf_example_table (find_min_runtime_process sjf_example_table).
Proof.
  destruct (X5_find_min_picks_first_least_ready sjf_example_table 0)
    as (Hi & Hr & _).
  - unfold in_table, MAX_PROCESSES. lia.
  - reflexivity.
  - vm_compute. reflexivity.
  - split; [exact Hi|exact Hr].
Defined.

(** X6: [find_min_runtime_process] returns [-1] or the index of a
    [READY] record of the table, never a record in another status; and
    it returns [-1] exactly when no [READY] record has less than
    [INT_MAX] left. *)
Theorem X6_find_min_returns_ready_or_none tbl :
  let r := find_min_runtime_process tbl in
  (r = -1 \/ (in_table r /\ ready_at tbl r)) /\
  (r = -1 <->
   forall j, in_table j -> ready_at tbl j ->
     INT_MAX <= remaining_runtime (record_at tbl j)).
Proof.
  destruct (find_min_runtime_process_spec tbl)
    as [[Hr Hall]|(Hi & Hrd & Hlt & _)]; cbv zeta.
  - split; [by left|]. split; [done|by intros _].
  - split; [by right|]. split.
    + intros Hr. unfold in_table in Hi. lia.
    + intros Hall. specialize (Hall _ Hi Hrd). lia.
Qed.

(** ** [perform_list] *)

Lemma list_loop_spec n i found w :
  0 <= i -> i + Z.of_nat n <= Z.of_nat (length (process_records (globals w))) ->
  let r := list_loop n i found w in
  let listed := filter (fun p => is_listed p = true)
                  (take n (drop (Z.to_nat i) (process_records (globals w)))) in
  globals r.2 = globals w /\
  trace r.2 = trace w ++ (list_line <$> listed) /\
  r.1 = found || bool_decide (listed <> []).
Proof.
  revert i found w. induction n as [|n IH]; intros i found w Hi Hlen.
  - simpl. rewrite app_nil_r, orb_false_r. done.
  - simpl. mrun. fold (is_listed (record_at (process_records (globals w)) i)).
    rewrite (drop_S _ (record_at (process_records (globals w)) i))
      by (apply record_at_lookup; lia).
    rewrite firstn_cons, filter_cons.
    destruct (is_listed (record_at (process_records (globals w)) i)) eqn:Hl.
    + rewrite decide_True by done. simpl.
      set (w1 := {| globals := globals w; trace := _ |}).
      destruct (IH (i + 1) true w1) as (Hg & Ht & Hf); [lia|simpl; lia|].
      simpl in Hg, Ht, Hf.
      rewrite Z2Nat.inj_add, Nat.add_1_r in Ht by lia.
      split; [exact Hg|]. split.
      * rewrite Ht. subst w1. simpl. by rewrite <- app_assoc.
      * rewrite Hf. simpl. by rewrite orb_true_r.
    + rewrite decide_False by done.
      destruct (IH (i + 1) found w) as (Hg & Ht & Hf); [lia|lia|].
      rewrite Z2Nat.inj_add, Nat.add_1_r in Ht, Hf by lia.
      done.
Qed.

(** X7: [perform_list] changes no global and prints, in table order,
    one line with pid and status code for every record that is not
    [UNUSED]; when there is none it prints the no-processes line
    instead. *)
Theorem X7_list_prints_used_records w :
  full_size (globals w) ->
  let listed := filter (fun p => is_listed p = true) (process_records (globals w)) in
  globals (exec perform_list w) = globals w /\
  trace (exec perform_list w)
  = trace w ++ (if bool_decide (listed = [])
                then [EvPrint Stdout List_no_processes]
                else list_line <$> listed).
Proof.
  intros Hl listed. unfold full_size in Hl. unfold exec, perform_list, bind.
  destruct (list_loop_spec (Z.to_nat MAX_PROCESSES) 0 false w)
    as (Hg & Ht & Hf); [lia|lia|].
  change (drop (Z.to_nat 0) (process_records (globals w)))
    with (process_records (globals w)) in Ht, Hf.
  rewrite firstn_all2 in Ht, Hf by (rewrite Hl; apply Nat.le_refl).
  fold listed in Ht, Hf.
  destruct (list_loop _ 0 false w) as [found w1].
  cbn [fst snd orb] in Hg, Ht, Hf |- *. subst found.
  destruct (decide (listed = [])) as [He|Hne].
  - rewrite (bool_decide_eq_false_2 (listed <> [])) by (intros H; by apply H).
    rewrite bool_decide_eq_true_2 by exact He.
    simpl. rewrite Hg, Ht, He. simpl. by rewrite app_nil_r.
  - rewrite (bool_decide_eq_true_2 (listed <> [])) by exact Hne.
    rewrite bool_decide_eq_false_2 by exact Hne. simpl. by rewrite Hg, Ht.
Qed.

Lemma X7_list_prints_used_records_witness :
  trace (exec perform_list two_workers)
  = trace two_workers
    ++ [EvPrint Stdout (List_entry 100 0); EvPrint Stdout (List_entry 106 1)].
Proof.
  refine (eq_trans (proj2 (X7_list_prints_used_records two_workers _)) _).
  - reflexivity.
  - vm_compute. reflexivity.
Defined.

(** ** [sigchld_handler] *)

Section Reaper.

Variable E : environment.
Implicit Types (w : world) (g : manager) (v i j : Z).

Lemma status_fold_elapsed_any g i t j :
  status (record_at (process_records (fold_elapsed i t g)) j)
  = status (record_at (process_records g) j).
Proof.
  unfold fold_elapsed. destruct (0 <? _); [|reflexivity].
  change (process_records (set_start_time t ?x)) with (process_records x).
  by rewrite (field_update_same status).
Qed.

(** What one round of the loop does to the world. *)
Lemma reap_cases v w :
  let i := find_pid v (process_records (globals w)) in
  let g1 := update_record i (set_status TERMINATED) (globals w) in
  (i < 0 /\ reap E v w = (tt, w)) \/
  (0 <= i /\ i <> running_process_index (globals w) /\
   reap E v w = (tt, {| globals := g1; trace := trace w |})) \/
  (0 <= i /\ i = running_process_index (globals w) /\
   reap E v w
   = (tt, {| globals :=
               set_running_process_index (-1)
                 (fold_elapsed i (clock E (length (trace w))) g1);
             trace := trace w ++ [EvTime (clock E (length (trace w)))] |})).
Proof.
  intros i g1. subst i g1. unfold reap. mrun.
  destruct (find_pid v (process_records (globals w)) <? 0) eqn:Hlt.
  - left. apply Z.ltb_lt in Hlt. split; [exact Hlt|]. by destruct w.
  - apply Z.ltb_ge in Hlt. right.
    destruct (find_pid v (process_records (globals w))
              =? running_process_index (globals w)) eqn:Heq.
    + apply Z.eqb_eq in Heq. right. done.
    + apply Z.eqb_neq in Heq. left. done.
Qed.

Lemma reap_frame v w :
  (exists evs, trace (reap E v w).2 = trace w ++ evs
               /\ forallb is_time evs = true) /\
  forall j,
    pid (record_at (process_records (globals (reap E v w).2)) j)
    = pid (record_at (process_records (globals w)) j) /\
    (status (record_at (process_records (globals (reap E v w).2)) j)
     = status (record_at (process_records (globals w)) j)
     \/ status (record_at (process_records (globals (reap E v w).2)) j)
        = TERMINATED).
Proof.
  destruct (reap_cases v w) as [(_ & ->)|[(_ & _ & ->)|(_ & _ & ->)]]; simpl.
  - split; [exists []; by rewrite app_nil_r|]. intros j. split; [done|by left].
  - split; [exists []; by rewrite app_nil_r|]. intros j.
    split; [by rewrite (field_alter_same pid)|].
    destruct (status_alter_cases (process_records (globals w)) TERMINATED
                (Z.to_nat (find_pid v (process_records (globals w)))) j)
      as [->| ->]; [by right|by left].
  - split; [by eexists|]. intros j.
    split.
    + unfold fold_elapsed. destruct (0 <? _); simpl;
        by rewrite ?(field_alter_same pid).
    + rewrite status_fold_elapsed_any.
      unfold update_record. simpl.
      destruct (status_alter_cases (process_records (globals w)) TERMINATED
                  (Z.to_nat (find_pid v (process_records (globals w)))) j)
        as [->| ->]; [by right|by left].
Qed.

Lemma sigchld_handler_frame results w :
  (exists evs, trace (sigchld_handler E results w).2 = trace w ++ evs
               /\ forallb is_time evs = true) /\
  forall j,
    pid (record_at (process_records (globals (sigchld_handler E results w).2)) j)
    = pid (record_at (process_records (globals w)) j) /\
    (status (record_at (process_records (globals (sigchld_handler E results w).2)) j)
     = status (record_at (process_records (globals w)) j)
     \/ status (record_at (process_records (globals (sigchld_handler E results w).2)) j)
        = TERMINATED).
Proof.
  revert w. induction results as [|v rest IH]; intros w; simpl.
  - split; [exists []; by rewrite app_nil_r|]. intros j. split; [done|by left].
  - destruct (0 <? v).
    + unfold bind. destruct (reap_frame v w) as ((evs1 & Ht1 & Hall1) & Hrec1).
      destruct (reap E v w) as [[] w1]. simpl in *.
      destruct (IH w1) as ((evs2 & Ht2 & Hall2) & Hrec2).
      split.
      * exists (evs1 ++ evs2). rewrite Ht2, Ht1, <- app_assoc.
        split; [done|]. by rewrite forallb_app, Hall1, Hall2.
      * intros j. destruct (Hrec1 j) as [Hp1 Hs1]. destruct (Hrec2 j) as [Hp2 Hs2].
        split; [congruence|].
        destruct Hs2 as [Hs2|Hs2]; [|by right].
        rewrite Hs2. exact Hs1.
    + split; [exists []; by rewrite app_nil_r|]. intros j. split; [done|by left].
Qed.

Lemma first_index_ext test n from (tbl1 tbl2 : list process_record) :
  (forall j, test (record_at tbl1 j) = test (record_at tbl2 j)) ->
  first_index n from test tbl1 = first_index n from test tbl2.
Proof.
  intros Hext. revert from. induction n as [|n IH]; intros from; simpl; [done|].
  by rewrite Hext, IH.
Qed.

Lemma find_pid_reap u v w :
  find_pid u (process_records (globals (reap E v w).2))
  = find_pid u (process_records (globals w)).
Proof.
  apply first_index_ext. intros j. unfold has_pid.
  by destruct (reap_frame v w) as (_ & Hrec); destruct (Hrec j) as [-> _].
Qed.

Lemma reap_terminates v w :
  full_size (globals w) -> 0 <= find_pid v (process_records (globals w)) ->
  status (record_at (process_records (globals (reap E v w).2))
            (find_pid v (process_records (globals w)))) = TERMINATED.
Proof.
  intros Hl Hi.
  destruct (first_index_found _ _ _ eq_refl Hi) as (Hin & _).
  fold (find_pid v (process_records (globals w))) in Hin.
  pose proof (status_at_update_eq (globals w) (set_status TERMINATED) _ Hl Hin)
    as Hst. unfold status_at in Hst.
  destruct (reap_cases v w) as [(Hneg & _)|[(_ & _ & ->)|(_ & _ & ->)]];
    [lia|exact Hst|]. simpl.
  change (status_at
            (fold_elapsed (find_pid v (process_records (globals w)))
               (clock E (length (trace w)))
               (update_record (find_pid v (process_records (globals w)))
                  (set_status TERMINATED) (globals w)))
            (find_pid v (process_records (globals w))) = TERMINATED).
  rewrite status_at_fold_elapsed by exact Hi. exact Hst.
Qed.

Lemma reap_full_size v w :
  full_size (globals w) -> full_size (globals (reap E v w).2).
Proof.
  intros Hl.
  destruct (reap_cases v w) as [(_ & ->)|[(_ & _ & ->)|(_ & _ & ->)]]; simpl.
  - exact Hl.
  - by apply full_size_update.
  - by apply full_size_set_running, full_size_fold_elapsed, full_size_update.
Qed.

End Reaper.

(** X8: a pass of [sigchld_handler] sends no signal and prints
    nothing (it only reads the clock), changes no pid, and changes a
    status only to [TERMINATED]. *)
Theorem X8_reaper_only_terminates E results w :
  (exists evs, trace (exec (sigchld_handler E results) w) = trace w ++ evs
               /\ forallb is_time evs = true) /\
  forall j,
    pid (record_at (process_records (globals (exec (sigchld_handler E results) w))) j)
    = pid (record_at (process_records (globals w)) j) /\
    (status (record_at (process_records
                          (globals (exec (sigchld_handler E results) w))) j)
     = status (record_at (process_records (globals w)) j)
     \/ status (record_at (process_records
                             (globals (exec (sigchld_handler E results) w))) j)
        = TERMINATED).
Proof. apply sigchld_handler_frame. Qed.

(** X9: after a pass of [sigchld_handler] over positive pids, the
    first record holding any of them is [TERMINATED], however many
    workers exited before the pass. *)
Theorem X9_reaper_terminates_every_reaped E results w v :
  full_size (globals w) -> Forall (fun u => 0 < u) results -> v ∈ results ->
  0 <= find_pid v (process_records (globals w)) ->
  status (record_at (process_records (globals (exec (sigchld_handler E results) w)))
            (find_pid v (process_records (globals w)))) = TERMINATED.
Proof.
  unfold exec. revert w. induction results as [|u rest IH];
    intros w Hl Hpos Hin Hfound; [by apply elem_of_nil in Hin|].
  apply Forall_cons in Hpos as [Hu Hrest]. simpl.
  rewrite (proj2 (Z.ltb_lt _ _) Hu). unfold bind.
  pose proof (reap_full_size E u w Hl) as Hl1.
  pose proof (find_pid_reap E v u w) as Hfind.
  pose proof (reap_terminates E u w Hl) as Hterm.
  destruct (reap E u w) as [[] w1]. simpl in *.
  apply elem_of_cons in Hin as [->|Hin].
  - destruct (sigchld_handler_frame E rest w1) as (_ & Hrec).
    destruct (Hrec (find_pid u (process_records (globals w)))) as [_ [Hs|Hs]];
      [|exact Hs]. rewrite Hs. by apply Hterm.
  - rewrite <- Hfind. apply IH; [exact Hl1|exact Hrest|exact Hin|].
    by rewrite Hfind.
Qed.

Lemma X9_reaper_terminates_every_reaped_witness :
  status (record_at
            (process_records
               (globals (exec (sigchld_handler late_clock [106; 100]) two_workers)))
            (find_pid 100 (process_records (globals two_workers)))) = TERMINATED.
Proof.
  apply (X9_reaper_terminates_every_reaped late_clock [106; 100] two_workers 100).
  - reflexivity.
  - repeat constructor.
  - apply elem_of_cons. right. apply elem_of_cons. by left.
  - vm_compute. discriminate.
Defined.

(** X10: pids that no record holds (children the table does not
    know) are ignored: the pass leaves the world as it was. *)
Theorem X10_reaper_ignores_unknown_pids E results w :
  Forall (fun u => find_pid u (process_records (globals w)) < 0) results ->
  exec (sigchld_handler E results) w = w.
Proof.
  unfold exec. induction results as [|u rest IH]; intros Hall; [done|].
  apply Forall_cons in Hall as [Hu Hrest]. simpl.
  destruct (0 <? u); [|done]. unfold bind.
  destruct (reap_cases E u w) as [(_ & ->)|[(Hpos & _)|(Hpos & _)]];
    [by apply IH|lia|lia].
Qed.

Lemma X10_reaper_ignores_unknown_pids_witness :
  exec (sigchld_handler late_clock [4711; 42]) two_workers = two_workers.
Proof.
  apply (X10_reaper_ignores_unknown_pids late_clock [4711; 42] two_workers).
  repeat constructor; vm_compute; reflexivity.
Defined.

(** X11: when the running worker is reaped, its record becomes
    [TERMINATED] and is charged the time since the dispatch clock was
    set, [running_process_index] is cleared, every other record is
    left as it was, and no signal is sent: the handler does not pick
    the next worker itself. *)
Theorem X11_reaper_clears_running_worker E w v now :
  table_inv (globals w) -> 0 < v ->
  0 <= running_process_index (globals w) ->
  find_pid v (process_records (globals w)) = running_process_index (globals w) ->
  clock E (length (trace w)) = now ->
  let r := running_process_index (globals w) in
  let w' := exec (sigchld_handler E [v]) w in
  running_process_index (globals w') = -1 /\
  record_at (process_records (globals w')) r
  = {| pid := v; status := TERMINATED;
       remaining_runtime :=
         if 0 <? now - start_time (globals w)
         then int_of_long (remaining_runtime (record_at (process_records (globals w)) r)
                           - (now - start_time (globals w)))
         else remaining_runtime (record_at (process_records (globals w)) r) |} /\
  (forall j, in_table j -> j <> r ->
     record_at (process_records (globals w')) j
     = record_at (process_records (globals w)) j) /\
  trace w' = trace w ++ [EvTime now].
Proof.
  intros Hinv Hv Hr Hfind Hnow r w'.
  pose proof (table_inv_full_size _ Hinv) as Hl.
  pose proof (table_inv_running_in_table _ Hinv Hr) as Hin. fold r in Hin.
  destruct (first_index_found _ _ _ Hfind Hr) as (_ & Hpid & _).
  apply Z.eqb_eq in Hpid. fold r in Hpid.
  assert (w' = {| globals :=
                    set_running_process_index (-1)
                      (fold_elapsed r now
                         (update_record r (set_status TERMINATED) (globals w)));
                  trace := trace w ++ [EvTime now] |}) as ->.
  { subst w'. unfold exec. simpl. rewrite (proj2 (Z.ltb_lt _ _) Hv). unfold bind.
    destruct (reap_cases E v w) as [(Hneg & _)|[(_ & Hne & _)|(_ & _ & ->)]].
    - rewrite Hfind in Hneg. lia.
    - by rewrite Hfind in Hne.
    - simpl. by rewrite Hfind, Hnow. }
  simpl. split; [reflexivity|]. split; [|split; [|reflexivity]].
  - assert (full_size (update_record r (set_status TERMINATED) (globals w)))
      as Hl1 by (by apply full_size_update).
    assert (record_at
              (process_records (update_record r (set_status TERMINATED) (globals w)))
              r
            = {| pid := v; status := TERMINATED;
                 remaining_runtime :=
                   remaining_runtime (record_at (process_records (globals w)) r) |})
      as Hrec.
    { rewrite record_at_update_eq by done. unfold set_status. by rewrite Hpid. }
    destruct (0 <? now - start_time (globals w)) eqn:Hlt.
    + apply Z.ltb_lt in Hlt. rewrite record_fold_elapsed_eq by done.
      rewrite Hrec. reflexivity.
    + apply Z.ltb_ge in Hlt.
      destruct (fold_elapsed_no_time
                  (update_record r (set_status TERMINATED) (globals w)) r now)
        as (-> & _); [exact Hlt|]. exact Hrec.
  - intros j Hj Hne. unfold in_table in Hj, Hin.
    rewrite record_fold_elapsed_ne by lia.
    by rewrite record_at_update_ne by lia.
Qed.

Lemma X11_reaper_clears_running_worker_witness :
  running_process_index (globals (exec (sigchld_handler late_clock [100]) two_workers))
  = -1.
Proof.
  refine (proj1 (X11_reaper_clears_running_worker late_clock two_workers 100 4
                   _ _ _ _ _)).
  - apply run_operations_inv; [|exact initial_inv].
    intros Hin. repeat (apply elem_of_cons in Hin as [Hin|Hin]; [discriminate|]).
    by apply elem_of_nil in Hin.
  - lia.
  - vm_compute. discriminate.
  - vm_compute. reflexivity.
  - vm_compute. reflexivity.
Defined.

(** ** [scheduler] *)

Section SchedulerCases.

Variable E : environment.
Implicit Types (w : world) (i j : Z).

(** The three ways the second part of [scheduler] ends. *)
Lemma dispatch_cases w :
  let m := find_min_runtime_process (process_records (globals w)) in
  let target := pid (record_at (process_records (globals w)) m) in
  let g1 := set_running_process_index m
              (update_record m (set_status RUNNING) (globals w)) in
  (m < 0 /\ dispatch E w = (tt, w)) \/
  (0 <= m /\ kill_fails E (length (trace w)) target SIGCONT = true /\
   dispatch E w
   = (tt, {| globals := g1;
             trace := trace w ++ [EvKill target SIGCONT (-1);
                                  EvPrint Stderr Scheduler_second_kill_failed] |}))
  \/
  (0 <= m /\ kill_fails E (length (trace w)) target SIGCONT = false /\
   dispatch E w
   = (tt, {| globals := set_start_time (clock E (S (length (trace w)))) g1;
             trace := trace w ++ [EvKill target SIGCONT 0;
                                  EvTime (clock E (S (length (trace w))))] |})).
Proof.
  intros m target g1. subst m target g1. unfold dispatch. mrun.
  destruct (find_min_runtime_process (process_records (globals w)) <? 0) eqn:Hlt.
  - left. apply Z.ltb_lt in Hlt. split; [exact Hlt|]. by destruct w.
  - apply Z.ltb_ge in Hlt. right.
    destruct (kill_fails E _ _ _) eqn:Hk; mrun.
    + left. split; [exact Hlt|]. split; [reflexivity|]. by rewrite <- app_assoc.
    + right. split; [exact Hlt|]. split; [reflexivity|].
      rewrite length_app, Nat.add_1_r. simpl. by rewrite <- app_assoc.
Qed.

Lemma scheduler_cases w :
  let i := running_process_index (globals w) in
  let target := pid (record_at (process_records (globals w)) i) in
  (i < 0 /\ scheduler E w = dispatch E w) \/
  (0 <= i /\ kill_fails E (length (trace w)) target SIGSTOP = true /\
   scheduler E w
   = (tt, {| globals := globals w;
             trace := trace w ++ [EvKill target SIGSTOP (-1);
                                  EvPrint Stderr Scheduler_first_kill_failed] |}))
  \/
  (0 <= i /\ kill_fails E (length (trace w)) target SIGSTOP = false /\
   scheduler E w = dispatch E (demoted E w)).
Proof.
  intros i target. subst i target. unfold scheduler, demoted. mrun.
  destruct (0 <=? running_process_index (globals w)) eqn:Hri.
  - apply Z.leb_le in Hri. right.
    destruct (kill_fails E _ _ _) eqn:Hk; mrun.
    + left. split; [exact Hri|]. split; [reflexivity|]. by rewrite <- app_assoc.
    + right. split; [exact Hri|]. split; [reflexivity|].
      rewrite length_app, Nat.add_1_r. simpl. by rewrite <- app_assoc.
  - apply Z.leb_gt in Hri. left. done.
Qed.



(** From an idle table the second part of [scheduler] leaves alone
    every record but the one it selects, and that one it only marks
    [RUNNING]. *)
Lemma dispatch_records w j :
  full_size (globals w) -> in_table j ->
  record_at (process_records (globals (dispatch E w).2)) j
  = if bool_decide (j = find_min_runtime_process (process_records (globals w)))
    then set_status RUNNING (record_at (process_records (globals w)) j)
    else record_at (process_records (globals w)) j.
Proof.
  intros Hl Hj.
  destruct (find_min_runtime_process_spec (process_records (globals w)))
    as [[Hm _]|(Hin & _)].
  - destruct (dispatch_cases w) as [(_ & ->)|[(Hpos & _)|(Hpos & _)]];
      [|lia|lia]. simpl. rewrite bool_decide_eq_false_2; [done|].
    unfold in_table in Hj. lia.
  - assert (record_at
              (process_records
                 (update_record
                    (find_min_runtime_process (process_records (globals w)))
                    (set_status RUNNING) (globals w))) j
            = if bool_decide
                   (j = find_min_runtime_process (process_records (globals w)))
              then set_status RUNNING (record_at (process_records (globals w)) j)
              else record_at (process_records (globals w)) j) as Hrec.
    { case_bool_decide as Heq.
      - rewrite Heq. by rewrite record_at_update_eq.
      - unfold in_table in Hin, Hj. by rewrite record_at_update_ne by lia. }
    destruct (dispatch_cases w) as [(Hneg & _)|[(_ & _ & ->)|(_ & _ & ->)]];
      [unfold in_table in Hin; lia|exact Hrec|exact Hrec].
Qed.

Lemma dispatch_running_index w :
  0 <= find_min_runtime_process (process_records (globals w)) ->
  running_process_index (globals (dispatch E w).2)
  = find_min_runtime_process (process_records (globals w)).
Proof.
  intros Hm.
  by destruct (dispatch_cases w) as [(Hneg & _)|[(_ & _ & ->)|(_ & _ & ->)]];
    [lia| |].
Qed.

Lemma dispatch_idle w :
  find_min_runtime_process (process_records (globals w)) < 0 ->
  dispatch E w = (tt, w).
Proof.
  intros Hm.
  by destruct (dispatch_cases w) as [(_ & ->)|[(Hpos & _)|(Hpos & _)]];
    [|lia|lia].
Qed.

End SchedulerCases.

Lemma scheduler_frame E w :
  table_inv (globals w) ->
  let tbl := process_records (globals w) in
  let tbl' := process_records (globals (scheduler E w).2) in
  (forall j, 0 <= j -> pid (record_at tbl' j) = pid (record_at tbl j)) /\
  (forall j, in_table j ->
     status (record_at tbl j) <> READY -> status (record_at tbl j) <> RUNNING ->
     record_at tbl' j = record_at tbl j).
Proof.
  intros Hinv tbl tbl'. subst tbl tbl'.
  split; [intros j Hj; by apply scheduler_pid|].
  intros j Hj Hnr Hnrun.
  pose proof (table_inv_full_size _ Hinv) as Hl.
  assert (forall w0, full_size (globals w0) ->
            status (record_at (process_records (globals w0)) j) <> READY ->
            record_at (process_records (globals (dispatch E w0).2)) j
            = record_at (process_records (globals w0)) j) as Hdisp.
  { intros w0 Hl0 Hn0. rewrite dispatch_records by done.
    case_bool_decide as Heq; [|done].
    destruct (find_min_runtime_process_spec (process_records (globals w0)))
      as [[Hm _]|(_ & Hrd & _)].
    - unfold in_table in Hj. lia.
    - rewrite <- Heq in Hrd. by destruct Hn0. }
  destruct (scheduler_cases E w) as [(_ & ->)|[(_ & _ & ->)|(Hri & _ & ->)]].
  - by apply Hdisp.
  - reflexivity.
  - assert (j <> running_process_index (globals w)) as Hne.
    { apply table_inv_not_running; done. }
    assert (record_at (process_records (globals (demoted E w))) j
            = record_at (process_records (globals w)) j) as Hdem.
    { unfold demoted. simpl. unfold in_table in Hj.
      rewrite record_at_alter_ne by lia.
      by rewrite record_fold_elapsed_ne by lia. }
    rewrite Hdisp; [exact Hdem| |by rewrite Hdem].
    unfold demoted. simpl.
    by apply full_size_set_running, full_size_update, full_size_fold_elapsed.
Qed.

(** X12: a scheduler pass changes no pid, and it leaves every record
    that is [STOPPED], [TERMINATED] or [UNUSED] exactly as it was. *)
Theorem X12_scheduler_leaves_other_records E w :
  table_inv (globals w) ->
  let tbl := process_records (globals w) in
  let tbl' := process_records (globals (exec (scheduler E) w)) in
  (forall j, 0 <= j -> pid (record_at tbl' j) = pid (record_at tbl j)) /\
  (forall j, in_table j ->
     status (record_at tbl j) <> READY -> status (record_at tbl j) <> RUNNING ->
     record_at tbl' j = record_at tbl j).
Proof. intros Hinv. unfold exec. by apply scheduler_frame. Qed.

Lemma X12_scheduler_leaves_other_records_witness :
  pid (record_at (process_records (globals (exec (scheduler late_clock) two_workers))) 1)
  = pid (record_at (process_records (globals two_workers)) 1) /\
  record_at (process_records (globals (exec (scheduler late_clock) two_workers))) 2
  = record_at (process_records (globals two_workers)) 2.
Proof.
  destruct (X12_scheduler_leaves_other_records late_clock two_workers)
    as (Hpid & Hrec).
  - apply run_operations_inv; [|exact initial_inv].
    intros Hin. repeat (apply elem_of_cons in Hin as [Hin|Hin]; [discriminate|]).
    by apply elem_of_nil in Hin.
  - split.
    + apply Hpid. lia.
    + apply Hrec.
      * unfold in_table, MAX_PROCESSES. lia.
      * vm_compute. discriminate.
      * vm_compute. discriminate.
Defined.

(** X13: with no running record and no [READY] record below
    [INT_MAX] (in particular with no [READY] record at all) a
    scheduler pass does nothing: no signal, no line, no change. *)
Theorem X13_scheduler_idle_without_candidate E w :
  running_process_index (globals w) < 0 ->
  (forall j, in_table j -> ready_at (process_records (globals w)) j ->
     INT_MAX <= remaining_runtime (record_at (process_records (globals w)) j)) ->
  exec (scheduler E) w = w.
Proof.
  intros Hri Hall. unfold exec.
  destruct (scheduler_cases E w) as [(_ & ->)|[(Hpos & _)|(Hpos & _)]];
    [|lia|lia].
  rewrite dispatch_idle; [reflexivity|].
  destruct (find_min_runtime_process_spec (process_records (globals w)))
    as [[-> _]|(Hin & Hrd & Hlt & _)]; [lia|].
  specialize (Hall _ Hin Hrd). lia.
Qed.

Lemma X13_scheduler_idle_without_candidate_witness :
  exec (scheduler quiet) initial_world = initial_world.
Proof.
  apply (X13_scheduler_idle_without_candidate quiet initial_world).
  - simpl. lia.
  - intros j Hj Hrd. unfold ready_at in Hrd.
    pose proof (initial_status j Hj) as Hs. unfold status_at in Hs.
    change (process_records (globals initial_world))
      with (process_records initial_manager) in Hrd.
    rewrite Hs in Hrd. discriminate.
Defined.



(** X15: from an idle table with a candidate, a scheduler pass marks
    the selected record [RUNNING] and names it in
    [running_process_index] whether its [SIGCONT] succeeds or not; it
    sends that one signal, changes nothing else in the table, and
    resets the dispatch clock only when the signal succeeded. *)
Theorem X15_scheduler_dispatch_from_idle E w m :
  full_size (globals w) -> running_process_index (globals w) < 0 ->
  find_min_runtime_process (process_records (globals w)) = m -> 0 <= m ->
  let target := pid (record_at (process_records (globals w)) m) in
  let failed := kill_fails E (length (trace w)) target SIGCONT in
  let w' := exec (scheduler E) w in
  running_process_index (globals w') = m /\
  (forall j, in_table j ->
     record_at (process_records (globals w')) j
     = if bool_decide (j = m)
       then set_status RUNNING (record_at (process_records (globals w)) j)
       else record_at (process_records (globals w)) j) /\
  kills (drop (length (trace w)) (trace w')) = [(target, SIGCONT)] /\
  start_time (globals w')
  = (if failed then start_time (globals w) else clock E (S (length (trace w)))).
Proof.
  intros Hl Hri Hm Hpos target failed w'. subst w' failed target. unfold exec.
  destruct (scheduler_cases E w) as [(_ & ->)|[(Hp & _)|(Hp & _)]]; [|lia|lia].
  split; [rewrite dispatch_running_index; lia|].
  split; [intros j Hj; rewrite dispatch_records by done; by rewrite Hm|].
  destruct (dispatch_cases E w) as [(Hneg & _)|[(_ & Hf & ->)|(_ & Hf & ->)]];
    [lia| |]; rewrite Hm in Hf |- *; rewrite Hf; simpl;
    by rewrite drop_app_length.
Qed.

Lemma X15_scheduler_dispatch_from_idle_witness :
  running_process_index
    (globals (exec (scheduler quiet)
                (exec (sigchld_handler late_clock [100]) two_workers))) = 1.
Proof.
  refine (proj1 (X15_scheduler_dispatch_from_idle quiet
                   (exec (sigchld_handler late_clock [100]) two_workers) 1
                   _ _ _ _)).
  - reflexivity.
  - vm_compute. reflexivity.
  - vm_compute. reflexivity.
  - lia.
Defined.
(** ** [perform_stop], [perform_resume], [perform_kill] *)

(** The record a positive pid is found in holds that pid. *)
Lemma find_pid_holds v (tbl : list process_record) i :
  find_pid v tbl = i -> 0 <= i -> in_table i /\ pid (record_at tbl i) = v.
Proof.
  intros Hfind Hi. destruct (first_index_found _ _ _ Hfind Hi) as (Hin & Hpid & _).
  split; [exact Hin|]. by apply Z.eqb_eq.
Qed.

(** X16: [stop] is refused, with one line and no change of any
    global, when the pid is not positive, when no record holds it,
    when the first record holding it is neither [RUNNING] nor [READY]
    (no signal is sent in these cases), and when the [SIGSTOP] fails. *)
Theorem X16_stop_rejections E w v :
  let tbl := process_records (globals w) in
  let i := find_pid v tbl in
  let say out m := {| globals := globals w;
                      trace := trace w ++ [EvPrint out m] |} in
  (v <= 0 -> exec (perform_stop E v) w = say Stdout Pid_not_positive) /\
  (0 < v -> i < 0 -> exec (perform_stop E v) w = say Stdout (Process_not_found v)) /\
  (0 < v -> 0 <= i ->
   status (record_at tbl i) <> RUNNING -> status (record_at tbl i) <> READY ->
   exec (perform_stop E v) w = say Stdout (Stop_not_running v)) /\
  (0 < v -> 0 <= i ->
   status (record_at tbl i) = RUNNING \/ status (record_at tbl i) = READY ->
   kill_fails E (length (trace w)) v SIGSTOP = true ->
   exec (perform_stop E v) w
   = {| globals := globals w;
        trace := trace w ++ [EvKill v SIGSTOP (-1);
                             EvPrint Stderr Stop_kill_failed] |}).
Proof.
  intros tbl i say. subst tbl i say. unfold exec, perform_stop.
  split; [|split; [|split]].
  - intros Hv. by rewrite (proj2 (Z.leb_le _ _) Hv).
  - intros Hv Hi. rewrite (proj2 (Z.leb_gt _ _) Hv). mrun.
    by rewrite (proj2 (Z.ltb_lt _ _) Hi).
  - intros Hv Hi Hn1 Hn2. rewrite (proj2 (Z.leb_gt _ _) Hv). mrun.
    rewrite (proj2 (Z.ltb_ge _ _) Hi).
    by rewrite !bool_decide_eq_false_2 by done.
  - intros Hv Hi Hst Hk. rewrite (proj2 (Z.leb_gt _ _) Hv). mrun.
    rewrite (proj2 (Z.ltb_ge _ _) Hi).
    destruct (find_pid_holds v _ _ eq_refl Hi) as (_ & Hpid).
    rewrite Hpid.
    destruct Hst as [-> | ->]; mrun; rewrite Hk; mrun; by rewrite <- app_assoc.
Qed.

Lemma X16_stop_rejections_witness :
  exec (perform_stop quiet 4711) two_workers
  = {| globals := globals two_workers;
       trace := trace two_workers ++ [EvPrint Stdout (Process_not_found 4711)] |}.
Proof.
  refine (proj1 (proj2 (X16_stop_rejections quiet two_workers 4711)) _ _).
  - lia.
  - vm_compute. reflexivity.
Defined.

(** X17: [stop] of a [READY] worker sends it one [SIGSTOP] and marks
    its record [STOPPED]; nothing else changes: the running worker is
    not touched and the scheduler is not called. *)
Theorem X17_stop_ready_worker E w v i :
  0 < v -> find_pid v (process_records (globals w)) = i -> 0 <= i ->
  status (record_at (process_records (globals w)) i) = READY ->
  i <> running_process_index (globals w) ->
  kill_fails E (length (trace w)) v SIGSTOP = false ->
  exec (perform_stop E v) w
  = {| globals := update_record i (set_status STOPPED) (globals w);
       trace := trace w ++ [EvKill v SIGSTOP 0] |}.
Proof.
  intros Hv Hfind Hi Hst Hne Hk. unfold exec, perform_stop.
  rewrite (proj2 (Z.leb_gt _ _) Hv). mrun.
  destruct (find_pid_holds v _ _ Hfind Hi) as (_ & Hpid).
  rewrite Hfind, (proj2 (Z.ltb_ge _ _) Hi), Hst, Hpid. mrun.
  rewrite Hk. mrun. by rewrite (proj2 (Z.eqb_neq _ _) Hne).
Qed.

Lemma X17_stop_ready_worker_witness :
  exec (perform_stop quiet 106) two_workers
  = {| globals := update_record 1 (set_status STOPPED) (globals two_workers);
       trace := trace two_workers ++ [EvKill 106 SIGSTOP 0] |}.
Proof.
  apply (X17_stop_ready_worker quiet two_workers 106 1).
  - lia.
  - vm_compute. reflexivity.
  - lia.
  - vm_compute. reflexivity.
  - vm_compute. discriminate.
  - reflexivity.
Defined.

Section StopKillRunning.

Variable E : environment.

(** [stop] and [kill] of the running worker, once the signal went
    through: the record takes its new status [s], is charged, the
    index is cleared and the scheduler runs. *)
Lemma leave_running_then_schedule w w1 i s t :
  table_inv (globals w) -> i = running_process_index (globals w) -> 0 <= i ->
  s <> RUNNING -> s <> READY ->
  globals w1
  = set_running_process_index (-1)
      (fold_elapsed i t (update_record i (set_status s) (globals w))) ->
  table_inv (globals (scheduler E w1).2) /\
  running_process_index (globals (scheduler E w1).2) <> i /\
  record_at (process_records (globals (scheduler E w1).2)) i
  = record_at (process_records (globals w1)) i /\
  status (record_at (process_records (globals (scheduler E w1).2)) i) = s.
Proof.
  intros Hinv Heq Hi Hs1 Hs2 Hg1.
  pose proof (table_inv_full_size _ Hinv) as Hl.
  assert (in_table i) as Hin
    by (rewrite Heq; apply table_inv_running_in_table; [done|lia]).
  assert (table_inv (globals w1)) as Hinv1.
  { rewrite Hg1.
    apply (table_inv_clear_running _ _ _ (fold_elapsed i t)); try done.
    - intros. by apply full_size_fold_elapsed.
    - intros. by apply status_at_fold_elapsed. }
  assert (status (record_at (process_records (globals w1)) i) = s) as Hst1.
  { rewrite Hg1. simpl. rewrite status_fold_elapsed_any.
    by rewrite record_at_update_eq. }
  pose proof (scheduler_inv E w1 Hinv1) as Hinv'.
  assert (status (record_at (process_records (globals w1)) i) <> READY) as Hn1
    by (rewrite Hst1; exact Hs2).
  assert (status (record_at (process_records (globals w1)) i) <> RUNNING) as Hn2
    by (rewrite Hst1; exact Hs1).
  pose proof (proj2 (scheduler_frame E w1 Hinv1) i Hin Hn1 Hn2) as Hrec.
  cbv zeta in Hrec.
  split; [exact Hinv'|]. split; [|split; [exact Hrec|by rewrite Hrec]].
  intros Hri. destruct Hinv' as (_ & _ & Hs').
  assert (status_at (globals (scheduler E w1).2) i = RUNNING) as Hrun
    by (by apply Hs').
  unfold status_at in Hrun. rewrite Hrec, Hst1 in Hrun. done.
Qed.

End StopKillRunning.

(** X18: [stop] of the running worker, when the [SIGSTOP] goes
    through: the record is [STOPPED] afterwards and charged the time
    it ran, the scheduler pass that follows does not pick it, and the
    table keeps its invariant. *)
Theorem X18_stop_running_worker E w v now :
  table_inv (globals w) -> 0 < v ->
  0 <= running_process_index (globals w) ->
  find_pid v (process_records (globals w)) = running_process_index (globals w) ->
  kill_fails E (length (trace w)) v SIGSTOP = false ->
  clock E (S (length (trace w))) = now ->
  let r := running_process_index (globals w) in
  let w' := exec (perform_stop E v) w in
  table_inv (globals w') /\
  running_process_index (globals w') <> r /\
  record_at (process_records (globals w')) r
  = {| pid := v; status := STOPPED;
       remaining_runtime :=
         if 0 <? now - start_time (globals w)
         then int_of_long (remaining_runtime (record_at (process_records (globals w)) r)
                           - (now - start_time (globals w)))
         else remaining_runtime (record_at (process_records (globals w)) r) |}.
Proof.
  intros Hinv Hv Hr Hfind Hk Hnow r w'.
  pose proof (table_inv_full_size _ Hinv) as Hl.
  destruct (find_pid_holds v _ _ Hfind Hr) as (Hin & Hpid).
  assert (status (record_at (process_records (globals w))
                    (running_process_index (globals w))) = RUNNING) as Hst.
  { destruct Hinv as (_ & _ & Hs). by apply Hs. }
  assert (w' = (scheduler E
                  {| globals :=
                       set_running_process_index (-1)
                         (fold_elapsed r now
                            (update_record r (set_status STOPPED) (globals w)));
                     trace := trace w ++ [EvKill v SIGSTOP 0; EvTime now] |}).2)
    as ->.
  { subst w' r. unfold exec, perform_stop. rewrite (proj2 (Z.leb_gt _ _) Hv). mrun.
    rewrite Hfind, (proj2 (Z.ltb_ge _ _) Hr), Hst, Hpid. mrun.
    rewrite Hk. mrun. rewrite Z.eqb_refl. mrun.
    rewrite length_app, Nat.add_1_r. simpl. rewrite Hnow.
    by rewrite <- app_assoc. }
  destruct (leave_running_then_schedule E w
              {| globals :=
                   set_running_process_index (-1)
                     (fold_elapsed r now
                        (update_record r (set_status STOPPED) (globals w)));
                 trace := trace w ++ [EvKill v SIGSTOP 0; EvTime now] |}
              r STOPPED now Hinv eq_refl Hr)
    as (Hinv' & Hne & Hrec & _); [discriminate|discriminate|reflexivity|].
  split; [exact Hinv'|]. split; [exact Hne|]. rewrite Hrec.
  change (record_at
            (process_records
               (fold_elapsed r now
                  (update_record r (set_status STOPPED) (globals w)))) r
          = {| pid := v; status := STOPPED;
               remaining_runtime :=
                 if 0 <? now - start_time (globals w)
                 then int_of_long
                        (remaining_runtime (record_at (process_records (globals w)) r)
                         - (now - start_time (globals w)))
                 else remaining_runtime (record_at (process_records (globals w)) r)
            |}).
  subst r.
  assert (full_size (update_record (running_process_index (globals w))
                       (set_status STOPPED) (globals w))) as Hl1
    by (by apply full_size_update).
  assert (record_at
            (process_records (update_record (running_process_index (globals w))
                                (set_status STOPPED) (globals w)))
            (running_process_index (globals w))
          = {| pid := v; status := STOPPED;
               remaining_runtime :=
                 remaining_runtime (record_at (process_records (globals w))
                                      (running_process_index (globals w))) |})
    as Hrec1.
  { rewrite record_at_update_eq by done. unfold set_status. by rewrite Hpid. }
  destruct (0 <? now - start_time (globals w)) eqn:Hlt.
  - apply Z.ltb_lt in Hlt. rewrite record_fold_elapsed_eq by done.
    rewrite Hrec1. reflexivity.
  - apply Z.ltb_ge in Hlt.
    destruct (fold_elapsed_no_time
                (update_record (running_process_index (globals w))
                   (set_status STOPPED) (globals w))
                (running_process_index (globals w)) now)
      as (-> & _); [exact Hlt|]. exact Hrec1.
Qed.

Lemma X18_stop_running_worker_witness :
  running_process_index (globals (exec (perform_stop late_clock 100) two_workers))
  <> running_process_index (globals two_workers).
Proof.
  refine (proj1 (proj2 (X18_stop_running_worker late_clock two_workers 100 4
                          _ _ _ _ _ _))).
  - apply run_operations_inv; [|exact initial_inv].
    intros Hin. repeat (apply elem_of_cons in Hin as [Hin|Hin]; [discriminate|]).
    by apply elem_of_nil in Hin.
  - lia.
  - vm_compute. discriminate.
  - vm_compute. reflexivity.
  - reflexivity.
  - vm_compute. reflexivity.
Defined.

(** X19: [resume] is refused, with one line, no signal and no change
    of any global, when the pid is not positive, when no record holds
    it, and when the first record holding it is not [STOPPED]. *)
Theorem X19_resume_rejections E w v :
  let tbl := process_records (globals w) in
  let i := find_pid v tbl in
  let say m := {| globals := globals w;
                  trace := trace w ++ [EvPrint Stdout m] |} in
  (v <= 0 -> exec (perform_resume E v) w = say Pid_not_positive) /\
  (0 < v -> i < 0 -> exec (perform_resume E v) w = say (Process_not_found v)) /\
  (0 < v -> 0 <= i -> status (record_at tbl i) <> STOPPED ->
   exec (perform_resume E v) w = say (Resume_not_stopped v)).
Proof.
  intros tbl i say. subst tbl i say. unfold exec, perform_resume.
  split; [|split].
  - intros Hv. by rewrite (proj2 (Z.leb_le _ _) Hv).
  - intros Hv Hi. rewrite (proj2 (Z.leb_gt _ _) Hv). mrun.
    by rewrite (proj2 (Z.ltb_lt _ _) Hi).
  - intros Hv Hi Hn. rewrite (proj2 (Z.leb_gt _ _) Hv). mrun.
    rewrite (proj2 (Z.ltb_ge _ _) Hi).
    by rewrite bool_decide_eq_false_2 by done.
Qed.

Lemma X19_resume_rejections_witness :
  exec (perform_resume quiet 106) two_workers
  = {| globals := globals two_workers;
       trace := trace two_workers ++ [EvPrint Stdout (Resume_not_stopped 106)] |}.
Proof.
  refine (proj2 (proj2 (X19_resume_rejections quiet two_workers 106)) _ _ _).
  - lia.
  - vm_compute. discriminate.
  - vm_compute. discriminate.
Defined.



(** X21: [kill] is refused, with no change of any global, when the
    pid is not positive and when no record holds it (no signal is
    sent); and when the [SIGTERM] fails the record keeps its status,
    so a worker that cannot be signalled stays in the table as it
    was. *)
Theorem X21_kill_rejections E w v :
  let tbl := process_records (globals w) in
  let i := find_pid v tbl in
  (v <= 0 ->
   exec (perform_kill E v) w
   = {| globals := globals w;
        trace := trace w ++ [EvPrint Stdout Pid_not_positive] |}) /\
  (0 < v -> i < 0 ->
   exec (perform_kill E v) w
   = {| globals := globals w;
        trace := trace w ++ [EvPrint Stdout (Process_not_found v)] |}) /\
  (0 < v -> 0 <= i -> status (record_at tbl i) <> TERMINATED ->
   kill_fails E (length (trace w)) v SIGTERM = true ->
   exec (perform_kill E v) w
   = {| globals := globals w;
        trace := trace w ++ [EvKill v SIGTERM (-1);
                             EvPrint Stderr Kill_kill_failed] |}).
Proof.
  intros tbl i. subst tbl i. unfold exec, perform_kill.
  split; [|split].
  - intros Hv. by rewrite (proj2 (Z.leb_le _ _) Hv).
  - intros Hv Hi. rewrite (proj2 (Z.leb_gt _ _) Hv). mrun.
    by rewrite (proj2 (Z.ltb_lt _ _) Hi).
  - intros Hv Hi Hn Hk. rewrite (proj2 (Z.leb_gt _ _) Hv). mrun.
    rewrite (proj2 (Z.ltb_ge _ _) Hi).
    destruct (find_pid_holds v _ _ eq_refl Hi) as (_ & Hpid).
    rewrite bool_decide_eq_true_2 by done. rewrite Hpid. mrun.
    rewrite Hk. mrun. by rewrite <- app_assoc.
Qed.

Lemma X21_kill_rejections_witness :
  exec (perform_kill term_fails 100) one_worker
  = {| globals := globals one_worker;
       trace := trace one_worker ++ [EvKill 100 SIGTERM (-1);
                                     EvPrint Stderr Kill_kill_failed] |}.
Proof.
  refine (proj2 (proj2 (X21_kill_rejections term_fails one_worker 100)) _ _ _ _).
  - lia.
  - vm_compute. discriminate.
  - vm_compute. discriminate.
  - reflexivity.
Defined.

(** X22: [kill] of the running worker, when the [SIGTERM] goes
    through: the record is [TERMINATED] afterwards, the scheduler pass
    that follows does not pick it, and the table keeps its
    invariant. *)
Theorem X22_kill_running_worker E w v :
  table_inv (globals w) -> 0 < v ->
  0 <= running_process_index (globals w) ->
  find_pid v (process_records (globals w)) = running_process_index (globals w) ->
  kill_fails E (length (trace w)) v SIGTERM = false ->
  let r := running_process_index (globals w) in
  let w' := exec (perform_kill E v) w in
  table_inv (globals w') /\
  running_process_index (globals w') <> r /\
  status (record_at (process_records (globals w')) r) = TERMINATED /\
  pid (record_at (process_records (globals w')) r) = v.
Proof.
  intros Hinv Hv Hr Hfind Hk r w'.
  pose proof (table_inv_full_size _ Hinv) as Hl.
  destruct (find_pid_holds v _ _ Hfind Hr) as (Hin & Hpid).
  assert (status (record_at (process_records (globals w))
                    (running_process_index (globals w))) = RUNNING) as Hst.
  { destruct Hinv as (_ & _ & Hs). by apply Hs. }
  assert (w' = (scheduler E
                  {| globals :=
                       set_running_process_index (-1)
                         (fold_elapsed r (clock E (S (length (trace w))))
                            (update_record r (set_status TERMINATED) (globals w)));
                     trace := trace w ++ [EvKill v SIGTERM 0;
                                          EvTime (clock E (S (length (trace w))))]
                  |}).2)
    as ->.
  { subst w' r. unfold exec, perform_kill. rewrite (proj2 (Z.leb_gt _ _) Hv). mrun.
    rewrite Hfind, (proj2 (Z.ltb_ge _ _) Hr), Hst, Hpid. mrun.
    rewrite Hk. mrun. rewrite Z.eqb_refl. mrun.
    rewrite length_app, Nat.add_1_r. simpl.
    by rewrite <- app_assoc. }
  destruct (leave_running_then_schedule E w
              {| globals :=
                   set_running_process_index (-1)
                     (fold_elapsed r (clock E (S (length (trace w))))
                        (update_record r (set_status TERMINATED) (globals w)));
                 trace := trace w ++ [EvKill v SIGTERM 0;
                                      EvTime (clock E (S (length (trace w))))] |}
              r TERMINATED (clock E (S (length (trace w)))) Hinv eq_refl Hr)
    as (Hinv' & Hne & Hrec & Hst');
    [discriminate|discriminate|reflexivity|].
  split; [exact Hinv'|]. split; [exact Hne|]. split; [exact Hst'|].
  rewrite scheduler_pid by exact Hr. simpl. rewrite pid_fold_elapsed by exact Hr.
  by rewrite (field_update_same pid).
Qed.

Lemma X22_kill_running_worker_witness :
  status (record_at
            (process_records (globals (exec (perform_kill late_clock 100) two_workers)))
            (running_process_index (globals two_workers))) = TERMINATED.
Proof.
  refine (proj1 (proj2 (proj2
    (X22_kill_running_worker late_clock two_workers 100 _ _ _ _ _)))).
  - apply run_operations_inv; [|exact initial_inv].
    intros Hin. repeat (apply elem_of_cons in Hin as [Hin|Hin]; [discriminate|]).
    by apply elem_of_nil in Hin.
  - lia.
  - vm_compute. discriminate.
  - vm_compute. reflexivity.
  - reflexivity.
Defined.

(** ** [perform_kill]: the charge *)

(** C9: [kill] of a found record that is not [TERMINATED], when the
    [SIGTERM] goes through and time has passed since the dispatch clock
    was set.  The killed record is charged the elapsed time whether it
    is the running one or not, and the dispatch clock is set to [now].
    Where the killed record is not the running one, nothing else
    happens: a record that is running is left as it was, so its next
    accounting charges it only the time after [now], not the time
    since its dispatch.  Where the killed record is the running one,
    the index leaves it and the scheduler pass that follows keeps the
    charge; the dispatch clock is [now] unless that pass resumes
    another worker, which sets the clock again. *)
Theorem C9_kill_charges_the_killed_record E w v i now :
  table_inv (globals w) ->
  0 < v -> find_pid v (process_records (globals w)) = i -> 0 <= i ->
  status (record_at (process_records (globals w)) i) <> TERMINATED ->
  kill_fails E (length (trace w)) v SIGTERM = false ->
  clock E (S (length (trace w))) = now ->
  0 < now - start_time (globals w) ->
  let g := globals w in
  let g' := globals (exec (perform_kill E v) w) in
  let r := running_process_index g in
  record_at (process_records g') i
  = {| pid := v; status := TERMINATED;
       remaining_runtime :=
         int_of_long (remaining_runtime (record_at (process_records g) i)
                      - (now - start_time g)) |} /\
  (i <> r ->
   start_time g' = now /\
   running_process_index g' = r /\
   (0 <= r ->
    record_at (process_records g') r = record_at (process_records g) r /\
    forall later, 0 < later - now ->
      remaining_runtime (record_at (process_records (fold_elapsed r later g')) r)
      = int_of_long (remaining_runtime (record_at (process_records g) r)
                     - (later - now)) /\
      remaining_runtime (record_at (process_records (fold_elapsed r later g)) r)
      = int_of_long (remaining_runtime (record_at (process_records g) r)
                     - (later - start_time g)))) /\
  (i = r ->
   running_process_index g' <> i /\
   (start_time g' = now \/
    0 <= running_process_index g' /\
    start_time g' = clock E (3 + length (trace w))%nat)).
Proof.
  intros Hinv Hv Hfind Hi Hst Hkill Hnow Hpos. cbv zeta.
  pose proof (table_inv_full_size _ Hinv) as Hl.
  destruct (find_pid_holds v _ _ Hfind Hi) as (Hin & Hpid).
  assert (full_size (update_record i (set_status TERMINATED) (globals w))) as Hl1
    by (by apply full_size_update).
  assert (record_at
            (process_records
               (fold_elapsed i now
                  (update_record i (set_status TERMINATED) (globals w)))) i
          = {| pid := v; status := TERMINATED;
               remaining_runtime :=
                 int_of_long
                   (remaining_runtime (record_at (process_records (globals w)) i)
                    - (now - start_time (globals w))) |}) as Hcharged.
  { rewrite record_fold_elapsed_eq by done.
    rewrite record_at_update_eq by done.
    unfold set_remaining_runtime, set_status. simpl. by rewrite Hpid. }
  destruct (decide (i = running_process_index (globals w))) as [Heq|Hne].
  - (* the killed record is the running one *)
    set (w1 := {| globals :=
                    set_running_process_index (-1)
                      (fold_elapsed i now
                         (update_record i (set_status TERMINATED) (globals w)));
                  trace := trace w ++ [EvKill v SIGTERM 0; EvTime now] |}).
    assert (exec (perform_kill E v) w = (scheduler E w1).2) as ->.
    { subst w1. unfold exec, perform_kill. rewrite (proj2 (Z.leb_gt _ _) Hv). mrun.
      rewrite Hfind, (proj2 (Z.ltb_ge _ _) Hi).
      rewrite bool_decide_eq_true_2 by exact Hst.
      rewrite Hpid, Hkill. mrun.
      rewrite (proj2 (Z.eqb_eq _ _) Heq). mrun.
      rewrite length_app, Nat.add_1_r. simpl. rewrite Hnow.
      by rewrite <- app_assoc. }
    destruct (leave_running_then_schedule E w w1 i TERMINATED now
                Hinv Heq Hi) as (Hinv' & Hleft & Hrec & _);
      [discriminate|discriminate|reflexivity|].
    split; [by rewrite Hrec|]. split; [done|]. intros _.
    split; [exact Hleft|].
    assert (start_time (globals w1) = now) as Hs1
      by (by apply fold_elapsed_start_time).
    destruct (scheduler_cases E w1) as [(_ & ->)|[(Hidx & _)|(Hidx & _)]];
      [|simpl in Hidx; lia|simpl in Hidx; lia].
    destruct (dispatch_cases E w1) as [(_ & ->)|[(_ & _ & ->)|(Hm & _ & ->)]].
    + by left.
    + by left.
    + right. simpl. split; [exact Hm|]. f_equal. rewrite length_app. simpl. lia.
  - (* another record, or none, is running *)
    assert (globals (exec (perform_kill E v) w)
            = fold_elapsed i now
                (update_record i (set_status TERMINATED) (globals w))) as Hg'.
    { unfold exec, perform_kill. rewrite (proj2 (Z.leb_gt _ _) Hv). mrun.
      rewrite Hfind, (proj2 (Z.ltb_ge _ _) Hi).
      rewrite bool_decide_eq_true_2 by exact Hst.
      rewrite Hpid, Hkill. simpl.
      rewrite (proj2 (Z.eqb_neq _ _) Hne). simpl.
      rewrite length_app, Nat.add_1_r. simpl. by rewrite Hnow. }
    rewrite Hg'. split; [exact Hcharged|]. split; [|done]. intros _.
    assert (start_time
              (fold_elapsed i now
                 (update_record i (set_status TERMINATED) (globals w))) = now)
      as Hstart by (by apply fold_elapsed_start_time).
    split; [exact Hstart|]. split; [by rewrite running_index_fold_elapsed|].
    intros Hr.
    pose proof (table_inv_running_in_table _ Hinv Hr) as Hrin.
    assert (record_at
              (process_records
                 (fold_elapsed i now
                    (update_record i (set_status TERMINATED) (globals w))))
              (running_process_index (globals w))
            = record_at (process_records (globals w))
                (running_process_index (globals w))) as Hrun.
    { unfold in_table in Hrin.
      rewrite record_fold_elapsed_ne by (done || lia).
      by rewrite record_at_update_ne by (done || lia). }
    split; [exact Hrun|]. intros later Hlater. split.
    + rewrite record_fold_elapsed_eq;
        [|by apply full_size_fold_elapsed|exact Hrin|lia].
      simpl. by rewrite Hrun, Hstart.
    + rewrite record_fold_elapsed_eq; [reflexivity|exact Hl|exact Hrin|lia].
Qed.

Lemma C9_kill_charges_the_killed_record_witness :
  (record_at (process_records (globals two_workers)) 1
   = {| pid := 106; status := READY; remaining_runtime := 9 |} /\
   record_at
     (process_records (globals (exec (perform_kill late_clock 106) two_workers))) 1
   = {| pid := 106; status := TERMINATED;
        remaining_runtime := int_of_long (9 - (4 - 0)) |}) /\
  (record_at (process_records (globals two_workers)) 0
   = {| pid := 100; status := RUNNING; remaining_runtime := 5 |} /\
   record_at
     (process_records (globals (exec (perform_kill late_clock 100) two_workers))) 0
   = {| pid := 100; status := TERMINATED;
        remaining_runtime := int_of_long (5 - (4 - 0)) |}).
Proof.
  assert (table_inv (globals two_workers)) as Hinv.
  { apply run_operations_inv; [|exact initial_inv].
    intros Hin. repeat (apply elem_of_cons in Hin as [Hin|Hin]; [discriminate|]).
    by apply elem_of_nil in Hin. }
  split; (split; [vm_compute; reflexivity|]).
  - refine (proj1
      (C9_kill_charges_the_killed_record late_clock two_workers 106 1 4
         Hinv _ _ _ _ _ _ _)).
    + lia.
    + vm_compute. reflexivity.
    + lia.
    + vm_compute. discriminate.
    + reflexivity.
    + vm_compute. reflexivity.
    + vm_compute. reflexivity.
  - refine (proj1
      (C9_kill_charges_the_killed_record late_clock two_workers 100 0 4
         Hinv _ _ _ _ _ _ _)).
    + lia.
    + vm_compute. reflexivity.
    + lia.
    + vm_compute. discriminate.
    + reflexivity.
    + vm_compute. reflexivity.
    + vm_compute. reflexivity.
Defined.

(** ** [perform_run] *)

Section RunLemmas.

Variable E : environment.

Lemma store_worker_record i v budget g j :
  full_size g -> in_table i -> 0 <= j ->
  record_at (process_records (store_worker i v budget g)) j
  = if bool_decide (j = i)
    then {| pid := v; status := READY; remaining_runtime := budget |}
    else record_at (process_records g) j.
Proof.
  intros Hl Hi Hj. unfold store_worker. case_bool_decide as Heq.
  - subst j. rewrite !record_at_update_eq; try done;
      by repeat apply full_size_update.
  - unfold in_table in Hi. by rewrite !record_at_update_ne by lia.
Qed.

Lemma store_worker_full_size i v budget g :
  full_size g -> full_size (store_worker i v budget g).
Proof. intros Hl. unfold store_worker. by repeat apply full_size_update. Qed.

(** [perform_run] past its checks and a successful [fork], up to the
    point where it has stored the worker. *)
Lemma perform_run_stored args a1 a2 a3 w v :
  arg args 1 = Some a1 -> arg args 2 = Some a2 -> arg args 3 = Some a3 ->
  0 < atoi a3 ->
  0 <= allocate_index (process_records (globals w)) ->
  fork_result E (length (trace w)) = v -> 0 < v ->
  let i := allocate_index (process_records (globals w)) in
  let g1 := store_worker i v (atoi a3) (globals w) in
  let n := length (trace w) in
  perform_run E args w
  = if running_process_index (globals w) <? 0
    then scheduler E
           {| globals :=
                set_running_process_index i
                  (update_record i (set_status RUNNING)
                     (set_start_time (clock E (S n)) g1));
              trace := trace w ++ [EvFork v; EvTime (clock E (S n))] |}
    else if kill_fails E (S n) v SIGSTOP
         then (tt, {| globals := g1;
                      trace := trace w ++ [EvFork v; EvKill v SIGSTOP (-1);
                                           EvPrint Stderr Run_kill_failed] |})
         else scheduler E
                {| globals := g1;
                   trace := trace w ++ [EvFork v; EvKill v SIGSTOP 0] |}.
Proof.
  intros H1 H2 H3 Hb Hidx Hv Hpos i g1 n. subst i g1 n.
  unfold perform_run. rewrite H1, H2, H3.
  rewrite (proj2 (Z.leb_gt _ _) Hb). mrun.
  rewrite (proj2 (Z.ltb_ge _ _) Hidx), Hv.
  rewrite (proj2 (Z.ltb_ge _ _)) by lia.
  rewrite (proj2 (Z.eqb_neq _ _)) by lia. mrun.
  destruct (running_process_index (globals w) <? 0); simpl.
  - rewrite length_app, Nat.add_1_r. simpl. by rewrite <- app_assoc.
  - rewrite length_app, Nat.add_1_r. simpl.
    destruct (kill_fails E _ _ _); mrun; by rewrite <- !app_assoc.
Qed.

End RunLemmas.

(** X23: [run] on an idle table without [READY] records, with a
    budget below [INT_MAX], no failing signal and no time passing
    between its two readings of the clock: the new worker is stopped
    and continued at once, and ends [RUNNING] with the budget as its
    remaining runtime, named by [running_process_index]. *)
Theorem X23_run_on_idle_table_dispatches E args a1 a2 a3 w v i :
  table_inv (globals w) -> running_process_index (globals w) < 0 ->
  (forall j, in_table j -> status (record_at (process_records (globals w)) j) <> READY) ->
  arg args 1 = Some a1 -> arg args 2 = Some a2 -> arg args 3 = Some a3 ->
  0 < atoi a3 < INT_MAX ->
  allocate_index (process_records (globals w)) = i -> 0 <= i ->
  fork_result E (length (trace w)) = v -> 0 < v ->
  (forall n target sig, kill_fails E n target sig = false) ->
  clock E (3 + length (trace w)) <= clock E (1 + length (trace w)) ->
  let w' := exec (perform_run E args) w in
  running_process_index (globals w') = i /\
  record_at (process_records (globals w')) i
  = {| pid := v; status := RUNNING; remaining_runtime := atoi a3 |} /\
  kills (drop (length (trace w)) (trace w')) = [(v, SIGSTOP); (v, SIGCONT)].
Proof.
  intros Hinv Hidle Hnoready H1 H2 H3 Hb Halloc Hi Hv Hpos Hkill Hclock w'.
  pose proof (table_inv_full_size _ Hinv) as Hl.
  destruct (allocate_index_found _ _ Halloc Hi) as (Hin & _).
  subst w'. unfold exec.
  rewrite (perform_run_stored E args a1 a2 a3 w v) by (done || lia).
  rewrite Halloc, (proj2 (Z.ltb_lt _ _) Hidle).
  set (g1 := store_worker i v (atoi a3) (globals w)).
  set (w1 := {| globals := _; trace := _ |}).
  assert (full_size g1) as Hl1 by (by apply store_worker_full_size).
  destruct (scheduler_cases E w1) as [(Hneg & _)|[(_ & Hf & _)|(_ & _ & ->)]].
  - subst w1. simpl in Hneg. lia.
  - by rewrite Hkill in Hf.
  - assert (process_records (globals (demoted E w1))
            = alter (set_status READY) (Z.to_nat i)
                (alter (set_status RUNNING) (Z.to_nat i) (process_records g1)))
      as Htbl.
    { unfold demoted. subst w1. simpl.
      destruct (fold_elapsed_no_time
                  (set_running_process_index i
                     (update_record i (set_status RUNNING)
                        (set_start_time (clock E (S (length (trace w)))) g1)))
                  i (clock E (S (length (trace w ++
                       [EvFork v; EvTime (clock E (S (length (trace w))))])))))
        as (-> & _); [|reflexivity].
      simpl. rewrite length_app. simpl.
      replace (S (length (trace w) + 2)) with (3 + length (trace w))%nat by lia.
      change (S (length (trace w))) with (1 + length (trace w))%nat. lia. }
    assert (length (process_records g1) = Z.to_nat MAX_PROCESSES) as Hlen1
      by exact Hl1.
    assert (full_size (globals (demoted E w1))) as Hld.
    { unfold full_size. by rewrite Htbl, !length_alter. }
    assert (forall j, in_table j ->
              record_at (process_records (globals (demoted E w1))) j
              = if bool_decide (j = i)
                then {| pid := v; status := READY; remaining_runtime := atoi a3 |}
                else record_at (process_records (globals w)) j) as Hrec.
    { intros j Hj. rewrite Htbl. unfold in_table, MAX_PROCESSES in Hj, Hin.
      unfold MAX_PROCESSES in Hlen1.
      pose proof (store_worker_record i v (atoi a3) (globals w) j Hl) as Hst.
      fold g1 in Hst. case_bool_decide as Heq.
      - subst j. rewrite !record_at_alter_eq by (rewrite ?length_alter; lia).
        rewrite Hst by (done || lia). reflexivity.
      - rewrite !record_at_alter_ne by lia. apply Hst; [done|lia]. }
    assert (find_min_runtime_process (process_records (globals (demoted E w1))) = i)
      as Hmin.
    { destruct (find_min_runtime_process_below_INT_MAX
                  (process_records (globals (demoted E w1))) i)
        as (Hr & Hrd & _).
      - exact Hin.
      - unfold ready_at. rewrite Hrec by done. by rewrite bool_decide_eq_true_2.
      - rewrite Hrec by done. rewrite bool_decide_eq_true_2 by done. simpl. lia.
      - unfold ready_at in Hrd. rewrite Hrec in Hrd by exact Hr.
        case_bool_decide as Heq; [exact Heq|]. by apply Hnoready in Hrd. }
    split; [rewrite dispatch_running_index; rewrite Hmin; done|].
    split.
    + rewrite dispatch_records by done. rewrite Hmin.
      rewrite bool_decide_eq_true_2 by done. rewrite Hrec by done.
      by rewrite bool_decide_eq_true_2.
    + destruct (dispatch_cases E (demoted E w1))
        as [(Hneg & _)|[(_ & Hf & _)|(_ & _ & ->)]].
      * rewrite Hmin in Hneg. lia.
      * by rewrite Hkill in Hf.
      * rewrite Hmin, Hrec by done. rewrite bool_decide_eq_true_2 by done.
        simpl. subst w1 g1. unfold store_worker, update_record. simpl.
        do 3 rewrite (field_alter_same pid) by done.
        rewrite record_at_alter_eq
          by (unfold in_table, MAX_PROCESSES in Hin; unfold full_size in Hl;
              rewrite Hl; unfold MAX_PROCESSES; lia).
        simpl. rewrite <- !app_assoc. by rewrite drop_app_length.
Qed.

Lemma X23_run_on_idle_table_dispatches_witness :
  running_process_index (globals one_worker) = 0 /\
  record_at (process_records (globals one_worker)) 0
  = {| pid := 100; status := RUNNING; remaining_runtime := atoi "5" |} /\
  kills (drop (length (trace initial_world)) (trace one_worker))
  = [(100, SIGSTOP); (100, SIGCONT)].
Proof.
  apply (X23_run_on_idle_table_dispatches quiet ["run"; "./w"; "a"; "5"]
           "./w" "a" "5" initial_world 100 0).
  - exact initial_inv.
  - simpl. lia.
  - intros j Hj. pose proof (initial_status j Hj) as Hs. unfold status_at in Hs.
    change (process_records (globals initial_world))
      with (process_records initial_manager).
    rewrite Hs. discriminate.
  - reflexivity.
  - reflexivity.
  - reflexivity.
  - vm_compute. split; reflexivity.
  - vm_compute. reflexivity.
  - lia.
  - reflexivity.
  - lia.
  - reflexivity.
  - simpl. lia.
Defined.

(** X24: [run] while a worker is running, when the [SIGSTOP] sent to
    the new worker fails: the worker is stored as [READY] with its
    budget, the diagnostic is printed and [perform_run] returns
    without a scheduler pass; the running worker and the index are as
    before. *)
Theorem X24_run_with_failed_suspend E args a1 a2 a3 w v :
  arg args 1 = Some a1 -> arg args 2 = Some a2 -> arg args 3 = Some a3 ->
  0 < atoi a3 ->
  0 <= allocate_index (process_records (globals w)) ->
  fork_result E (length (trace w)) = v -> 0 < v ->
  0 <= running_process_index (globals w) ->
  kill_fails E (S (length (trace w))) v SIGSTOP = true ->
  exec (perform_run E args) w
  = {| globals := store_worker (allocate_index (process_records (globals w)))
                    v (atoi a3) (globals w);
       trace := trace w ++ [EvFork v; EvKill v SIGSTOP (-1);
                            EvPrint Stderr Run_kill_failed] |}.
Proof.
  intros H1 H2 H3 Hb Hidx Hv Hpos Hri Hk. unfold exec.
  rewrite (perform_run_stored E args a1 a2 a3 w v) by done.
  rewrite (proj2 (Z.ltb_ge _ _) Hri), Hk. reflexivity.
Qed.

Lemma X24_run_with_failed_suspend_witness :
  exec (perform_run suspend_fails ["run"; "./w"; "a"; "5"]) one_worker
  = {| globals := store_worker 1 100 5 (globals one_worker);
       trace := trace one_worker ++ [EvFork 100; EvKill 100 SIGSTOP (-1);
                                     EvPrint Stderr Run_kill_failed] |}.
Proof.
  apply (X24_run_with_failed_suspend suspend_fails ["run"; "./w"; "a"; "5"]
           "./w" "a" "5" one_worker 100).
  - reflexivity.
  - reflexivity.
  - reflexivity.
  - vm_compute. reflexivity.
  - vm_compute. discriminate.
  - reflexivity.
  - lia.
  - vm_compute. discriminate.
  - vm_compute. reflexivity.
Defined.

(** ** The periodic accounting *)

Lemma int_of_long_sub_sub a x y :
  int_of_long (int_of_long (a - x) - y) = int_of_long (a - (x + y)).
Proof.
  unfold int_of_long. f_equal.
  replace ((a - x + 2147483648) mod 4294967296 - 2147483648 - y + 2147483648)
    with ((a - x + 2147483648) mod 4294967296 - y) by lia.
  rewrite Zminus_mod_idemp_l. f_equal. lia.
Qed.

Lemma int_of_long_in_range x : INT_MIN <= x <= INT_MAX -> int_of_long x = x.
Proof.
  unfold INT_MIN, INT_MAX, int_of_long. intros Hx.
  rewrite Z.mod_small by lia. lia.
Qed.

(** Accounting at [t1] and again at a later [t2] leaves the records
    and the dispatch clock as accounting at [t2] alone does. *)
Lemma fold_elapsed_compose g i t1 t2 :
  t1 <= t2 ->
  process_records (fold_elapsed i t2 (fold_elapsed i t1 g))
  = process_records (fold_elapsed i t2 g) /\
  start_time (fold_elapsed i t2 (fold_elapsed i t1 g))
  = start_time (fold_elapsed i t2 g).
Proof.
  intros Hle.
  destruct (Z_lt_le_dec 0 (t1 - start_time g)) as [H1|H1].
  - destruct (Z_lt_le_dec 0 (t2 - t1)) as [H2|H2].
    + unfold fold_elapsed. simpl.
      rewrite (proj2 (Z.ltb_lt _ _) H1). simpl.
      rewrite (proj2 (Z.ltb_lt _ _) H2).
      rewrite (proj2 (Z.ltb_lt 0 (t2 - start_time g))) by lia.
      unfold update_record. simpl. split; [|reflexivity].
      rewrite list_alter_alter_eq. apply list_alter_ext; [|reflexivity].
      intros p _. unfold compose, set_remaining_runtime. simpl. f_equal.
      rewrite int_of_long_sub_sub. f_equal. lia.
    + assert (t2 = t1) as -> by lia. apply fold_elapsed_twice.
  - unfold fold_elapsed. simpl.
    destruct (0 <? t1 - start_time g) eqn:Hlt; [apply Z.ltb_lt in Hlt; lia|].
    simpl. by destruct (0 <? t2 - start_time g).
Qed.

(** X25: with a worker running, two rounds of the periodic accounting
    of [main], the second at a later reading of the clock, leave the
    records and the dispatch clock exactly as one round at that later
    reading does: no second is charged twice and none is lost. *)
Theorem X25_accounting_composes E w :
  0 <= running_process_index (globals w) ->
  clock E (length (trace w)) <= clock E (S (length (trace w))) ->
  let r := running_process_index (globals w) in
  let later := clock E (S (length (trace w))) in
  let twice := globals (exec (tick E) (exec (tick E) w)) in
  process_records twice = process_records (fold_elapsed r later (globals w)) /\
  start_time twice = start_time (fold_elapsed r later (globals w)) /\
  running_process_index twice = r.
Proof.
  intros Hri Hle. cbv zeta.
  assert (exec (tick E) w
          = {| globals := fold_elapsed (running_process_index (globals w))
                            (clock E (length (trace w))) (globals w);
               trace := trace w ++ [EvTime (clock E (length (trace w)))] |})
    as Honce.
  { unfold exec, tick. mrun. rewrite (proj2 (Z.leb_le _ _) Hri). by mrun. }
  assert (globals (exec (tick E) (exec (tick E) w))
          = fold_elapsed (running_process_index (globals w))
              (clock E (S (length (trace w))))
              (fold_elapsed (running_process_index (globals w))
                 (clock E (length (trace w))) (globals w))) as ->.
  { rewrite Honce. unfold exec, tick. mrun.
    rewrite running_index_fold_elapsed.
    rewrite (proj2 (Z.leb_le _ _) Hri). mrun.
    by rewrite length_app, Nat.add_1_r. }
  destruct (fold_elapsed_compose (globals w)
              (running_process_index (globals w)) _ _ Hle) as (Hr & Hs).
  split; [exact Hr|]. split; [exact Hs|].
  by rewrite !running_index_fold_elapsed.
Qed.

Lemma X25_accounting_composes_witness :
  process_records (globals (exec (tick late_clock) (exec (tick late_clock) two_workers)))
  = process_records
      (fold_elapsed (running_process_index (globals two_workers))
         (clock late_clock (S (length (trace two_workers)))) (globals two_workers)).
Proof.
  refine (proj1 (X25_accounting_composes late_clock two_workers _ _)).
  - vm_compute. discriminate.
  - vm_compute. discriminate.
Defined.

(** X26: a round of the periodic accounting never moves the dispatch
    clock back (a clock reading before it is ignored), touches no
    record but the running one, and, unless the subtraction leaves the
    range of [int], never raises a remaining runtime. *)
Theorem X26_accounting_never_adds_time E w :
  table_inv (globals w) -> 0 <= running_process_index (globals w) ->
  let r := running_process_index (globals w) in
  let now := clock E (length (trace w)) in
  let g := globals w in
  let g' := globals (exec (tick E) w) in
  start_time g' = Z.max (start_time g) now /\
  (forall j, in_table j -> j <> r ->
     record_at (process_records g') j = record_at (process_records g) j) /\
  (INT_MIN <= remaining_runtime (record_at (process_records g) r) <= INT_MAX ->
   INT_MIN <= remaining_runtime (record_at (process_records g) r)
              - (now - start_time g) ->
   remaining_runtime (record_at (process_records g') r)
   <= remaining_runtime (record_at (process_records g) r)).
Proof.
  intros Hinv Hri. cbv zeta.
  pose proof (table_inv_full_size _ Hinv) as Hl.
  pose proof (table_inv_running_in_table _ Hinv Hri) as Hin.
  assert (globals (exec (tick E) w)
          = fold_elapsed (running_process_index (globals w))
              (clock E (length (trace w))) (globals w)) as ->.
  { unfold exec, tick. mrun. rewrite (proj2 (Z.leb_le _ _) Hri). by mrun. }
  set (r := running_process_index (globals w)) in *.
  set (now := clock E (length (trace w))).
  set (g := globals w) in *.
  split; [|split].
  - destruct (Z_lt_le_dec 0 (now - start_time g)) as [Hpos|Hle].
    + rewrite fold_elapsed_start_time by exact Hpos. lia.
    + destruct (fold_elapsed_no_time g r now Hle) as (_ & -> & _). lia.
  - intros j Hj Hne. unfold in_table in Hj, Hin.
    by rewrite record_fold_elapsed_ne by lia.
  - intros Hrange Hlow.
    destruct (Z_lt_le_dec 0 (now - start_time g)) as [Hpos|Hle].
    + rewrite record_fold_elapsed_eq by done. simpl.
      rewrite int_of_long_in_range by lia. lia.
    + destruct (fold_elapsed_no_time g r now Hle) as (-> & _). lia.
Qed.

Lemma X26_accounting_never_adds_time_witness :
  start_time (globals (exec (tick late_clock) two_workers))
  = Z.max (start_time (globals two_workers))
      (clock late_clock (length (trace two_workers))).
Proof.
  refine (proj1 (X26_accounting_never_adds_time late_clock two_workers _ _)).
  - apply run_operations_inv; [|exact initial_inv].
    intros Hin. repeat (apply elem_of_cons in Hin as [Hin|Hin]; [discriminate|]).
    by apply elem_of_nil in Hin.
  - vm_compute. discriminate.
Defined.

(** ** The loop of [main] *)




(** ** Arguments that are no numbers *)

Lemma atoi_not_numeric a1 : starts_numeric a1 = false -> atoi a1 = 0.
Proof.
  destruct a1 as [|c s]; [reflexivity|].
  destruct c as [[] [] [] [] [] [] [] []]; intros Hn;
    try (vm_compute in Hn; discriminate Hn); reflexivity.
Qed.

(** X28: an argument of [stop], [resume] or [kill] that does not begin
    with white space, a sign or a digit (an empty one included) is read
    by [atoi] as [0], so the command is refused as a pid that is not
    positive: one line, no signal, no change of any global, whatever
    the table holds. *)
Theorem X28_non_numeric_pid_is_refused E a1 w :
  starts_numeric a1 = false ->
  let refused := {| globals := globals w;
                    trace := trace w ++ [EvPrint Stdout Pid_not_positive] |} in
  exec (perform_stop E (atoi a1)) w = refused /\
  exec (perform_resume E (atoi a1)) w = refused /\
  exec (perform_kill E (atoi a1)) w = refused.
Proof.
  intros Hn. cbv zeta. rewrite (atoi_not_numeric a1 Hn). repeat split.
Qed.

Lemma X28_non_numeric_pid_is_refused_witness :
  exec (perform_kill quiet (atoi "abc")) two_workers
  = {| globals := globals two_workers;
       trace := trace two_workers ++ [EvPrint Stdout Pid_not_positive] |}.
Proof.
  refine (proj2 (proj2 (X28_non_numeric_pid_is_refused quiet "abc" two_workers _))).
  reflexivity.
Defined.
